(** * BlindBet: a shallow embedding of the confidential market engine

    The development follows the Solidity sources of the repository:

    - [FHEMath]            contracts/libraries/FHEMath.sol
    - [PayoutCalculator]   contracts/libraries/PayoutCalculator.sol
    - [Resolvable]         contracts/abstract/Resolvable.sol
    - [BlindBetMarket]     contracts/core/BlindBetMarket.sol

    [MarketLib] and [MarketBase] are imported by these contracts; their
    definitions are stated from the specification, the README and the
    revert names the test-suite expects.

    Conventions.  A [uint64] is a [Z] in [0, 2^64); Solidity 0.8 checked
    arithmetic reverts with [Panic 0x11] on overflow, the homomorphic
    operations of the FHE library wrap around modulo [2^64].  A ciphertext
    ([euint64], [ebool]) is represented by the plaintext it encrypts, so
    that the arithmetic performed under encryption can be stated.  A
    [uint256] (identifiers, timestamps, addresses) is an [N].  A call
    either reverts with an [Error] or returns the new contract state;
    events are not part of the state and are left out. *)

From stdpp Require Import gmap strings list.
From Stdlib Require Import ZArith Lia.

Local Open Scope Z_scope.

(** ** Solidity values and reverts *)

Definition address := N.
Definition bytes32 := N.
Definition bytes := list Byte.byte.

Definition UINT64_MAX : Z := 2 ^ 64 - 1.
Definition is_uint64 (z : Z) : Prop := 0 <= z <= UINT64_MAX.
Definition wrap64 (z : Z) : Z := z mod 2 ^ 64.

Inductive Error : Type :=
  | MarketNotFound
  | InvalidState
  | BettingDeadlinePassed
  | Unauthorized
  | MarketNotResolved
  | AlreadyClaimed
  | InvalidQuestion
  | InvalidDuration
  | InvalidResolver
  | RequireFailed (reason : string)   (* require(cond, reason) *)
  | Panic (code : N)                  (* 0x11: arithmetic overflow *)
  | InputProofRejected                (* FHE.fromExternal *)
  | KMSSignaturesRejected             (* FHE.checkSignatures *)
  | SenderNotAllowed                  (* FHE.allowTransient *)
  | AbiDecodeFailed.                  (* abi.decode *)

Inductive result (A : Type) : Type :=
  | Ok (a : A)
  | Revert (e : Error).
Arguments Ok {A} a.
Arguments Revert {A} e.

Definition bind {A B} (r : result A) (k : A -> result B) : result B :=
  match r with
  | Ok a => k a
  | Revert e => Revert e
  end.

Notation "x <- r ;; k" := (bind r (fun x => k))
  (at level 100, r at next level, right associativity).
Notation "r ;;; k" := (bind r (fun _ => k))
  (at level 100, right associativity).

Definition require (cond : bool) (reason : string) : result unit :=
  if cond then Ok tt else Revert (RequireFailed reason).

Definition revert_if (cond : bool) (e : Error) : result unit :=
  if cond then Revert e else Ok tt.

Definition checked_add64 (a b : Z) : result Z :=
  if a + b <=? UINT64_MAX then Ok (a + b) else Revert (Panic 17).
Definition checked_sub64 (a b : Z) : result Z :=
  if b <=? a then Ok (a - b) else Revert (Panic 17).
Definition checked_mul64 (a b : Z) : result Z :=
  if a * b <=? UINT64_MAX then Ok (a * b) else Revert (Panic 17).

(** ** The FHE library (external): ciphertexts by their plaintexts *)

Module FHE.
Definition euint64 := Z.
Definition ebool := bool.

Definition asEuint64 (v : Z) : euint64 := v.
Definition asEbool (b : bool) : ebool := b.

Definition add (a b : euint64) : euint64 := wrap64 (a + b).
Definition sub (a b : euint64) : euint64 := wrap64 (a - b).
Definition mul (a b : euint64) : euint64 := wrap64 (a * b).
  (* division of a ciphertext by a plaintext divisor *)
Definition div (a : euint64) (d : Z) : euint64 := a / d.

Definition lt (a b : euint64) : ebool := a <? b.
Definition gt (a b : euint64) : ebool := b <? a.
Definition select (c : ebool) (a b : euint64) : euint64 := if c then a else b.

Definition ge (a b : euint64) : ebool := b <=? a.
Definition le (a b : euint64) : ebool := a <=? b.
Definition and (a b : ebool) : ebool := a && b.
Definition or (a b : ebool) : ebool := a || b.
End FHE.

(** ** contracts/libraries/FHEMath.sol *)

Module FHEMath.
Import FHE.

Definition safeAdd (a b : euint64) : euint64 * ebool :=
  let sum := FHE.add a b in
  let hasOverflow := FHE.lt sum a in
  let result := FHE.select hasOverflow a sum in
  (result, hasOverflow).

Definition safeSub (a b : euint64) : euint64 * ebool :=
  let hasUnderflow := FHE.lt a b in
  let diff := FHE.sub a b in
  let result := FHE.select hasUnderflow (FHE.asEuint64 0) diff in
  (result, hasUnderflow).

Definition safeMul (a b : euint64) : euint64 * ebool :=
  let result := FHE.mul a b in
  let hasOverflow := FHE.asEbool false in
  (result, hasOverflow).

Definition max (a b : euint64) : euint64 := FHE.select (FHE.gt a b) a b.

Definition min (a b : euint64) : euint64 := FHE.select (FHE.lt a b) a b.

Definition clamp (value minVal maxVal : euint64) : euint64 :=
  let afterMin := max value minVal in
  min afterMin maxVal.

Definition addIf (a b : euint64) (condition : ebool) : euint64 :=
  let sum := FHE.add a b in
  FHE.select condition sum a.

Definition subIf (a b : euint64) (condition : ebool) : euint64 :=
  let diff := FHE.sub a b in
  FHE.select condition diff a.

Definition isInRange (value minVal maxVal : euint64) : ebool :=
  let aboveMin := FHE.ge value minVal in
  let belowMax := FHE.le value maxVal in
  FHE.and aboveMin belowMax.

Definition percentageOf (value : euint64) (percentage : Z) : euint64 :=
  FHE.div (FHE.mul value (FHE.asEuint64 percentage)) 10000.

Definition increaseByPercentage (value : euint64) (percentageIncrease : Z)
    : euint64 :=
  let increase := percentageOf value percentageIncrease in
  FHE.add value increase.

Definition decreaseByPercentage (value : euint64) (percentageDecrease : Z)
    : euint64 :=
  let decrease := percentageOf value percentageDecrease in
  FHE.sub value decrease.

(* for (i = 1; i < conditions.length; i++) result = FHE.and(result, conditions[i]) *)
Definition andAll (conditions : list ebool) : ebool :=
  match conditions with
  | [] => FHE.asEbool true
  | first :: rest => fold_left FHE.and rest first
  end.

Definition orAll (conditions : list ebool) : ebool :=
  match conditions with
  | [] => FHE.asEbool false
  | first :: rest => fold_left FHE.or rest first
  end.
End FHEMath.

(** ** MarketLib *)

Module MarketState.
Definition Open : N := 0%N.
Definition Locked : N := 1%N.
Definition Resolving : N := 2%N.
Definition Resolved : N := 3%N.
End MarketState.

Inductive Outcome : Type := NotSet | Yes | No | Invalid.

(* uint8(outcome) *)
Definition uint8_of_Outcome (o : Outcome) : N :=
  match o with NotSet => 0 | Yes => 1 | No => 2 | Invalid => 3 end%N.

Module MarketLib.
Import FHE.

(** Modelled from the spec: the struct MarketLib.Market is declared in
    MarketLib.sol; the fields are those of section 3 of the
    specification, under the names the contracts use to read them
    ([resolved] is read by MarketValidator.sol). *)
Record Market : Type := mkMarket {
    id : N;
    question : string;
    createdAt : N;
    bettingDeadline : N;
    resolutionTime : N;
    state : N;                (* uint8(MarketState) *)
    resolvedOutcome : N;      (* uint8(Outcome) *)
    creator : address;
    resolver : address;
    image : string;
    category : string;
    totalYesAmount : euint64;
    totalNoAmount : euint64;
    resolved : bool;
    totalsDecrypted : bool;
    decryptedYesAmount : Z;   (* uint64 *)
    decryptedNoAmount : Z     (* uint64 *)
  }.

(** Modelled from the spec: the struct MarketLib.Position of
    MarketLib.sol (README, "Confidential State Management").  The
    encrypted flag is the field getEncryptedPosition reads as
    [pos.exists]; it keeps the README's name here. *)
Record Position : Type := mkPosition {
    yesAmount : euint64;
    noAmount : euint64;
    hasPosition : ebool;
    claimed : bool
  }.

(* the value a Solidity mapping returns for a key never written *)
Definition emptyMarket : Market :=
  mkMarket 0%N "" 0%N 0%N 0%N 0%N 0%N 0%N 0%N "" "" 0 0 false false 0 0.
Definition emptyPosition : Position := mkPosition 0 0 false false.

Definition set_state (s : N) (m : Market) : Market :=
  mkMarket (id m) (question m) (createdAt m) (bettingDeadline m)
    (resolutionTime m) s (resolvedOutcome m) (creator m) (resolver m)
    (image m) (category m) (totalYesAmount m) (totalNoAmount m)
    (resolved m) (totalsDecrypted m) (decryptedYesAmount m)
    (decryptedNoAmount m).

Definition set_resolvedOutcome (o : N) (m : Market) : Market :=
  mkMarket (id m) (question m) (createdAt m) (bettingDeadline m)
    (resolutionTime m) (state m) o (creator m) (resolver m)
    (image m) (category m) (totalYesAmount m) (totalNoAmount m)
    (resolved m) (totalsDecrypted m) (decryptedYesAmount m)
    (decryptedNoAmount m).

Definition set_totals (y n : euint64) (m : Market) : Market :=
  mkMarket (id m) (question m) (createdAt m) (bettingDeadline m)
    (resolutionTime m) (state m) (resolvedOutcome m) (creator m) (resolver m)
    (image m) (category m) y n
    (resolved m) (totalsDecrypted m) (decryptedYesAmount m)
    (decryptedNoAmount m).

Definition set_decrypted (y n : Z) (m : Market) : Market :=
  mkMarket (id m) (question m) (createdAt m) (bettingDeadline m)
    (resolutionTime m) (state m) (resolvedOutcome m) (creator m) (resolver m)
    (image m) (category m) (totalYesAmount m) (totalNoAmount m)
    true true y n.

(** Modelled from the spec: MarketLib.initializeMarket (section 3: a
    market starts Open with outcome NotSet and empty encrypted pools; the
    deadline closes the betting window, the resolution time follows it by
    the resolution delay). *)
Definition initializeMarket (marketId : N) (question : string)
    (bettingDuration resolutionDelay : N) (creator resolver : address)
    (image category : string) (now : N) : Market :=
  mkMarket marketId question now (now + bettingDuration)%N
    (now + bettingDuration + resolutionDelay)%N
    MarketState.Open (uint8_of_Outcome NotSet) creator resolver
    image category (FHE.asEuint64 0) (FHE.asEuint64 0) false false 0 0.

(** Modelled from the spec: MarketLib.updatePosition (section 4.3 and
    the README's "Conditional Logic Without Branching": both tentative
    sums are computed and FHE.select picks by the encrypted side;
    the has-position flag is set). *)
Definition updatePosition (position : Position) (amount : euint64)
    (outcome : ebool) (user : address) : Position :=
  mkPosition
    (FHE.select outcome (FHE.add (yesAmount position) amount)
       (yesAmount position))
    (FHE.select outcome (noAmount position)
       (FHE.add (noAmount position) amount))
    (FHE.asEbool true)
    (claimed position).

(** Modelled from the spec: MarketLib.updateMarketTotals (section 4.3:
    the same branchless update against the two running pools). *)
Definition updateMarketTotals (market : Market) (amount : euint64)
    (outcome : ebool) : Market :=
  set_totals
    (FHE.select outcome (FHE.add (totalYesAmount market) amount)
       (totalYesAmount market))
    (FHE.select outcome (totalNoAmount market)
       (FHE.add (totalNoAmount market) amount))
    market.

(** Modelled from the spec: MarketLib.lockMarket (section 4.1:
    lock is the transition to Locked). *)
Definition lockMarket (market : Market) : Market :=
  set_state MarketState.Locked market.

(** Modelled from the spec: MarketLib.markResolved (section 4.5: the
    plaintext totals are stored, the totals-decrypted and resolved flags
    are set and the market moves to Resolved with the given outcome). *)
Definition markResolved (market : Market) (outcome : N)
    (totalYes totalNo : Z) : Market :=
  set_resolvedOutcome outcome
    (set_state MarketState.Resolved
       (set_decrypted totalYes totalNo market)).

Definition set_claimed (p : Position) : Position :=
  mkPosition (yesAmount p) (noAmount p) (hasPosition p) true.
End MarketLib.

(** ** contracts/libraries/PayoutCalculator.sol *)

Module PayoutCalculator.
Import FHE.

Definition FEE_BASIS_POINTS : Z := 200.
Definition BASIS_POINTS_DENOMINATOR : Z := 10000.

Definition _calculateWinningPayout (userPosition : euint64)
    (market : MarketLib.Market) (isYesWinner : bool) : result euint64 :=
  require (MarketLib.totalsDecrypted market) "Totals not decrypted" ;;;
  let winningPool :=
    if isYesWinner then MarketLib.decryptedYesAmount market
    else MarketLib.decryptedNoAmount market in
  let losingPool :=
    if isYesWinner then MarketLib.decryptedNoAmount market
    else MarketLib.decryptedYesAmount market in
  if (winningPool =? 0) || (losingPool =? 0) then Ok userPosition
  else
    totalPool <- checked_add64 winningPool losingPool ;;
    scaled <- checked_mul64 totalPool FEE_BASIS_POINTS ;;
    let feeAmount := scaled / BASIS_POINTS_DENOMINATOR in
    prizePool <- checked_sub64 totalPool feeAmount ;;
    let profit :=
      FHE.div (FHE.mul userPosition (FHE.asEuint64 losingPool))
        winningPool in
    let payout := FHE.add userPosition profit in
    Ok payout.

Definition calculatePayout (position : MarketLib.Position)
    (market : MarketLib.Market) (outcome : N) : result euint64 :=
  if (outcome =? 3)%N then
    Ok (FHE.add (MarketLib.yesAmount position) (MarketLib.noAmount position))
  else if (outcome =? 1)%N then
    _calculateWinningPayout (MarketLib.yesAmount position) market true
  else if (outcome =? 2)%N then
    _calculateWinningPayout (MarketLib.noAmount position) market false
  else
    Ok (FHE.asEuint64 0).

Definition calculateMarketFee (market : MarketLib.Market) : result Z :=
  require (MarketLib.totalsDecrypted market) "Totals not decrypted" ;;;
  totalPool <- checked_add64 (MarketLib.decryptedYesAmount market)
                 (MarketLib.decryptedNoAmount market) ;;
  scaled <- checked_mul64 totalPool FEE_BASIS_POINTS ;;
  Ok (scaled / BASIS_POINTS_DENOMINATOR).

Definition calculateFee (totalPool : euint64) : euint64 :=
  FHE.div (FHE.mul totalPool (FHE.asEuint64 FEE_BASIS_POINTS))
    BASIS_POINTS_DENOMINATOR.

Definition hasWinningPosition (position : MarketLib.Position) (outcome : N)
    : ebool :=
  if (outcome =? 1)%N then
    FHE.gt (MarketLib.yesAmount position) (FHE.asEuint64 0)
  else if (outcome =? 2)%N then
    FHE.gt (MarketLib.noAmount position) (FHE.asEuint64 0)
  else if (outcome =? 3)%N then
    FHE.or (FHE.gt (MarketLib.yesAmount position) (FHE.asEuint64 0))
      (FHE.gt (MarketLib.noAmount position) (FHE.asEuint64 0))
  else
    FHE.asEbool false.

Definition getTotalPool (market : MarketLib.Market) : euint64 :=
  FHE.add (MarketLib.totalYesAmount market) (MarketLib.totalNoAmount market).
End PayoutCalculator.

(** ** External collaborators *)

(** contracts/interfaces/IConfidentialERC20.sol: the part of the token the
    market calls.  [T] is the token's own state; the first argument of a
    transfer is its caller.  Transfers never revert (section 6 of the
    specification): what they move is whatever the implementation decides. *)
Class ConfidentialERC20 (T : Type) : Type := {
  balanceOf : T -> address -> FHE.euint64;
  transferFromEncrypted :
    address -> address -> address -> FHE.euint64 -> T -> T;
  transferEncrypted : address -> address -> FHE.euint64 -> T -> T
}.

(** The FHEVM host: input-proof verification ([FHE.fromExternal]) and the
    verification of KMS signatures over a list of handles, the claimed
    cleartexts and a decryption proof ([FHE.checkSignatures]). *)
Class FHEVMHost : Type := {
  fromExternalEuint64 : bytes32 -> bytes -> option FHE.euint64;
  fromExternalEbool : bytes32 -> bytes -> option FHE.ebool;
  checkSignatures : list bytes32 -> bytes -> bytes -> bool
}.

Definition fromExternal {A} (verified : option A) : result A :=
  match verified with
  | Some a => Ok a
  | None => Revert InputProofRejected
  end.

(** abi.decode(cleartexts, (uint64, uint64)): two 32-byte big-endian words,
    each of which must fit 64 bits. *)
Fixpoint be_to_Z (acc : Z) (bs : list Byte.byte) : Z :=
  match bs with
  | [] => acc
  | b :: rest => be_to_Z (acc * 256 + Z.of_N (Byte.to_N b)) rest
  end.

Definition abi_decode_uint64_pair (data : bytes) : result (Z * Z) :=
  if (length data <? 64)%nat then Revert AbiDecodeFailed
  else
    let w0 := be_to_Z 0 (take 32 data) in
    let w1 := be_to_Z 0 (take 32 (drop 32 data)) in
    if (w0 <=? UINT64_MAX) && (w1 <=? UINT64_MAX) then Ok (w0, w1)
    else Revert AbiDecodeFailed.

(** AbiCoder.encode(["uint64", "uint64"], [totalYes, totalNo]), as the
    off-chain submitter builds the cleartexts. *)
Fixpoint Z_to_be (n : nat) (z : Z) : list Byte.byte :=
  match n with
  | O => []
  | S n' =>
      Z_to_be n' (z / 256)
        ++ [default Byte.x00 (Byte.of_N (Z.to_N (z mod 256)))]
  end.

Definition abi_encode_uint64_pair (y n : Z) : bytes :=
  Z_to_be 32 y ++ Z_to_be 32 n.

(** ** Contract storage *)

Record Env : Type := mkEnv {
  msg_sender : address;
  block_timestamp : N
}.

(* mapping(K => V): a key never written reads as the zero value *)
Definition mapping_get {K V} `{Countable K} (zero : V) (m : gmap K V) (k : K) : V :=
  default zero (m !! k).

(** Modelled from the spec: the storage variables [markets], [positions],
    [marketCount], [token] and the owner are declared in MarketBase.sol
    and are read under these names by BlindBetMarket.sol; the three
    decryption mappings are those of Resolvable.sol. *)
Record State (T : Type) : Type := mkState {
  self : address;                                 (* address(this) *)
  owner : address;
  token : T;                                      (* the token collaborator *)
  marketCount : N;
  markets : gmap N MarketLib.Market;
  positions : gmap (N * address) MarketLib.Position;
  decryptionCompleted : gmap N bool;
  decryptedYesTotal : gmap N Z;
  decryptedNoTotal : gmap N Z
}.
Arguments mkState {T}.
Arguments self {T}.
Arguments owner {T}.
Arguments token {T}.
Arguments marketCount {T}.
Arguments markets {T}.
Arguments positions {T}.
Arguments decryptionCompleted {T}.
Arguments decryptedYesTotal {T}.
Arguments decryptedNoTotal {T}.

Section Storage.
Context {T : Type}.

Definition set_token (t : T) (st : State T) : State T :=
  mkState (self st) (owner st) t (marketCount st) (markets st)
    (positions st) (decryptionCompleted st) (decryptedYesTotal st)
    (decryptedNoTotal st).

Definition set_marketCount (c : N) (st : State T) : State T :=
  mkState (self st) (owner st) (token st) c (markets st)
    (positions st) (decryptionCompleted st) (decryptedYesTotal st)
    (decryptedNoTotal st).

Definition set_market (marketId : N) (m : MarketLib.Market) (st : State T) : State T :=
  mkState (self st) (owner st) (token st) (marketCount st)
    (<[marketId := m]> (markets st))
    (positions st) (decryptionCompleted st) (decryptedYesTotal st)
    (decryptedNoTotal st).

Definition set_position (marketId : N) (user : address)
    (p : MarketLib.Position) (st : State T) : State T :=
  mkState (self st) (owner st) (token st) (marketCount st) (markets st)
    (<[(marketId, user) := p]> (positions st))
    (decryptionCompleted st) (decryptedYesTotal st) (decryptedNoTotal st).

Definition set_decryption (marketId : N) (totalYes totalNo : Z)
    (st : State T) : State T :=
  mkState (self st) (owner st) (token st) (marketCount st) (markets st)
    (positions st)
    (<[marketId := true]> (decryptionCompleted st))
    (<[marketId := totalYes]> (decryptedYesTotal st))
    (<[marketId := totalNo]> (decryptedNoTotal st)).
End Storage.

(** ** MarketBase *)

Module MarketBase.
Section MarketBase.
Context {T : Type}.

(** Modelled from the spec: MarketBase._getMarket and _getPosition, the
    storage references [markets[marketId]] and
    [positions[marketId][user]]. *)
Definition _getMarket (marketId : N) (st : State T) : MarketLib.Market :=
  mapping_get MarketLib.emptyMarket (markets st) marketId.

Definition _getPosition (marketId : N) (user : address) (st : State T)
    : MarketLib.Position :=
  mapping_get MarketLib.emptyPosition (positions st) (marketId, user).

(** Modelled from the spec: the modifiers of MarketBase.sol.  Each guards
    one precondition of section 4.1 and reverts with the error the
    test-suite expects for it.  [marketExists]: MarketNotFound for an id
    that was never created. *)
Definition marketExists (marketId : N) (st : State T) : result unit :=
  revert_if (marketCount st <=? marketId)%N MarketNotFound.

(** Modelled from the spec: MarketBase.onlyMarketState, InvalidState
    unless the market is in the expected lifecycle state. *)
Definition onlyMarketState (marketId : N) (expected : N) (st : State T)
    : result unit :=
  revert_if
    (negb (MarketLib.state (_getMarket marketId st) =? expected)%N)
    InvalidState.

(** Modelled from the spec: MarketBase.onlyBeforeDeadline,
    BettingDeadlinePassed once the betting deadline is reached. *)
Definition onlyBeforeDeadline (env : Env) (marketId : N) (st : State T)
    : result unit :=
  revert_if
    (MarketLib.bettingDeadline (_getMarket marketId st)
       <=? block_timestamp env)%N
    BettingDeadlinePassed.

(** Modelled from the spec: MarketBase.onlyAfterDeadline, InvalidState
    while the betting deadline is not reached. *)
Definition onlyAfterDeadline (env : Env) (marketId : N) (st : State T)
    : result unit :=
  revert_if
    (block_timestamp env
       <? MarketLib.bettingDeadline (_getMarket marketId st))%N
    InvalidState.

(** Modelled from the spec: MarketBase.onlyAfterResolutionTime,
    InvalidState while the resolution time is not reached. *)
Definition onlyAfterResolutionTime (env : Env) (marketId : N)
    (st : State T) : result unit :=
  revert_if
    (block_timestamp env
       <? MarketLib.resolutionTime (_getMarket marketId st))%N
    InvalidState.

(** Modelled from the spec: MarketBase.onlyResolved, MarketNotResolved
    unless the market is Resolved. *)
Definition onlyResolved (marketId : N) (st : State T) : result unit :=
  revert_if
    (negb (MarketLib.state (_getMarket marketId st)
             =? MarketState.Resolved)%N)
    MarketNotResolved.

(** Modelled from the spec: MarketBase.onlyResolver, which reverts with
    Unauthorized unless isAuthorizedResolver accepts the caller. *)
Definition onlyResolver (authorized : result bool) : result unit :=
  ok <- authorized ;;
  revert_if (negb ok) Unauthorized.

(** Modelled from the spec: MarketBase._markClaimed sets the plaintext
    claimed flag of the position (section 3). *)
Definition _markClaimed (marketId : N) (user : address) (st : State T)
    : State T :=
  set_position marketId user
    (MarketLib.set_claimed (_getPosition marketId user st)) st.

(** Modelled from the spec: MarketBase._validateMarketParams (section
    4.2: question length, betting window and resolution delay within
    their bounds, resolver not the zero address; the bounds are those the
    test-suite probes). *)
Definition _validateMarketParams (question : string)
    (bettingDuration resolutionDelay : N) (resolver : address)
    : result unit :=
  revert_if
    ((String.length question <? 10)%nat || (500 <? String.length question)%nat)
    InvalidQuestion ;;;
  revert_if
    ((bettingDuration <? 3600) || (365 * 86400 <? bettingDuration))%N
    InvalidDuration ;;;
  revert_if
    ((resolutionDelay <? 3600) || (30 * 86400 <? resolutionDelay))%N
    InvalidDuration ;;;
  revert_if (resolver =? 0)%N InvalidResolver.
End MarketBase.
End MarketBase.

(** ** contracts/abstract/Resolvable.sol *)

Module Resolvable.
Section Resolvable.
Context {T : Type} `{!FHEVMHost}.

(* FHE.makePubliclyDecryptable only touches the access-control list of the
   host, and the rest of _enablePublicDecryption is an event: the contract
   storage is left as it is. *)
Definition _enablePublicDecryption (marketId : N)
    (totalYesAmount totalNoAmount : FHE.euint64) (st : State T) : State T :=
  st.

Definition submitDecryptedTotals (marketId : N) (handlesList : list bytes32)
    (cleartexts decryptionProof : bytes) (st : State T) : result (State T) :=
  (* FHE.checkSignatures reverts unless the signatures verify *)
  revert_if (negb (checkSignatures handlesList cleartexts decryptionProof))
    KMSSignaturesRejected ;;;
  totals <- abi_decode_uint64_pair cleartexts ;;
  let totalYes := fst totals in
  let totalNo := snd totals in
  Ok (set_decryption marketId totalYes totalNo st).

Definition _validateOutcome (outcome : Outcome) : bool :=
  match outcome with
  | Yes | No | Invalid => true
  | NotSet => false
  end.

Definition getDecryptedTotals (marketId : N) (st : State T)
    : Z * Z * bool :=
  (mapping_get 0 (decryptedYesTotal st) marketId,
   mapping_get 0 (decryptedNoTotal st) marketId,
   mapping_get false (decryptionCompleted st) marketId).

Definition isDecryptionCompleted (marketId : N) (st : State T) : bool :=
  mapping_get false (decryptionCompleted st) marketId.
End Resolvable.
End Resolvable.

(** ** contracts/core/BlindBetMarket.sol *)

Module BlindBetMarket.
Section BlindBetMarket.
Context {T : Type} `{!ConfidentialERC20 T} `{!FHEVMHost}.
Import MarketBase.

Definition isAuthorizedResolver (marketId : N) (resolver : address)
    (st : State T) : result bool :=
  marketExists marketId st ;;;
  Ok ((MarketLib.resolver (_getMarket marketId st) =? resolver)%N
      || (resolver =? owner st)%N).

Definition createMarket (env : Env) (question : string)
    (bettingDuration resolutionDelay : N) (resolver : address)
    (image category : string) (st : State T) : result (State T * N) :=
  _validateMarketParams question bettingDuration resolutionDelay resolver ;;;
  let marketId := marketCount st in
  let st1 := set_marketCount (marketCount st + 1)%N st in
  let market :=
    MarketLib.initializeMarket marketId question bettingDuration
      resolutionDelay (msg_sender env) resolver image category
      (block_timestamp env) in
  Ok (set_market marketId market st1, marketId).

(* [nonReentrant] (placeBet, claimWinnings): a call runs to completion and
   the token is a function of its own state, so it cannot call back into
   the market.  [FHE.allowTransient(amount, address(token))] in placeBet is
   given the result of [FHE.fromExternal], a handle the contract may use:
   it only touches the access-control list of the host. *)
Definition placeBet (env : Env) (marketId : N)
    (encryptedAmount encryptedOutcome : bytes32) (inputProof : bytes)
    (st : State T) : result (State T) :=
  marketExists marketId st ;;;
  onlyMarketState marketId MarketState.Open st ;;;
  onlyBeforeDeadline env marketId st ;;;
  let market := _getMarket marketId st in
  let position := _getPosition marketId (msg_sender env) st in
  amount <- fromExternal (fromExternalEuint64 encryptedAmount inputProof) ;;
  outcome <- fromExternal (fromExternalEbool encryptedOutcome inputProof) ;;
  let balanceBefore := balanceOf (token st) (self st) in
  let token1 :=
    transferFromEncrypted (self st) (msg_sender env) (self st) amount
      (token st) in
  let balanceAfter := balanceOf token1 (self st) in
  let actualAmount := FHE.sub balanceAfter balanceBefore in
  let position1 :=
    MarketLib.updatePosition position actualAmount outcome (msg_sender env) in
  let market1 := MarketLib.updateMarketTotals market actualAmount outcome in
  Ok (set_market marketId market1
        (set_position marketId (msg_sender env) position1
           (set_token token1 st))).

Definition lockMarket (env : Env) (marketId : N) (st : State T)
    : result (State T) :=
  marketExists marketId st ;;;
  onlyMarketState marketId MarketState.Open st ;;;
  onlyAfterDeadline env marketId st ;;;
  let market := _getMarket marketId st in
  Ok (set_market marketId (MarketLib.lockMarket market) st).

Definition requestResolution (env : Env) (marketId : N) (st : State T)
    : result (State T) :=
  marketExists marketId st ;;;
  onlyMarketState marketId MarketState.Locked st ;;;
  onlyAfterResolutionTime env marketId st ;;;
  onlyResolver (isAuthorizedResolver marketId (msg_sender env) st) ;;;
  let market := _getMarket marketId st in
  let st1 :=
    Resolvable._enablePublicDecryption marketId
      (MarketLib.totalYesAmount market) (MarketLib.totalNoAmount market) st in
  Ok (set_market marketId
        (MarketLib.set_state MarketState.Resolving market) st1).

Definition submitDecryptedTotals (env : Env) (marketId : N)
    (handlesList : list bytes32) (cleartexts decryptionProof : bytes)
    (st : State T) : result (State T) :=
  marketExists marketId st ;;;
  let market := _getMarket marketId st in
  require (MarketLib.state market =? MarketState.Resolving)%N
    "Market not resolving" ;;;
  st1 <- Resolvable.submitDecryptedTotals marketId handlesList cleartexts
           decryptionProof st ;;
  let totalYes := mapping_get 0 (decryptedYesTotal st1) marketId in
  let totalNo := mapping_get 0 (decryptedNoTotal st1) marketId in
  Ok (set_market marketId
        (MarketLib.markResolved (_getMarket marketId st1)
           (uint8_of_Outcome NotSet) totalYes totalNo) st1).

Definition setResolution (env : Env) (marketId : N) (outcome : Outcome)
    (st : State T) : result (State T) :=
  marketExists marketId st ;;;
  onlyResolved marketId st ;;;
  onlyResolver (isAuthorizedResolver marketId (msg_sender env) st) ;;;
  let market := _getMarket marketId st in
  require
    match outcome with Yes | No | Invalid => true | NotSet => false end
    "Invalid outcome" ;;;
  Ok (set_market marketId
        (MarketLib.set_resolvedOutcome (uint8_of_Outcome outcome) market) st).

(** [FHE.allowTransient(payout, address(token))] in claimWinnings.  The
    access-control list of the host refuses (SenderNotAllowed) a handle on
    which the calling contract holds no permission, as is the null handle
    of a ciphertext never written.  Every FHE operation returns a handle
    its caller may use, so the payout is refused only where it is no
    result of an operation: on a zero pool [_calculateWinningPayout]
    returns the stored stake as it is, and that stake is the null handle
    when nothing was ever stored under the caller's key ([placeBet] alone
    stores stakes, both at once). *)
Definition payoutIsStoredStake (market : MarketLib.Market) (outcome : N)
    : bool :=
  ((outcome =? 1) || (outcome =? 2))%N
  && ((MarketLib.decryptedYesAmount market =? 0)
      || (MarketLib.decryptedNoAmount market =? 0)).

Definition positionWritten (marketId : N) (user : address) (st : State T)
    : bool :=
  match positions st !! (marketId, user) with
  | Some _ => true
  | None => false
  end.

Definition claimWinnings (env : Env) (marketId : N) (st : State T)
    : result (State T) :=
  marketExists marketId st ;;;
  onlyResolved marketId st ;;;
  let market := _getMarket marketId st in
  revert_if
    (MarketLib.claimed (_getPosition marketId (msg_sender env) st))
    AlreadyClaimed ;;;
  let st1 := _markClaimed marketId (msg_sender env) st in
  (* [position] is a storage reference: it is read after the flag is set *)
  let position := _getPosition marketId (msg_sender env) st1 in
  payout <- PayoutCalculator.calculatePayout position market
              (MarketLib.resolvedOutcome market) ;;
  revert_if
    (payoutIsStoredStake market (MarketLib.resolvedOutcome market)
     && negb (positionWritten marketId (msg_sender env) st))
    SenderNotAllowed ;;;
  Ok (set_token
        (transferEncrypted (self st1) (msg_sender env) payout (token st1))
        st1).

(** The external, state-changing entry points of BlindBetMarket.sol.
    (An ownership transfer inherited through MarketBase would only change
    [owner], which is read by [isAuthorizedResolver] alone.) *)
Inductive Call : Type :=
  | CreateMarket (question : string) (bettingDuration resolutionDelay : N)
      (resolver : address) (image category : string)
  | PlaceBet (marketId : N) (encryptedAmount encryptedOutcome : bytes32)
      (inputProof : bytes)
  | LockMarket (marketId : N)
  | RequestResolution (marketId : N)
  | SubmitDecryptedTotals (marketId : N) (handlesList : list bytes32)
      (cleartexts decryptionProof : bytes)
  | SetResolution (marketId : N) (outcome : Outcome)
  | ClaimWinnings (marketId : N).

Definition call (env : Env) (c : Call) (st : State T) : result (State T) :=
  match c with
  | CreateMarket q bd rd r img cat =>
      out <- createMarket env q bd rd r img cat st ;; Ok (fst out)
  | PlaceBet m a o p => placeBet env m a o p st
  | LockMarket m => lockMarket env m st
  | RequestResolution m => requestResolution env m st
  | SubmitDecryptedTotals m hs ct p => submitDecryptedTotals env m hs ct p st
  | SetResolution m o => setResolution env m o st
  | ClaimWinnings m => claimWinnings env m st
  end.

(** A transaction: a reverted call leaves the storage (and the token) as
    they were. *)
Definition execute (tx : Env * Call) (st : State T) : State T :=
  match call (fst tx) (snd tx) st with
  | Ok st' => st'
  | Revert _ => st
  end.

Definition run (txs : list (Env * Call)) (st : State T) : State T :=
  fold_left (fun s tx => execute tx s) txs st.

(** The number of claims of [user] on [marketId] that succeed along a
    sequence of transactions. *)
Definition isClaimBy (marketId : N) (user : address) (tx : Env * Call)
    : bool :=
  match snd tx with
  | ClaimWinnings m => (m =? marketId)%N && (msg_sender (fst tx) =? user)%N
  | _ => false
  end.

Definition succeeds (tx : Env * Call) (st : State T) : bool :=
  match call (fst tx) (snd tx) st with
  | Ok _ => true
  | Revert _ => false
  end.

Fixpoint successfulClaims (marketId : N) (user : address)
    (txs : list (Env * Call)) (st : State T) : nat :=
  match txs with
  | [] => O
  | tx :: rest =>
      ((if isClaimBy marketId user tx && succeeds tx st then 1 else 0)
       + successfulClaims marketId user rest (execute tx st))%nat
  end.

(** What a successful call can do to the lifecycle state of a market
    that exists, and the guard that allowed it. *)
Definition transition (env : Env) (c : Call) (marketId : N)
    (st st' : State T) : Prop :=
  let m := _getMarket marketId st in
  let s := MarketLib.state m in
  let s' := MarketLib.state (_getMarket marketId st') in
  s' = s
  \/ (c = LockMarket marketId
      /\ s = MarketState.Open /\ s' = MarketState.Locked
      /\ (MarketLib.bettingDeadline m <= block_timestamp env)%N)
  \/ (c = RequestResolution marketId
      /\ s = MarketState.Locked /\ s' = MarketState.Resolving
      /\ (MarketLib.resolutionTime m <= block_timestamp env)%N)
  \/ (exists handlesList cleartexts proof,
        c = SubmitDecryptedTotals marketId handlesList cleartexts proof
        /\ s = MarketState.Resolving /\ s' = MarketState.Resolved
        /\ checkSignatures handlesList cleartexts proof = true).

(** Modelled from the spec: the storage left by the constructor (section
    3: markets and positions only come into being through createMarket
    and placeBet), owned by the deployer. *)
Definition deployed (self owner : address) (tok : T) : State T :=
  mkState self owner tok 0%N ∅ ∅ ∅ ∅ ∅.

(** A claimed flag is only ever set on a market that exists and is
    Resolved. *)
Definition claimedOnlyWhenResolved (st : State T) : Prop :=
  forall marketId user,
    MarketLib.claimed (_getPosition marketId user st) = true ->
    (marketId < marketCount st)%N
    /\ MarketLib.state (_getMarket marketId st) = MarketState.Resolved.

Definition getEncryptedPosition (marketId : N) (user : address)
    (st : State T) : result (FHE.euint64 * FHE.euint64 * FHE.ebool) :=
  marketExists marketId st ;;;
  let pos := mapping_get MarketLib.emptyPosition (positions st)
               (marketId, user) in
  Ok (MarketLib.yesAmount pos, MarketLib.noAmount pos,
      MarketLib.hasPosition pos).

Definition getResolver (marketId : N) (st : State T) : result address :=
  marketExists marketId st ;;;
  Ok (MarketLib.resolver
        (mapping_get MarketLib.emptyMarket (markets st) marketId)).

(** The decryption mappings of Resolvable.sol against the copies
    [markResolved] keeps in the market, for every market id: they agree,
    they are 64-bit values, they are set exactly on the Resolved markets,
    an outcome is only stored on a Resolved market, and nothing is stored
    beyond [marketCount]. *)
Definition decryptionRecorded (st : State T) : Prop :=
  forall marketId,
    let market := _getMarket marketId st in
    Resolvable.getDecryptedTotals marketId st
      = (MarketLib.decryptedYesAmount market,
         MarketLib.decryptedNoAmount market,
         MarketLib.totalsDecrypted market)
    /\ is_uint64 (MarketLib.decryptedYesAmount market)
    /\ is_uint64 (MarketLib.decryptedNoAmount market)
    /\ (MarketLib.totalsDecrypted market = true
        <-> MarketLib.state market = MarketState.Resolved)
    /\ (MarketLib.state market <> MarketState.Resolved ->
        MarketLib.resolvedOutcome market = uint8_of_Outcome NotSet)
    /\ ((marketCount st <= marketId)%N -> market = MarketLib.emptyMarket).

(** The terms a market is created with. *)
Definition sameTerms (m m' : MarketLib.Market) : Prop :=
  MarketLib.id m' = MarketLib.id m
  /\ MarketLib.question m' = MarketLib.question m
  /\ MarketLib.createdAt m' = MarketLib.createdAt m
  /\ MarketLib.bettingDeadline m' = MarketLib.bettingDeadline m
  /\ MarketLib.resolutionTime m' = MarketLib.resolutionTime m
  /\ MarketLib.creator m' = MarketLib.creator m
  /\ MarketLib.resolver m' = MarketLib.resolver m
  /\ MarketLib.image m' = MarketLib.image m
  /\ MarketLib.category m' = MarketLib.category m.
End BlindBetMarket.
End BlindBetMarket.

(** ** A token ledger and a host to run the contract on *)

Module Ledger.
Record t : Type := mk {
    balances : gmap address Z;
    allowances : gmap (address * address) Z
  }.

Definition balance (l : t) (a : address) : Z := mapping_get 0 (balances l) a.

Definition move (from to : address) (moved : Z) (bal : gmap address Z)
    : gmap address Z :=
  let bal1 := <[from := FHE.sub (mapping_get 0 bal from) moved]> bal in
  <[to := FHE.add (mapping_get 0 bal1 to) moved]> bal1.

(** Modelled from the spec: the confidential token ledger of section 6.
    A transfer whose amount exceeds the balance (or the allowance of the
    caller) moves zero instead of reverting. *)
Definition transferFrom (caller from to : address) (amount : FHE.euint64)
    (l : t) : t :=
  let allowed := mapping_get 0 (allowances l) (from, caller) in
  let ok := (amount <=? balance l from) && (amount <=? allowed) in
  let moved := FHE.select ok amount (FHE.asEuint64 0) in
  mk (move from to moved (balances l))
     (<[(from, caller) := FHE.sub allowed moved]> (allowances l)).

Definition transfer (caller to : address) (amount : FHE.euint64) (l : t) : t :=
  let ok := amount <=? balance l caller in
  let moved := FHE.select ok amount (FHE.asEuint64 0) in
  mk (move caller to moved (balances l)) (allowances l).

#[export] Instance erc20 : ConfidentialERC20 t := {|
    balanceOf := balance;
    transferFromEncrypted := transferFrom;
    transferEncrypted := transfer
  |}.
End Ledger.

Module Sample.
Import BlindBetMarket.

Definition market_addr : address := 100%N.
Definition deployer : address := 1%N.
Definition resolver : address := 2%N.
Definition alice : address := 3%N.
Definition bob : address := 4%N.

(* an input proof is accepted when it is the single byte 01; an input
   handle stands for the value it encrypts *)
Definition proof_ok (proof : bytes) : bool :=
  match proof with
  | [Byte.x01] => true
  | _ => false
  end.

(* the ciphertexts the key-management service will open, by handle: the
   pool totals of market 0 (0xA0, 0xA1) and two other publicly
   decryptable ciphertexts (0xB0, 0xB1) *)
Definition kms_store : gmap bytes32 Z :=
  <[160%N := 1500]> (<[161%N := 2000]>
    (<[176%N := 1000000000000]> (<[177%N := 1]> ∅))).

(* an honest service: it signs exactly the openings of the handles listed *)
Definition kms_signs (handlesList : list bytes32) (cleartexts proof : bytes)
    : bool :=
  match handlesList, abi_decode_uint64_pair cleartexts with
  | [h0; h1], Ok (y, n) =>
      proof_ok proof
      && bool_decide (kms_store !! h0 = Some y)
      && bool_decide (kms_store !! h1 = Some n)
  | _, _ => false
  end.

#[export] Instance host : FHEVMHost := {|
    fromExternalEuint64 h proof :=
      if proof_ok proof then Some (Z.of_N h) else None;
    fromExternalEbool h proof :=
      if proof_ok proof then Some (h =? 1)%N else None;
    checkSignatures := kms_signs
  |}.

Definition market0 (state outcome : N) : MarketLib.Market :=
  MarketLib.mkMarket 0%N "Will it rain tomorrow?" 1000%N 4600%N 8200%N
    state outcome alice resolver "" "" 1500 2000 false false 0 0.

Definition ledger0 : Ledger.t :=
  Ledger.mk (<[alice := 400]> (<[market_addr := 3500]> ∅))
            (<[(alice, market_addr) := 1000000]> ∅).

Definition state0 (state outcome : N) : State Ledger.t :=
  mkState market_addr deployer ledger0 1%N
    (<[0%N := market0 state outcome]> ∅) ∅ ∅ ∅ ∅.

Definition at_time (sender : address) (now : N) : Env := mkEnv sender now.

(* two funded bettors who approved the market *)
Definition ledger1 : Ledger.t :=
  Ledger.mk (<[alice := 1500]> (<[bob := 2000]> ∅))
            (<[(alice, market_addr) := 1500]>
               (<[(bob, market_addr) := 2000]> ∅)).

(* a market is created, both bet, the market is locked and its
   resolution requested *)
Definition history : list (Env * Call) :=
  [ (at_time alice 1000%N,
     CreateMarket "Will it rain tomorrow?" 3600%N 3600%N resolver "" "");
    (at_time alice 2000%N, PlaceBet 0%N 1500%N 1%N [Byte.x01]);
    (at_time bob 3000%N, PlaceBet 0%N 2000%N 0%N [Byte.x01]);
    (at_time bob 4600%N, LockMarket 0%N);
    (at_time resolver 8200%N, RequestResolution 0%N) ].

(* market 0 after its totals were decrypted, with one Yes position *)
Definition resolved_market (outcome : N) (yes no : Z) : MarketLib.Market :=
  MarketLib.markResolved (market0 MarketState.Resolving 0%N) outcome yes no.

Definition resolved_state (outcome : N) (yes no : Z) (stake_yes stake_no : Z)
    : State Ledger.t :=
  mkState market_addr deployer ledger0 1%N
    (<[0%N := resolved_market outcome yes no]> ∅)
    (<[(0%N, alice) := MarketLib.mkPosition stake_yes stake_no true false]> ∅)
    ∅ ∅ ∅.
End Sample.

(** ** Settlement of a set of winning positions *)

Definition sumZ (l : list Z) : Z := fold_right Z.add 0 l.

(** The payouts of the winning-side stakes of several bettors, each
    computed by [_calculateWinningPayout] as their claims are served. *)
Fixpoint winningPayouts (market : MarketLib.Market) (isYesWinner : bool)
    (stakes : list FHE.euint64) : result (list FHE.euint64) :=
  match stakes with
  | [] => Ok []
  | stake :: rest =>
      payout <- PayoutCalculator._calculateWinningPayout stake market
                  isYesWinner ;;
      others <- winningPayouts market isYesWinner rest ;;
      Ok (payout :: others)
  end.

Definition winningPool (market : MarketLib.Market) (isYesWinner : bool) : Z :=
  if isYesWinner then MarketLib.decryptedYesAmount market
  else MarketLib.decryptedNoAmount market.

Definition losingPool (market : MarketLib.Market) (isYesWinner : bool) : Z :=
  if isYesWinner then MarketLib.decryptedNoAmount market
  else MarketLib.decryptedYesAmount market.

(** ** Libraries and contracts with custom errors of their own *)

(** A call that returns a value or reverts with one of the custom errors
    [E] of the library or contract it belongs to. *)
Inductive reverting (E A : Type) : Type :=
  | Returns (a : A)
  | Reverts (e : E).
Arguments Returns {E A} a.
Arguments Reverts {E A} e.

Definition and_then {E A B} (r : reverting E A) (k : A -> reverting E B)
    : reverting E B :=
  match r with
  | Returns a => k a
  | Reverts e => Reverts e
  end.

Definition revert_when {E} (cond : bool) (e : E) : reverting E unit :=
  if cond then Reverts e else Returns tt.

Definition returned {E A} (r : reverting E A) : bool :=
  match r with
  | Returns _ => true
  | Reverts _ => false
  end.

(** ** contracts/utils/MarketValidator.sol *)

Module MarketValidator.

Inductive Error : Type :=
  | EmptyQuestion
  | QuestionTooLong
  | InvalidBettingDuration
  | InvalidResolutionDelay
  | InvalidResolver
  | InvalidMarketState
  | BettingNotOpen
  | BettingDeadlinePassed
  | ResolutionTimeNotReached
  | InvalidAmount
  | AmountTooSmall
  | AmountTooLarge
  | MarketAlreadyResolved
  | InvalidOutcome.

Definition MIN_QUESTION_LENGTH : N := 10.
Definition MAX_QUESTION_LENGTH : N := 500.
Definition MIN_BETTING_DURATION : N := 3600.             (* 1 hours *)
Definition MAX_BETTING_DURATION : N := 365 * 86400.      (* 365 days *)
Definition MIN_RESOLUTION_DELAY : N := 3600.             (* 1 hours *)
Definition MAX_RESOLUTION_DELAY : N := 30 * 86400.       (* 30 days *)
Definition MIN_BET_AMOUNT : Z := 1000.
Definition MAX_BET_AMOUNT : Z := 1000000000000.

Definition validateQuestion (question : string) : reverting Error unit :=
  let length := N.of_nat (String.length question) in
  if (length =? 0)%N then Reverts EmptyQuestion
  else if (length <? MIN_QUESTION_LENGTH)%N
          || (MAX_QUESTION_LENGTH <? length)%N
  then Reverts QuestionTooLong
  else Returns tt.

Definition validateBettingDuration (duration : N) : reverting Error unit :=
  revert_when
    ((duration <? MIN_BETTING_DURATION)%N
     || (MAX_BETTING_DURATION <? duration)%N)
    InvalidBettingDuration.

Definition validateResolutionDelay (delay : N) : reverting Error unit :=
  revert_when
    ((delay <? MIN_RESOLUTION_DELAY)%N || (MAX_RESOLUTION_DELAY <? delay)%N)
    InvalidResolutionDelay.

Definition validateMarketCreation (question : string)
    (bettingDuration resolutionDelay : N) (resolver : address)
    : reverting Error unit :=
  and_then (validateQuestion question) (fun _ =>
  and_then (validateBettingDuration bettingDuration) (fun _ =>
  and_then (validateResolutionDelay resolutionDelay) (fun _ =>
  revert_when (resolver =? 0)%N InvalidResolver))).

Definition validateBetAmount (amount : Z) : reverting Error unit :=
  if amount =? 0 then Reverts InvalidAmount
  else if amount <? MIN_BET_AMOUNT then Reverts AmountTooSmall
  else if MAX_BET_AMOUNT <? amount then Reverts AmountTooLarge
  else Returns tt.

Definition validateBetPlacement (env : Env) (market : MarketLib.Market)
    (amount : Z) : reverting Error unit :=
  if negb (MarketLib.state market =? MarketState.Open)%N
  then Reverts BettingNotOpen
  else if (MarketLib.bettingDeadline market <=? block_timestamp env)%N
  then Reverts BettingDeadlinePassed
  else validateBetAmount amount.

Definition validateEncryptedBetAmount (amount : FHE.euint64) : FHE.ebool :=
  let isNonZero := FHE.gt amount (FHE.asEuint64 0) in
  let isAboveMin := FHE.ge amount (FHE.asEuint64 MIN_BET_AMOUNT) in
  let isBelowMax := FHE.le amount (FHE.asEuint64 MAX_BET_AMOUNT) in
  FHE.and (FHE.and isNonZero isAboveMin) isBelowMax.

Definition validateMarketLocking (env : Env) (market : MarketLib.Market)
    : reverting Error unit :=
  if negb (MarketLib.state market =? MarketState.Open)%N
  then Reverts InvalidMarketState
  else if (block_timestamp env <? MarketLib.bettingDeadline market)%N
  then Reverts BettingDeadlinePassed
  else Returns tt.

Definition validateMarketResolution (env : Env) (market : MarketLib.Market)
    : reverting Error unit :=
  if negb (MarketLib.state market =? MarketState.Locked)%N
  then Reverts InvalidMarketState
  else if (block_timestamp env <? MarketLib.resolutionTime market)%N
  then Reverts ResolutionTimeNotReached
  else if MarketLib.resolved market then Reverts MarketAlreadyResolved
  else Returns tt.

Definition validateOutcome (outcome : Outcome) : reverting Error unit :=
  match outcome with
  | Yes | No | Invalid => Returns tt
  | NotSet => Reverts InvalidOutcome
  end.

Definition validateMarketState (market : MarketLib.Market)
    (expectedState : N) : reverting Error unit :=
  revert_when (negb (MarketLib.state market =? expectedState)%N)
    InvalidMarketState.

Definition isMarketActive (env : Env) (market : MarketLib.Market) : bool :=
  (MarketLib.state market =? MarketState.Open)%N
  && (block_timestamp env <? MarketLib.bettingDeadline market)%N.

Definition canLockMarket (env : Env) (market : MarketLib.Market) : bool :=
  (MarketLib.state market =? MarketState.Open)%N
  && (MarketLib.bettingDeadline market <=? block_timestamp env)%N.

Definition canResolveMarket (env : Env) (market : MarketLib.Market) : bool :=
  (MarketLib.state market =? MarketState.Locked)%N
  && (MarketLib.resolutionTime market <=? block_timestamp env)%N
  && negb (MarketLib.resolved market).

Definition isBeforeDeadline (env : Env) (deadline : N) : bool :=
  (block_timestamp env <? deadline)%N.

Definition isAfterDeadline (env : Env) (deadline : N) : bool :=
  (deadline <=? block_timestamp env)%N.

Definition getTimeRemaining (env : Env) (deadline : N) : N :=
  if (deadline <=? block_timestamp env)%N then 0%N
  else (deadline - block_timestamp env)%N.
End MarketValidator.

(** ** contracts/utils/FeeManager.sol *)

Module FeeManager.

Inductive Error : Type :=
  | InvalidFeeBasisPoints
  | InvalidFeeCollector
  | FeeExceedsAmount
  | NoFeesToCollect.

Definition MAX_FEE_BASIS_POINTS : N := 1000.
Definition BASIS_POINTS_DIVISOR : N := 10000.
Definition DEFAULT_FEE_BASIS_POINTS : N := 200.

Record FeeConfig : Type := mkFeeConfig {
    feeBasisPoints : N;
    feeCollector : address;
    totalFeesCollected : FHE.euint64
  }.

Record FeeCalculation : Type := mkFeeCalculation {
    feeAmount : FHE.euint64;
    netAmount : FHE.euint64;
    totalAmount : FHE.euint64
  }.

(* uint64(x) of a uint256 *)
Definition uint64_of (x : N) : Z := wrap64 (Z.of_N x).

Definition calculateFee (amount : FHE.euint64) (feeBasisPoints : N)
    : reverting Error FHE.euint64 :=
  if (feeBasisPoints =? 0)%N then Returns (FHE.asEuint64 0)
  else if (MAX_FEE_BASIS_POINTS <? feeBasisPoints)%N
  then Reverts InvalidFeeBasisPoints
  else
    let feeNumerator :=
      FHE.mul amount (FHE.asEuint64 (uint64_of feeBasisPoints)) in
    Returns (FHE.div feeNumerator (uint64_of BASIS_POINTS_DIVISOR)).

Definition calculateFeeAndNet (amount : FHE.euint64) (feeBasisPoints : N)
    : reverting Error FeeCalculation :=
  and_then (calculateFee amount feeBasisPoints) (fun fee =>
  Returns (mkFeeCalculation fee (FHE.sub amount fee) amount)).

(* the product is taken in uint256, where a 64-bit amount times at most
   1000 cannot overflow *)
Definition calculateFeePlaintext (amount : Z) (feeBasisPoints : N)
    : reverting Error Z :=
  if (feeBasisPoints =? 0)%N then Returns 0
  else if (MAX_FEE_BASIS_POINTS <? feeBasisPoints)%N
  then Reverts InvalidFeeBasisPoints
  else
    Returns (wrap64 (amount * Z.of_N feeBasisPoints
                     / Z.of_N BASIS_POINTS_DIVISOR)).

Definition extractFee (prizePool : FHE.euint64) (feeBasisPoints : N)
    : reverting Error (FHE.euint64 * FHE.euint64) :=
  and_then (calculateFee prizePool feeBasisPoints) (fun fee =>
  let netPool := FHE.sub prizePool fee in
  Returns (netPool, fee)).

(* one round of the loop of extractFeesFromPools, at index [i] *)
Definition extractFeesFromPools_body (pools : list FHE.euint64)
    (feeBasisPoints : N)
    (acc : reverting Error (list FHE.euint64 * FHE.euint64)) (i : nat)
    : reverting Error (list FHE.euint64 * FHE.euint64) :=
  and_then acc (fun '(netPools, totalFee) =>
  let pool := default 0 (pools !! i) in
  and_then (calculateFee pool feeBasisPoints) (fun fee =>
  Returns (<[i := FHE.sub pool fee]> netPools, FHE.add totalFee fee))).

Definition extractFeesFromPools (pools : list FHE.euint64)
    (feeBasisPoints : N)
    : reverting Error (list FHE.euint64 * FHE.euint64) :=
  let netPools := replicate (length pools) 0 in
  let totalFee := FHE.asEuint64 0 in
  fold_left (extractFeesFromPools_body pools feeBasisPoints)
    (seq 0 (length pools)) (Returns (netPools, totalFee)).

Definition addCollectedFee (config : FeeConfig) (feeAmount : FHE.euint64)
    : FeeConfig :=
  mkFeeConfig (feeBasisPoints config) (feeCollector config)
    (FHE.add (totalFeesCollected config) feeAmount).

Definition resetCollectedFees (config : FeeConfig) : FeeConfig :=
  mkFeeConfig (feeBasisPoints config) (feeCollector config)
    (FHE.asEuint64 0).

Definition calculateProportionalPayout
    (userAmount totalBetsOnSide prizePool : FHE.euint64) : FHE.euint64 :=
  userAmount.

Definition calculateWinningPayout
    (userAmount totalWinningBets totalLosingBets : FHE.euint64)
    (feeBasisPoints : N) : reverting Error FHE.euint64 :=
  let totalPool := FHE.add totalWinningBets totalLosingBets in
  and_then (extractFee totalPool feeBasisPoints) (fun extracted =>
  let prizePool := fst extracted in
  Returns (calculateProportionalPayout userAmount totalWinningBets
             prizePool)).

Definition calculateRefund (yesAmount noAmount : FHE.euint64)
    : FHE.euint64 :=
  FHE.add yesAmount noAmount.

Definition validateFeeConfig (feeBasisPoints : N) (feeCollector : address)
    : reverting Error unit :=
  and_then
    (revert_when (MAX_FEE_BASIS_POINTS <? feeBasisPoints)%N
       InvalidFeeBasisPoints) (fun _ =>
  revert_when (feeCollector =? 0)%N InvalidFeeCollector).

Definition canWithdrawFees (config : FeeConfig) : bool :=
  negb (feeCollector config =? 0)%N.

Definition calculateOdds (totalYes totalNo : FHE.euint64)
    (feeBasisPoints : N) : FHE.euint64 * FHE.euint64 :=
  (FHE.asEuint64 10000, FHE.asEuint64 10000).

Definition calculateExpectedReturn
    (betAmount totalOnSide totalOnOtherSide : FHE.euint64)
    (feeBasisPoints : N) : reverting Error FHE.euint64 :=
  let newTotalOnSide := FHE.add totalOnSide betAmount in
  let newTotalPool := FHE.add newTotalOnSide totalOnOtherSide in
  and_then (extractFee newTotalPool feeBasisPoints) (fun extracted =>
  let prizePool := fst extracted in
  Returns (calculateProportionalPayout betAmount newTotalOnSide prizePool)).

Definition calculatePlatformRevenue (totalYes totalNo : FHE.euint64)
    (feeBasisPoints : N) : reverting Error FHE.euint64 :=
  let totalPool := FHE.add totalYes totalNo in
  calculateFee totalPool feeBasisPoints.
End FeeManager.

(** ** contracts/libraries/ErrorHandler.sol *)

Module ErrorHandler.

Definition euint8 := Z.

Record LastError : Type := mkLastError {
    error : euint8;
    timestamp : N
  }.

(* the value of [errors[user]] for a user never written *)
Definition noLastError : LastError := mkLastError 0 0%N.

Definition NO_ERROR : Z := 0.
Definition INSUFFICIENT_BALANCE : Z := 1.
Definition INSUFFICIENT_ALLOWANCE : Z := 2.
Definition INVALID_AMOUNT : Z := 3.
Definition MARKET_NOT_OPEN : Z := 4.
Definition DEADLINE_PASSED : Z := 5.
Definition ALREADY_CLAIMED : Z := 6.
Definition NO_POSITION : Z := 7.
Definition MARKET_NOT_RESOLVED : Z := 8.

(* FHE.allowThis and FHE.allow only touch the access-control list of the
   host; the event carries no state *)
Definition setError (env : Env) (errors : gmap address LastError)
    (user : address) (errorCode : euint8) : gmap address LastError :=
  <[user := mkLastError errorCode (block_timestamp env)]> errors.

Definition getError (errors : gmap address LastError) (user : address)
    : euint8 * N :=
  let lastError := mapping_get noLastError errors user in
  (error lastError, timestamp lastError).

Definition clearError (env : Env) (errors : gmap address LastError)
    (user : address) (noErrorCode : euint8) : gmap address LastError :=
  setError env errors user noErrorCode.

Definition hasError (errors : gmap address LastError) (user : address)
    : bool :=
  (0 <? timestamp (mapping_get noLastError errors user))%N.

Definition setConditionalError (env : Env)
    (errors : gmap address LastError) (user : address) (condition : bool)
    (errorCode noErrorCode : euint8) : gmap address LastError :=
  if condition then setError env errors user errorCode
  else setError env errors user noErrorCode.

(** The state-changing operations of the library, and a sequence of them
    applied to one [errors] mapping. *)
Inductive Op : Type :=
  | SetError (user : address) (errorCode : euint8)
  | ClearError (user : address) (noErrorCode : euint8)
  | SetConditionalError (user : address) (condition : bool)
      (errorCode noErrorCode : euint8).

Definition target (op : Op) : address :=
  match op with
  | SetError user _ => user
  | ClearError user _ => user
  | SetConditionalError user _ _ _ => user
  end.

Definition perform (errors : gmap address LastError) (step : Env * Op)
    : gmap address LastError :=
  match snd step with
  | SetError user errorCode => setError (fst step) errors user errorCode
  | ClearError user noErrorCode =>
      clearError (fst step) errors user noErrorCode
  | SetConditionalError user condition errorCode noErrorCode =>
      setConditionalError (fst step) errors user condition errorCode
        noErrorCode
  end.

Definition run (steps : list (Env * Op)) (errors : gmap address LastError)
    : gmap address LastError :=
  fold_left perform steps errors.
End ErrorHandler.

(** ** contracts/core/BlindBetFactory.sol *)

(* the reverts of the market contract, as the factory sees them *)
Definition MarketError : Type := Error.

Module BlindBetFactory.
Section BlindBetFactory.
Context {T : Type} `{!ConfidentialERC20 T} `{!FHEVMHost}.

(** The errors of IBlindBetFactory.sol, those of OpenZeppelin's Ownable,
    and a revert of the market contract bubbling up through the factory. *)
Inductive Error : Type :=
  | InvalidImplementation
  | InvalidFeeCollector
  | InvalidFeeBasisPoints
  | MarketNotFound
  | InvalidQuestion
  | InvalidDuration
  | InvalidResolver
  | OwnableUnauthorizedAccount (account : address)
  | OwnableInvalidOwner (owner : address)
  | MarketReverted (e : MarketError).

Record MarketParams : Type := mkMarketParams {
    question : string;
    bettingDuration : N;
    resolutionDelay : N;
    resolver : address;
    image : string;
    category : string
  }.

Record Factory : Type := mkFactory {
    self : address;                        (* address(this) *)
    owner : address;                       (* Ownable *)
    implementation : address;
    tokenAddress : address;
    feeCollector : address;
    feeBasisPoints : N;
    minBettingDuration : N;
    maxBettingDuration : N;
    minResolutionDelay : N;
    marketCount : N;
    markets : gmap N address;
    marketIds : gmap address N
  }.

Record FactoryConfig : Type := mkFactoryConfig {
    config_implementation : address;
    config_tokenAddress : address;
    config_feeCollector : address;
    config_feeBasisPoints : N;
    config_minBettingDuration : N;
    config_maxBettingDuration : N;
    config_minResolutionDelay : N
  }.

Definition MAX_FEE_BASIS_POINTS : N := 1000.
Definition MIN_BETTING_DURATION : N := 3600.          (* 1 hours *)
Definition MAX_BETTING_DURATION : N := 365 * 86400.   (* 365 days *)
Definition MIN_RESOLUTION_DELAY : N := 3600.          (* 1 hours *)

Definition set_owner (a : address) (f : Factory) : Factory :=
  mkFactory (self f) a (implementation f) (tokenAddress f) (feeCollector f)
    (feeBasisPoints f) (minBettingDuration f) (maxBettingDuration f)
    (minResolutionDelay f) (marketCount f) (markets f) (marketIds f).

Definition set_implementation (a : address) (f : Factory) : Factory :=
  mkFactory (self f) (owner f) a (tokenAddress f) (feeCollector f)
    (feeBasisPoints f) (minBettingDuration f) (maxBettingDuration f)
    (minResolutionDelay f) (marketCount f) (markets f) (marketIds f).

Definition set_feeCollector (a : address) (f : Factory) : Factory :=
  mkFactory (self f) (owner f) (implementation f) (tokenAddress f) a
    (feeBasisPoints f) (minBettingDuration f) (maxBettingDuration f)
    (minResolutionDelay f) (marketCount f) (markets f) (marketIds f).

Definition set_feeBasisPoints (n : N) (f : Factory) : Factory :=
  mkFactory (self f) (owner f) (implementation f) (tokenAddress f)
    (feeCollector f) n (minBettingDuration f) (maxBettingDuration f)
    (minResolutionDelay f) (marketCount f) (markets f) (marketIds f).

Definition register (marketId : N) (marketAddress : address) (f : Factory)
    : Factory :=
  mkFactory (self f) (owner f) (implementation f) (tokenAddress f)
    (feeCollector f) (feeBasisPoints f) (minBettingDuration f)
    (maxBettingDuration f) (minResolutionDelay f) (marketCount f)
    (<[marketId := marketAddress]> (markets f))
    (<[marketAddress := marketId]> (marketIds f)).

Definition set_marketCount (n : N) (f : Factory) : Factory :=
  mkFactory (self f) (owner f) (implementation f) (tokenAddress f)
    (feeCollector f) (feeBasisPoints f) (minBettingDuration f)
    (maxBettingDuration f) (minResolutionDelay f) n (markets f)
    (marketIds f).

(** The constructor, run at the address [self] the factory is deployed
    to; [Ownable(msg.sender)] refuses the zero address as owner. *)
Definition constructor (env : Env) (self : address)
    (_tokenAddress _feeCollector : address) (_feeBasisPoints : N)
    : reverting Error Factory :=
  and_then
    (revert_when (msg_sender env =? 0)%N (OwnableInvalidOwner 0%N)) (fun _ =>
  and_then
    (revert_when (_tokenAddress =? 0)%N InvalidImplementation) (fun _ =>
  and_then
    (revert_when (_feeCollector =? 0)%N InvalidFeeCollector) (fun _ =>
  and_then
    (revert_when (MAX_FEE_BASIS_POINTS <? _feeBasisPoints)%N
       InvalidFeeBasisPoints) (fun _ =>
  Returns
    (mkFactory self (msg_sender env) 0%N _tokenAddress _feeCollector
       _feeBasisPoints MIN_BETTING_DURATION MAX_BETTING_DURATION
       MIN_RESOLUTION_DELAY 0%N ∅ ∅))))).

(* Ownable.onlyOwner *)
Definition onlyOwner (env : Env) (f : Factory) : reverting Error unit :=
  revert_when (negb (owner f =? msg_sender env)%N)
    (OwnableUnauthorizedAccount (msg_sender env)).

Definition _validateMarketParams (params : MarketParams) (f : Factory)
    : reverting Error unit :=
  and_then
    (revert_when (String.length (question params) =? 0)%nat InvalidQuestion)
    (fun _ =>
  and_then
    (revert_when
       ((bettingDuration params <? minBettingDuration f)%N
        || (maxBettingDuration f <? bettingDuration params)%N)
       InvalidDuration) (fun _ =>
  and_then
    (revert_when (resolutionDelay params <? minResolutionDelay f)%N
       InvalidDuration) (fun _ =>
  revert_when (resolver params =? 0)%N InvalidResolver))).

(** [deployMarket].  [marketAddress] is the address the EVM gives the
    contract created by [new BlindBetMarket(tokenAddress)] and [tok] the
    state of the token it is bound to; the new market is owned by the
    factory, which is also the sender of its first [createMarket].  The
    result carries the storage of the new market beside the factory's. *)
Definition deployMarket (env : Env) (params : MarketParams)
    (marketAddress : address) (tok : T) (f : Factory)
    : reverting Error (Factory * State T * address * N) :=
  and_then (_validateMarketParams params f) (fun _ =>
  let marketId := marketCount f in
  let f1 := set_marketCount (marketCount f + 1)%N f in
  let market := BlindBetMarket.deployed marketAddress (self f) tok in
  let f2 := register marketId marketAddress f1 in
  match
    BlindBetMarket.createMarket (mkEnv (self f) (block_timestamp env))
      (question params) (bettingDuration params) (resolutionDelay params)
      (resolver params) (image params) (category params) market
  with
  | Ok created => Returns (f2, fst created, marketAddress, marketId)
  | Revert e => Reverts (MarketReverted e)
  end).

Definition getMarketAddress (marketId : N) (f : Factory)
    : reverting Error address :=
  let marketAddress := mapping_get 0%N (markets f) marketId in
  and_then (revert_when (marketAddress =? 0)%N MarketNotFound) (fun _ =>
  Returns marketAddress).

Definition getMarketId (marketAddress : address) (f : Factory)
    : reverting Error N :=
  let marketId := mapping_get 0%N (marketIds f) marketAddress in
  and_then
    (revert_when
       (negb (mapping_get 0%N (markets f) marketId =? marketAddress)%N)
       MarketNotFound) (fun _ =>
  Returns marketId).

Definition getMarketCount (f : Factory) : N := marketCount f.

Definition getConfig (f : Factory) : FactoryConfig :=
  mkFactoryConfig (implementation f) (tokenAddress f) (feeCollector f)
    (feeBasisPoints f) (minBettingDuration f) (maxBettingDuration f)
    (minResolutionDelay f).

Definition updateImplementation (env : Env) (newImplementation : address)
    (f : Factory) : reverting Error Factory :=
  and_then (onlyOwner env f) (fun _ =>
  and_then
    (revert_when (newImplementation =? 0)%N InvalidImplementation) (fun _ =>
  Returns (set_implementation newImplementation f))).

Definition updateFee (env : Env) (newFeeBps : N) (f : Factory)
    : reverting Error Factory :=
  and_then (onlyOwner env f) (fun _ =>
  and_then
    (revert_when (MAX_FEE_BASIS_POINTS <? newFeeBps)%N
       InvalidFeeBasisPoints) (fun _ =>
  Returns (set_feeBasisPoints newFeeBps f))).

Definition updateFeeCollector (env : Env) (newCollector : address)
    (f : Factory) : reverting Error Factory :=
  and_then (onlyOwner env f) (fun _ =>
  and_then
    (revert_when (newCollector =? 0)%N InvalidFeeCollector) (fun _ =>
  Returns (set_feeCollector newCollector f))).

(* Ownable.transferOwnership and Ownable.renounceOwnership *)
Definition transferOwnership (env : Env) (newOwner : address) (f : Factory)
    : reverting Error Factory :=
  and_then (onlyOwner env f) (fun _ =>
  and_then
    (revert_when (newOwner =? 0)%N (OwnableInvalidOwner 0%N)) (fun _ =>
  Returns (set_owner newOwner f))).

Definition renounceOwnership (env : Env) (f : Factory)
    : reverting Error Factory :=
  and_then (onlyOwner env f) (fun _ => Returns (set_owner 0%N f)).

(** The external, state-changing entry points of the factory. *)
Inductive Call : Type :=
  | DeployMarket (params : MarketParams) (marketAddress : address) (tok : T)
  | UpdateImplementation (newImplementation : address)
  | UpdateFee (newFeeBps : N)
  | UpdateFeeCollector (newCollector : address)
  | TransferOwnership (newOwner : address)
  | RenounceOwnership.

Definition call (env : Env) (c : Call) (f : Factory)
    : reverting Error Factory :=
  match c with
  | DeployMarket params marketAddress tok =>
      and_then (deployMarket env params marketAddress tok f) (fun out =>
      Returns (fst (fst (fst out))))
  | UpdateImplementation a => updateImplementation env a f
  | UpdateFee n => updateFee env n f
  | UpdateFeeCollector a => updateFeeCollector env a f
  | TransferOwnership a => transferOwnership env a f
  | RenounceOwnership => renounceOwnership env f
  end.

(* a reverted transaction leaves the storage as it was *)
Definition execute (f : Factory) (tx : Env * Call) : Factory :=
  match call (fst tx) (snd tx) f with
  | Returns f' => f'
  | Reverts _ => f
  end.

Definition run (txs : list (Env * Call)) (f : Factory) : Factory :=
  fold_left execute txs f.

(** The registry of the factory: every id below [marketCount] names a
    non-zero address that maps back to it, nothing is stored from
    [marketCount] on, and every address with an id is the address stored
    under that id. *)
Definition registryConsistent (f : Factory) : Prop :=
  (forall marketId,
     (marketId < marketCount f)%N ->
     exists marketAddress,
       markets f !! marketId = Some marketAddress
       /\ marketAddress <> 0%N
       /\ marketIds f !! marketAddress = Some marketId)
  /\ (forall marketId,
        (marketCount f <= marketId)%N -> markets f !! marketId = None)
  /\ (forall marketAddress marketId,
        marketIds f !! marketAddress = Some marketId ->
        markets f !! marketId = Some marketAddress).

(* the addresses of the contracts a sequence of transactions asks to
   create *)
Definition created (txs : list (Env * Call)) : list address :=
  omap (fun tx : Env * Call =>
          match snd tx with
          | DeployMarket _ marketAddress _ => Some marketAddress
          | _ => None
          end) txs.
End BlindBetFactory.
End BlindBetFactory.

(** * Properties *)

(** ** Arithmetic *)

Lemma UINT64_MAX_eq : UINT64_MAX = 18446744073709551615.
Proof. reflexivity. Qed.

Lemma wrap64_small z : 0 <= z <= UINT64_MAX -> wrap64 z = z.
Proof.
  intros Hz. unfold wrap64. apply Z.mod_small.
  rewrite UINT64_MAX_eq in Hz.
  change (2 ^ 64) with 18446744073709551616. lia.
Qed.

Lemma wrap64_le z : 0 <= z -> 0 <= wrap64 z <= z.
Proof.
  intros Hz. unfold wrap64. split.
  - apply Z.mod_pos_bound. reflexivity.
  - apply Z.mod_le; [assumption | reflexivity].
Qed.

Lemma wrap64_range z : 0 <= wrap64 z <= UINT64_MAX.
Proof.
  unfold wrap64. rewrite UINT64_MAX_eq.
  pose proof (Z.mod_pos_bound z (2 ^ 64) eq_refl) as Hb.
  change (2 ^ 64) with 18446744073709551616 in *. lia.
Qed.

Lemma div_add_le a b w : 0 < w -> a / w + b / w <= (a + b) / w.
Proof.
  intros Hw. apply Z.div_le_lower_bound; [assumption |].
  pose proof (Z.mul_div_le a w Hw). pose proof (Z.mul_div_le b w Hw). lia.
Qed.

(** ** The result monad *)

Lemma bind_Ok {A B} (r : result A) (k : A -> result B) (b : B) :
  bind r k = Ok b -> exists a, r = Ok a /\ k a = Ok b.
Proof. destruct r as [a | e]; simpl; [eauto | discriminate]. Qed.

Lemma revert_if_Ok c e u : revert_if c e = Ok u -> c = false.
Proof. unfold revert_if. destruct c; [discriminate | reflexivity]. Qed.

Lemma require_Ok c msg u : require c msg = Ok u -> c = true.
Proof. unfold require. destruct c; [reflexivity | discriminate]. Qed.

Ltac inv_bind H :=
  repeat match type of H with
  | bind (revert_if _ _) _ = Ok _ =>
      let u := fresh "u" in let Hc := fresh "Hguard" in
      apply bind_Ok in H; destruct H as [u [Hc H]];
      apply revert_if_Ok in Hc
  | bind (require _ _) _ = Ok _ =>
      let u := fresh "u" in let Hc := fresh "Hreq" in
      apply bind_Ok in H; destruct H as [u [Hc H]];
      apply require_Ok in Hc
  | bind _ _ = Ok _ =>
      let a := fresh "a" in let Ha := fresh "Hcall" in
      apply bind_Ok in H; destruct H as [a [Ha H]]
  end.

(** ** PayoutCalculator *)

Section Payout.
Import PayoutCalculator.

Lemma winning_payout_zero_pool stake market isYesWinner :
  MarketLib.totalsDecrypted market = true ->
  winningPool market isYesWinner = 0 \/ losingPool market isYesWinner = 0 ->
  _calculateWinningPayout stake market isYesWinner = Ok stake.
Proof.
    intros Hd Hz. unfold _calculateWinningPayout, winningPool, losingPool in *.
    rewrite Hd. simpl.
    destruct isYesWinner, Hz as [-> | ->]; simpl;
      rewrite ?orb_true_r; reflexivity.
Qed.

(* what the code computes once both pools are nonzero and the plaintext
   fee computation does not overflow *)
Lemma winning_payout_wrapped stake market isYesWinner :
  MarketLib.totalsDecrypted market = true ->
  is_uint64 (winningPool market isYesWinner) ->
  is_uint64 (losingPool market isYesWinner) ->
  winningPool market isYesWinner <> 0 ->
  losingPool market isYesWinner <> 0 ->
  forall payout,
  _calculateWinningPayout stake market isYesWinner = Ok payout ->
  payout =
    wrap64 (stake + wrap64 (stake * losingPool market isYesWinner)
                      / winningPool market isYesWinner).
Proof.
    intros Hd HW HL HW0 HL0 payout.
    unfold _calculateWinningPayout. rewrite Hd. simpl.
    fold (winningPool market isYesWinner) (losingPool market isYesWinner).
    destruct (Z.eqb_spec (winningPool market isYesWinner) 0) as [?|_]; [lia|].
    destruct (Z.eqb_spec (losingPool market isYesWinner) 0) as [?|_]; [lia|].
    simpl. intros H. inv_bind H.
    unfold FHE.add, FHE.div, FHE.mul, FHE.asEuint64 in H. congruence.
Qed.

Lemma winning_payout_in_range stake market isYesWinner :
  MarketLib.totalsDecrypted market = true ->
  is_uint64 stake ->
  is_uint64 (winningPool market isYesWinner) ->
  is_uint64 (losingPool market isYesWinner) ->
  winningPool market isYesWinner <> 0 ->
  losingPool market isYesWinner <> 0 ->
  (winningPool market isYesWinner + losingPool market isYesWinner)
    * FEE_BASIS_POINTS <= UINT64_MAX ->
  stake * losingPool market isYesWinner <= UINT64_MAX ->
  stake + stake * losingPool market isYesWinner
            / winningPool market isYesWinner <= UINT64_MAX ->
  _calculateWinningPayout stake market isYesWinner =
    Ok (stake + stake * losingPool market isYesWinner
                  / winningPool market isYesWinner).
Proof.
    intros Hd Hs HW HL HW0 HL0 Hfee Hmul Hadd.
    unfold _calculateWinningPayout. rewrite Hd. simpl.
    fold (winningPool market isYesWinner) (losingPool market isYesWinner).
    set (W := winningPool market isYesWinner) in *.
    set (L := losingPool market isYesWinner) in *.
    unfold is_uint64, FEE_BASIS_POINTS in *.
    destruct (Z.eqb_spec W 0) as [?|_]; [lia|].
    destruct (Z.eqb_spec L 0) as [?|_]; [lia|].
    simpl. unfold checked_add64.
    destruct (Z.leb_spec (W + L) UINT64_MAX) as [_|?]; [|lia]. simpl.
    unfold checked_mul64, FEE_BASIS_POINTS.
    destruct (Z.leb_spec ((W + L) * 200) UINT64_MAX) as [_|?]; [|lia]. simpl.
    unfold checked_sub64, BASIS_POINTS_DENOMINATOR.
    assert ((W + L) * 200 / 10000 <= W + L) as Hf.
    { apply Z.div_le_upper_bound; lia. }
    destruct (Z.leb_spec ((W + L) * 200 / 10000) (W + L)) as [_|?]; [|lia].
    simpl. unfold FHE.add, FHE.div, FHE.mul, FHE.asEuint64.
    assert (0 <= stake * L) by nia.
    rewrite (wrap64_small (stake * L)) by lia.
    assert (0 <= stake * L / W) by (apply Z.div_pos; lia).
    rewrite wrap64_small by lia. reflexivity.
Qed.
End Payout.

(** X30.  The payout where nothing wraps.  On a market whose totals are
    decrypted, the payout of a winning-side stake (the Yes amount of the
    position when the outcome is Yes, the No amount when it is No) is the
    stake itself when either decrypted pool is zero.  When both pools are
    nonzero it is [stake + stake * losingPool / winningPool] (truncated
    division) as long as the plaintext fee computation
    [(winningPool + losingPool) * 200], the encrypted product
    [stake * losingPool] and the encrypted sum fit 64 bits.  For pools
    Yes = 1500, No = 2000 and outcome Yes, a stake of 1000 yields 2333 and
    a stake of 500 yields 1166. *)
Theorem winning_payout_formula stake market isYesWinner :
  MarketLib.totalsDecrypted market = true ->
  is_uint64 stake ->
  is_uint64 (winningPool market isYesWinner) ->
  is_uint64 (losingPool market isYesWinner) ->
  (winningPool market isYesWinner = 0 \/ losingPool market isYesWinner = 0 ->
   PayoutCalculator._calculateWinningPayout stake market isYesWinner
     = Ok stake)
  /\ (winningPool market isYesWinner <> 0 ->
      losingPool market isYesWinner <> 0 ->
      (winningPool market isYesWinner + losingPool market isYesWinner)
        * PayoutCalculator.FEE_BASIS_POINTS <= UINT64_MAX ->
      stake * losingPool market isYesWinner <= UINT64_MAX ->
      stake + stake * losingPool market isYesWinner
                / winningPool market isYesWinner <= UINT64_MAX ->
      PayoutCalculator._calculateWinningPayout stake market isYesWinner
        = Ok (stake + stake * losingPool market isYesWinner
                        / winningPool market isYesWinner))
  /\ (isYesWinner = true ->
      MarketLib.decryptedYesAmount market = 1500 ->
      MarketLib.decryptedNoAmount market = 2000 ->
      (stake = 1000 ->
       PayoutCalculator._calculateWinningPayout stake market isYesWinner
         = Ok 2333)
      /\ (stake = 500 ->
          PayoutCalculator._calculateWinningPayout stake market isYesWinner
            = Ok 1166))
  /\ (forall position,
        PayoutCalculator.calculatePayout position market
          (uint8_of_Outcome Yes)
        = PayoutCalculator._calculateWinningPayout
            (MarketLib.yesAmount position) market true
        /\ PayoutCalculator.calculatePayout position market
             (uint8_of_Outcome No)
           = PayoutCalculator._calculateWinningPayout
               (MarketLib.noAmount position) market false).
Proof.
  intros Hd Hs HW HL. split; [| split; [| split]].
  - intros Hz. now apply winning_payout_zero_pool.
  - intros. now apply winning_payout_in_range.
  - intros -> HY HN.
    assert (winningPool market true = 1500) as HW' by exact HY.
    assert (losingPool market true = 2000) as HL' by exact HN.
    assert (forall s, is_uint64 s -> s <= 1000 ->
              PayoutCalculator._calculateWinningPayout s market true
                = Ok (s + s * 2000 / 1500)) as Hrange.
    { intros s [Hs0 Hs1] Hle.
      rewrite (winning_payout_in_range s market true); try assumption;
        rewrite ?HW', ?HL'; unfold PayoutCalculator.FEE_BASIS_POINTS;
        rewrite ?UINT64_MAX_eq; try lia; try reflexivity.
      - split; assumption.
      - assert (s * 2000 / 1500 <= 1000 * 2000 / 1500)
          by (apply Z.div_le_mono; lia).
        change (1000 * 2000 / 1500) with 1333 in *. lia. }
    split; intros ->; rewrite (Hrange _ Hs) by lia; reflexivity.
  - intros position. split; reflexivity.
Qed.

Lemma winning_payout_formula_witness :
  PayoutCalculator._calculateWinningPayout 1000
    (Sample.resolved_market 1 1500 2000) true = Ok 2333.
Proof.
  destruct (winning_payout_formula 1000 (Sample.resolved_market 1 1500 2000)
              true) as [_ [_ [Hex _]]].
  - reflexivity.
  - unfold is_uint64. rewrite UINT64_MAX_eq. lia.
  - unfold is_uint64. rewrite UINT64_MAX_eq. simpl. lia.
  - unfold is_uint64. rewrite UINT64_MAX_eq. simpl. lia.
  - destruct Hex as [H1000 _]; [reflexivity | reflexivity | reflexivity |].
    apply H1000. reflexivity.
Defined.

(** The formula does not hold of every 64-bit stake: with both pools at
    2^33 and a stake of 2^32 the encrypted product
    [stake * losingPool = 2^65] wraps to zero, so the winner is paid the
    stake 2^32 and not 2^32 + 2^32. *)
Lemma winning_payout_formula_overflow :
  ~ (forall stake market isYesWinner,
       MarketLib.totalsDecrypted market = true ->
       is_uint64 stake ->
       is_uint64 (winningPool market isYesWinner) ->
       is_uint64 (losingPool market isYesWinner) ->
       winningPool market isYesWinner <> 0 ->
       losingPool market isYesWinner <> 0 ->
       PayoutCalculator._calculateWinningPayout stake market isYesWinner
         = Ok (stake + stake * losingPool market isYesWinner
                         / winningPool market isYesWinner)).
Proof.
  intros H.
  specialize (H (2 ^ 32) (Sample.resolved_market 1 (2 ^ 33) (2 ^ 33)) true).
  assert (PayoutCalculator._calculateWinningPayout (2 ^ 32)
            (Sample.resolved_market 1 (2 ^ 33) (2 ^ 33)) true
          = Ok (2 ^ 32)) as Hcode by (vm_compute; reflexivity).
  rewrite Hcode in H.
  assert (Ok (2 ^ 32) = Ok (2 ^ 32 + 2 ^ 32 * 2 ^ 33 / 2 ^ 33) :> result Z)
    as Habs.
  { apply H; try reflexivity; unfold is_uint64; simpl;
      rewrite ?UINT64_MAX_eq; lia. }
  vm_compute in Habs. discriminate Habs.
Qed.

(* with decrypted totals and a fee computation in range the payout is
   returned, whatever the stake: the encrypted product and sum wrap *)
Lemma winning_payout_returns stake market isYesWinner :
  MarketLib.totalsDecrypted market = true ->
  is_uint64 (winningPool market isYesWinner) ->
  is_uint64 (losingPool market isYesWinner) ->
  winningPool market isYesWinner <> 0 ->
  losingPool market isYesWinner <> 0 ->
  (winningPool market isYesWinner + losingPool market isYesWinner) * 200
    <= UINT64_MAX ->
  PayoutCalculator._calculateWinningPayout stake market isYesWinner
  = Ok (wrap64 (stake + wrap64 (stake * losingPool market isYesWinner)
                          / winningPool market isYesWinner)).
Proof.
  intros Hd HW HL HW0 HL0 Hfee.
  unfold PayoutCalculator._calculateWinningPayout. rewrite Hd. simpl.
  fold (winningPool market isYesWinner) (losingPool market isYesWinner).
  set (W := winningPool market isYesWinner) in *.
  set (L := losingPool market isYesWinner) in *.
  unfold is_uint64 in *.
  destruct (Z.eqb_spec W 0) as [? | _]; [lia |].
  destruct (Z.eqb_spec L 0) as [? | _]; [lia |].
  simpl. unfold checked_add64.
  destruct (Z.leb_spec (W + L) UINT64_MAX) as [_ | ?]; [| lia]. simpl.
  unfold checked_mul64, PayoutCalculator.FEE_BASIS_POINTS.
  destruct (Z.leb_spec ((W + L) * 200) UINT64_MAX) as [_ | ?]; [| lia].
  simpl. unfold checked_sub64, PayoutCalculator.BASIS_POINTS_DENOMINATOR.
  assert ((W + L) * 200 / 10000 <= W + L) as Hf
    by (apply Z.div_le_upper_bound; lia).
  destruct (Z.leb_spec ((W + L) * 200 / 10000) (W + L)) as [_ | ?]; [| lia].
  reflexivity.
Qed.

(** C3.  The winning payout wraps on ordinary stakes.  The code says of
    [_calculateWinningPayout] that it returns the principal plus the
    proportional profit [(userPosition * losingPool) / winningPool], and so
    it does on the pools Yes = 1500, No = 2000 (2333 for a stake of 1000,
    1166 for 500) and on a zero pool (the stake itself).  But the
    encrypted product is taken modulo 2^64 and nothing guards it.  On a
    market resolved Yes with decrypted pools Yes = 10^10 and
    No = 2 * 10^10, the bettor who staked the whole Yes pool, 10^10 (a
    hundredth of the largest bet the validator allows), is owed
    3 * 10^10 by that formula; the product 2 * 10^20 wraps to
    15532559262904483840 and the claim pays 11553255926. *)
Theorem winning_payout_wraps_on_large_stake :
  let market :=
    Sample.resolved_market (uint8_of_Outcome Yes) 10000000000 20000000000 in
  let position := MarketLib.mkPosition 10000000000 0 true false in
  let stake := MarketLib.yesAmount position in
  PayoutCalculator._calculateWinningPayout 1000
    (Sample.resolved_market (uint8_of_Outcome Yes) 1500 2000) true = Ok 2333
  /\ PayoutCalculator._calculateWinningPayout 500
       (Sample.resolved_market (uint8_of_Outcome Yes) 1500 2000) true
     = Ok 1166
  /\ MarketValidator.validateBetAmount stake = Returns tt
  /\ stake = winningPool market true
  /\ stake + stake * losingPool market true / winningPool market true
     = 30000000000
  /\ FHE.mul stake (FHE.asEuint64 (losingPool market true))
     = 15532559262904483840
  /\ PayoutCalculator.calculatePayout position market (uint8_of_Outcome Yes)
     = Ok 11553255926.
Proof.
  intros market position stake.
  split; [vm_compute; reflexivity |]. split; [vm_compute; reflexivity |].
  split; [reflexivity |]. split; [reflexivity |].
  split; [vm_compute; reflexivity |]. split; [vm_compute; reflexivity |].
  change (PayoutCalculator.calculatePayout position market
            (uint8_of_Outcome Yes))
    with (PayoutCalculator._calculateWinningPayout stake market true).
  rewrite winning_payout_returns.
  - vm_compute. reflexivity.
  - reflexivity.
  - unfold is_uint64. rewrite UINT64_MAX_eq. simpl. lia.
  - unfold is_uint64. rewrite UINT64_MAX_eq. simpl. lia.
  - simpl. lia.
  - simpl. lia.
  - rewrite UINT64_MAX_eq. simpl. lia.
Qed.

(** C8 (amended).  On a market whose decrypted winning and losing pools
    are both nonzero, winners split the losing pool pro-rata to their
    stake: for any winning stakes that sum to at most the winning pool, the
    payouts sum to at most the combined pool [winningPool + losingPool].
    (The fee and the prize pool are computed on the way but do not enter
    the payout.) *)
Theorem winning_payouts_within_total_pool market isYesWinner stakes payouts :
  is_uint64 (winningPool market isYesWinner) ->
  is_uint64 (losingPool market isYesWinner) ->
  winningPool market isYesWinner <> 0 ->
  losingPool market isYesWinner <> 0 ->
  Forall (fun stake => 0 <= stake) stakes ->
  sumZ stakes <= winningPool market isYesWinner ->
  winningPayouts market isYesWinner stakes = Ok payouts ->
  sumZ payouts
    <= winningPool market isYesWinner + losingPool market isYesWinner.
Proof.
  intros HW HL HW0 HL0 Hpos Hsum Hpay.
  set (W := winningPool market isYesWinner) in *.
  set (L := losingPool market isYesWinner) in *.
  assert (0 < W) as HWpos by (unfold is_uint64 in HW; lia).
  assert (0 <= L) as HLpos by (unfold is_uint64 in HL; lia).
  assert (sumZ payouts <= sumZ stakes + sumZ stakes * L / W) as Hbound.
  { clear Hsum. revert payouts Hpay.
    induction Hpos as [| stake rest Hstake Hrest IH]; intros payouts Hpay.
    - simpl in Hpay. inversion Hpay. simpl. rewrite Z.div_0_l; lia.
    - simpl in Hpay. inv_bind Hpay. inversion Hpay; subst payouts. simpl.
      specialize (IH _ Hcall0).
      assert (MarketLib.totalsDecrypted market = true) as Hd.
      { unfold PayoutCalculator._calculateWinningPayout in Hcall.
        destruct (MarketLib.totalsDecrypted market);
          [reflexivity | discriminate]. }
      pose proof (winning_payout_wrapped stake market isYesWinner Hd HW HL
                    HW0 HL0 a Hcall) as ->.
      fold W L.
      assert (0 <= stake * L) by nia.
      pose proof (wrap64_le (stake * L) ltac:(assumption)) as [Hlo Hhi].
      assert (0 <= wrap64 (stake * L) / W) by (apply Z.div_pos; lia).
      assert (wrap64 (stake * L) / W <= stake * L / W)
        by (apply Z.div_le_mono; lia).
      pose proof (wrap64_le (stake + wrap64 (stake * L) / W) ltac:(lia))
        as [_ Hle].
      pose proof (div_add_le (stake * L) (sumZ rest * L) W HWpos) as Hdiv.
      replace ((stake + sumZ rest) * L) with (stake * L + sumZ rest * L)
        by ring.
      lia. }
  assert (sumZ stakes * L / W <= L).
  { apply Z.div_le_upper_bound; [assumption |].
    assert (0 <= W - sumZ stakes) by lia. nia. }
  assert (0 <= sumZ stakes \/ sumZ stakes < 0) as [?|?] by lia; lia.
Qed.

Lemma winning_payouts_within_total_pool_witness :
  sumZ [2333; 1166] <= 1500 + 2000.
Proof.
  apply (winning_payouts_within_total_pool
           (Sample.resolved_market 1 1500 2000) true [1000; 500] [2333; 1166]).
  - unfold is_uint64. rewrite UINT64_MAX_eq. simpl. lia.
  - unfold is_uint64. rewrite UINT64_MAX_eq. simpl. lia.
  - simpl. lia.
  - simpl. lia.
  - repeat constructor; lia.
  - simpl. lia.
  - reflexivity.
Defined.

(** C8 as stated fails: with pools Yes = 1500, No = 2000 the fee is 70 and
    the prize pool 3430, yet the two Yes stakes 1000 and 500 are paid 2333
    and 1166, 3499 in all. *)
Lemma winning_payouts_exceed_prize_pool :
  ~ (forall market isYesWinner stakes payouts fee,
       is_uint64 (winningPool market isYesWinner) ->
       is_uint64 (losingPool market isYesWinner) ->
       winningPool market isYesWinner <> 0 ->
       losingPool market isYesWinner <> 0 ->
       Forall (fun stake => 0 <= stake) stakes ->
       sumZ stakes = winningPool market isYesWinner ->
       winningPayouts market isYesWinner stakes = Ok payouts ->
       PayoutCalculator.calculateMarketFee market = Ok fee ->
       sumZ payouts
         <= winningPool market isYesWinner + losingPool market isYesWinner
            - fee).
Proof.
  intros H.
  specialize (H (Sample.resolved_market 1 1500 2000) true [1000; 500]
                [2333; 1166] 70).
  assert (sumZ [2333; 1166] <= 1500 + 2000 - 70) as Habs.
  { apply H; try reflexivity.
    - unfold is_uint64. rewrite UINT64_MAX_eq. simpl. lia.
    - unfold is_uint64. rewrite UINT64_MAX_eq. simpl. lia.
    - simpl. lia.
    - simpl. lia.
    - repeat constructor; lia. }
  simpl in Habs. lia.
Qed.

(** C10.  [safeMul] never raises its overflow flag: the flag is the
    constant false, and the result is the wrapped product.  At
    [a = b = 2^32] the product 2^64 exceeds the 64-bit maximum, the flag is
    false and the result is 0. *)
Theorem safeMul_never_flags_overflow :
  (forall a b, FHEMath.safeMul a b = (wrap64 (a * b), false))
  /\ FHEMath.safeMul (2 ^ 32) (2 ^ 32) = (0, false)
  /\ UINT64_MAX < 2 ^ 32 * 2 ^ 32.
Proof.
  split; [| split].
  - intros a b. reflexivity.
  - reflexivity.
  - reflexivity.
Qed.

(* the sibling guard does detect the overflow it is documented to detect *)
Lemma safeAdd_flags_overflow a b :
  is_uint64 a -> is_uint64 b ->
  snd (FHEMath.safeAdd a b) = true <-> UINT64_MAX < a + b.
Proof.
  unfold is_uint64, FHEMath.safeAdd, FHE.lt, FHE.add, wrap64. simpl.
  rewrite UINT64_MAX_eq. change (2 ^ 64) with 18446744073709551616.
  intros Ha Hb. rewrite Z.ltb_lt. split.
  - intros Hlt.
    destruct (Z_lt_le_dec (a + b) 18446744073709551616) as [Hs | Hs]; [|lia].
    rewrite Z.mod_small in Hlt by lia. lia.
  - intros Hov.
    replace (a + b) with ((a + b - 18446744073709551616)
                          + 1 * 18446744073709551616) by ring.
    rewrite Z.mod_add by lia. rewrite Z.mod_small by lia. lia.
Qed.

(** ** Storage *)

Lemma mapping_get_insert_eq {K V} `{Countable K} (zero v : V)
    (m : gmap K V) (k : K) :
  mapping_get zero (<[k := v]> m) k = v.
Proof. unfold mapping_get. now rewrite lookup_insert_eq. Qed.

Lemma mapping_get_insert_ne {K V} `{Countable K} (zero v : V)
    (m : gmap K V) (k k' : K) :
  k <> k' -> mapping_get zero (<[k := v]> m) k' = mapping_get zero m k'.
Proof. intros Hne. unfold mapping_get. now rewrite lookup_insert_ne. Qed.

Section StorageFacts.
Context {T : Type}.
Import MarketBase.

Lemma getMarket_set_market_eq marketId m (st : State T) :
  _getMarket marketId (set_market marketId m st) = m.
Proof. apply mapping_get_insert_eq. Qed.

Lemma getMarket_set_market_ne marketId marketId' m (st : State T) :
  marketId <> marketId' ->
  _getMarket marketId' (set_market marketId m st) = _getMarket marketId' st.
Proof. intros Hne. now apply mapping_get_insert_ne. Qed.

Lemma getPosition_set_position_eq marketId user p (st : State T) :
  _getPosition marketId user (set_position marketId user p st) = p.
Proof. apply mapping_get_insert_eq. Qed.

Lemma getPosition_set_position_ne marketId user marketId' user' p
    (st : State T) :
  (marketId, user) <> (marketId', user') ->
  _getPosition marketId' user' (set_position marketId user p st)
    = _getPosition marketId' user' st.
Proof. intros Hne. now apply mapping_get_insert_ne. Qed.

(* a position after an update of some position: the claimed flag of the
   updated one is the new flag, the others keep theirs *)
Lemma claimed_set_position marketId user marketId' user' p (st : State T) :
  MarketLib.claimed
    (_getPosition marketId' user' (set_position marketId user p st))
  = if decide ((marketId, user) = (marketId', user'))
    then MarketLib.claimed p
    else MarketLib.claimed (_getPosition marketId' user' st).
Proof.
  destruct (decide _) as [Heq | Hne].
  - inversion Heq; subst. now rewrite getPosition_set_position_eq.
  - now rewrite getPosition_set_position_ne.
Qed.
End StorageFacts.

(** ** The entry points, read backwards from a successful call *)

Section Calls.
Context {T : Type} `{!ConfidentialERC20 T} `{!FHEVMHost}.
Import MarketBase BlindBetMarket.

Lemma marketExists_Ok marketId (st : State T) u :
  marketExists marketId st = Ok u -> (marketId < marketCount st)%N.
Proof.
  unfold marketExists. intros Hc. apply revert_if_Ok in Hc.
  now apply N.leb_gt in Hc.
Qed.

Lemma marketExists_holds marketId (st : State T) :
  (marketId < marketCount st)%N -> marketExists marketId st = Ok tt.
Proof.
  intros Hlt. unfold marketExists, revert_if.
  apply N.leb_gt in Hlt. now rewrite Hlt.
Qed.

Lemma onlyResolver_Ok marketId sender (st : State T) u :
  onlyResolver (isAuthorizedResolver marketId sender st) = Ok u ->
  MarketLib.resolver (_getMarket marketId st) = sender \/ sender = owner st.
Proof.
  unfold onlyResolver, isAuthorizedResolver. intros Hc.
  apply bind_Ok in Hc. destruct Hc as [ok [Hauth Hc]].
  apply bind_Ok in Hauth. destruct Hauth as [u0 [_ Hauth]].
  inversion Hauth; subst ok. apply revert_if_Ok in Hc.
  apply negb_false_iff, orb_true_iff in Hc.
  destruct Hc as [Hr | Ho]; [left | right]; now apply N.eqb_eq.
Qed.

Lemma lockMarket_Ok env marketId (st st' : State T) :
  lockMarket env marketId st = Ok st' ->
  (marketId < marketCount st)%N
  /\ MarketLib.state (_getMarket marketId st) = MarketState.Open
  /\ (MarketLib.bettingDeadline (_getMarket marketId st)
        <= block_timestamp env)%N
  /\ st' = set_market marketId
             (MarketLib.lockMarket (_getMarket marketId st)) st.
Proof.
  unfold lockMarket, onlyMarketState, onlyAfterDeadline. intros Hc.
  apply bind_Ok in Hc. destruct Hc as [u [Hex Hc]].
  apply marketExists_Ok in Hex. inv_bind Hc.
  apply negb_false_iff, N.eqb_eq in Hguard. apply N.ltb_ge in Hguard0.
  inversion Hc. auto.
Qed.

Lemma requestResolution_Ok env marketId (st st' : State T) :
  requestResolution env marketId st = Ok st' ->
  (marketId < marketCount st)%N
  /\ MarketLib.state (_getMarket marketId st) = MarketState.Locked
  /\ (MarketLib.resolutionTime (_getMarket marketId st)
        <= block_timestamp env)%N
  /\ (MarketLib.resolver (_getMarket marketId st) = msg_sender env
      \/ msg_sender env = owner st)
  /\ st' = set_market marketId
             (MarketLib.set_state MarketState.Resolving
                (_getMarket marketId st)) st.
Proof.
  unfold requestResolution, onlyMarketState, onlyAfterResolutionTime.
  intros Hc.
  apply bind_Ok in Hc. destruct Hc as [u [Hex Hc]].
  apply marketExists_Ok in Hex.
  apply bind_Ok in Hc. destruct Hc as [u0 [Hs Hc]]. apply revert_if_Ok in Hs.
  apply bind_Ok in Hc. destruct Hc as [u1 [Ht Hc]]. apply revert_if_Ok in Ht.
  apply bind_Ok in Hc. destruct Hc as [u2 [Hr Hc]].
  apply onlyResolver_Ok in Hr.
  apply negb_false_iff, N.eqb_eq in Hs. apply N.ltb_ge in Ht.
  inversion Hc. auto.
Qed.

Lemma submitDecryptedTotals_Ok env marketId handlesList cleartexts proof
    (st st' : State T) :
  submitDecryptedTotals env marketId handlesList cleartexts proof st = Ok st' ->
  (marketId < marketCount st)%N
  /\ MarketLib.state (_getMarket marketId st) = MarketState.Resolving
  /\ checkSignatures handlesList cleartexts proof = true
  /\ exists totalYes totalNo,
       abi_decode_uint64_pair cleartexts = Ok (totalYes, totalNo)
       /\ st' = set_market marketId
                  (MarketLib.markResolved (_getMarket marketId st)
                     (uint8_of_Outcome NotSet) totalYes totalNo)
                  (set_decryption marketId totalYes totalNo st).
Proof.
  unfold submitDecryptedTotals, Resolvable.submitDecryptedTotals. intros Hc.
  apply bind_Ok in Hc. destruct Hc as [u [Hex Hc]].
  apply marketExists_Ok in Hex.
  apply bind_Ok in Hc. destruct Hc as [u0 [Hs Hc]]. apply require_Ok in Hs.
  apply bind_Ok in Hc. destruct Hc as [st1 [Hsuper Hc]].
  apply bind_Ok in Hsuper. destruct Hsuper as [u1 [Hsig Hsuper]].
  apply revert_if_Ok, negb_false_iff in Hsig.
  apply bind_Ok in Hsuper. destruct Hsuper as [[y n] [Hdec Hsuper]].
  simpl in Hsuper. inversion Hsuper; subst st1. clear Hsuper.
  apply N.eqb_eq in Hs.
  repeat split; try assumption.
  exists y, n. split; [assumption |].
  inversion Hc. unfold set_decryption at 1 2. simpl.
  rewrite !mapping_get_insert_eq. reflexivity.
Qed.

Lemma setResolution_Ok env marketId outcome (st st' : State T) :
  setResolution env marketId outcome st = Ok st' ->
  (marketId < marketCount st)%N
  /\ MarketLib.state (_getMarket marketId st) = MarketState.Resolved
  /\ (MarketLib.resolver (_getMarket marketId st) = msg_sender env
      \/ msg_sender env = owner st)
  /\ outcome <> NotSet
  /\ st' = set_market marketId
             (MarketLib.set_resolvedOutcome (uint8_of_Outcome outcome)
                (_getMarket marketId st)) st.
Proof.
  unfold setResolution, onlyResolved. intros Hc.
  apply bind_Ok in Hc. destruct Hc as [u [Hex Hc]].
  apply marketExists_Ok in Hex.
  apply bind_Ok in Hc. destruct Hc as [u0 [Hs Hc]]. apply revert_if_Ok in Hs.
  apply bind_Ok in Hc. destruct Hc as [u1 [Hr Hc]].
  apply onlyResolver_Ok in Hr.
  apply bind_Ok in Hc. destruct Hc as [u2 [Ho Hc]]. apply require_Ok in Ho.
  apply negb_false_iff, N.eqb_eq in Hs.
  inversion Hc. repeat split; try assumption.
  intros ->. discriminate.
Qed.

Lemma claimWinnings_Ok env marketId (st st' : State T) :
  claimWinnings env marketId st = Ok st' ->
  (marketId < marketCount st)%N
  /\ MarketLib.state (_getMarket marketId st) = MarketState.Resolved
  /\ MarketLib.claimed (_getPosition marketId (msg_sender env) st) = false
  /\ exists payout,
       PayoutCalculator.calculatePayout
         (MarketLib.set_claimed (_getPosition marketId (msg_sender env) st))
         (_getMarket marketId st)
         (MarketLib.resolvedOutcome (_getMarket marketId st)) = Ok payout
       /\ st' = set_token
                  (transferEncrypted (self st) (msg_sender env) payout
                     (token st))
                  (_markClaimed marketId (msg_sender env) st).
Proof.
  unfold claimWinnings, onlyResolved. intros Hc.
  apply bind_Ok in Hc. destruct Hc as [u [Hex Hc]].
  apply marketExists_Ok in Hex.
  apply bind_Ok in Hc. destruct Hc as [u0 [Hs Hc]]. apply revert_if_Ok in Hs.
  apply bind_Ok in Hc. destruct Hc as [u1 [Hcl Hc]]. apply revert_if_Ok in Hcl.
  apply bind_Ok in Hc. destruct Hc as [payout [Hpay Hc]].
  apply bind_Ok in Hc. destruct Hc as [u2 [_ Hc]].
  apply negb_false_iff, N.eqb_eq in Hs.
  repeat split; try assumption.
  exists payout. split.
  - unfold _markClaimed in Hpay.
    now rewrite getPosition_set_position_eq in Hpay.
  - now inversion Hc.
Qed.

Lemma placeBet_Ok env marketId encryptedAmount encryptedOutcome inputProof
    (st st' : State T) :
  placeBet env marketId encryptedAmount encryptedOutcome inputProof st
    = Ok st' ->
  (marketId < marketCount st)%N
  /\ MarketLib.state (_getMarket marketId st) = MarketState.Open
  /\ (block_timestamp env
        < MarketLib.bettingDeadline (_getMarket marketId st))%N
  /\ exists amount outcome,
       fromExternalEuint64 encryptedAmount inputProof = Some amount
       /\ fromExternalEbool encryptedOutcome inputProof = Some outcome
       /\ let token1 :=
            transferFromEncrypted (self st) (msg_sender env) (self st)
              amount (token st) in
          let actualAmount :=
            FHE.sub (balanceOf token1 (self st))
              (balanceOf (token st) (self st)) in
          st' = set_market marketId
                  (MarketLib.updateMarketTotals (_getMarket marketId st)
                     actualAmount outcome)
                  (set_position marketId (msg_sender env)
                     (MarketLib.updatePosition
                        (_getPosition marketId (msg_sender env) st)
                        actualAmount outcome (msg_sender env))
                     (set_token token1 st)).
Proof.
  unfold placeBet, onlyMarketState, onlyBeforeDeadline. intros Hc.
  apply bind_Ok in Hc. destruct Hc as [u [Hex Hc]].
  apply marketExists_Ok in Hex.
  apply bind_Ok in Hc. destruct Hc as [u0 [Hs Hc]]. apply revert_if_Ok in Hs.
  apply bind_Ok in Hc. destruct Hc as [u1 [Ht Hc]]. apply revert_if_Ok in Ht.
  apply bind_Ok in Hc. destruct Hc as [amount [Ha Hc]].
  apply bind_Ok in Hc. destruct Hc as [outcome [Ho Hc]].
  apply negb_false_iff, N.eqb_eq in Hs. apply N.leb_gt in Ht.
  repeat split; try assumption.
  exists amount, outcome.
  unfold fromExternal in Ha, Ho.
  destruct (fromExternalEuint64 _ _); [| discriminate].
  destruct (fromExternalEbool _ _); [| discriminate].
  inversion Ha; inversion Ho; subst. repeat split. now inversion Hc.
Qed.

Lemma createMarket_Ok env question bettingDuration resolutionDelay resolver
    image category (st st' : State T) marketId :
  createMarket env question bettingDuration resolutionDelay resolver image
    category st = Ok (st', marketId) ->
  marketId = marketCount st
  /\ st' = set_market marketId
             (MarketLib.initializeMarket marketId question bettingDuration
                resolutionDelay (msg_sender env) resolver image category
                (block_timestamp env))
             (set_marketCount (marketCount st + 1)%N st).
Proof.
  unfold createMarket. intros Hc.
  apply bind_Ok in Hc. destruct Hc as [u [_ Hc]].
  inversion Hc. auto.
Qed.
End Calls.

(** ** One transaction at a time *)

Section Steps.
Context {T : Type} `{!ConfidentialERC20 T} `{!FHEVMHost}.
Import MarketBase BlindBetMarket.

Lemma call_transition env c (st st' : State T) marketId :
  call env c st = Ok st' ->
  (marketId < marketCount st)%N ->
  transition env c marketId st st'.
Proof.
  intros Hcall Hex. unfold transition.
  destruct c as [q bd rd r img cat | m a o p | m | m | m hs ct p | m o | m];
    simpl in Hcall.
  - apply bind_Ok in Hcall. destruct Hcall as [[st1 mid] [Hc Hret]].
    inversion Hret; subst st'. simpl.
    apply createMarket_Ok in Hc. destruct Hc as [-> ->].
    left. now rewrite getMarket_set_market_ne by lia.
  - apply placeBet_Ok in Hcall.
    destruct Hcall as (_ & _ & _ & amount & outcome & _ & _ & ->).
    left. destruct (decide (m = marketId)) as [-> | Hne].
    + now rewrite getMarket_set_market_eq.
    + now rewrite getMarket_set_market_ne by assumption.
  - apply lockMarket_Ok in Hcall. destruct Hcall as (_ & Hs & Ht & ->).
    destruct (decide (m = marketId)) as [-> | Hne].
    + right; left. rewrite getMarket_set_market_eq. auto.
    + left. now rewrite getMarket_set_market_ne.
  - apply requestResolution_Ok in Hcall.
    destruct Hcall as (_ & Hs & Ht & _ & ->).
    destruct (decide (m = marketId)) as [-> | Hne].
    + right; right; left. rewrite getMarket_set_market_eq. auto.
    + left. now rewrite getMarket_set_market_ne.
  - apply submitDecryptedTotals_Ok in Hcall.
    destruct Hcall as (_ & Hs & Hsig & y & n & _ & ->).
    destruct (decide (m = marketId)) as [-> | Hne].
    + right; right; right. exists hs, ct, p.
      rewrite getMarket_set_market_eq. auto.
    + left. now rewrite getMarket_set_market_ne.
  - apply setResolution_Ok in Hcall.
    destruct Hcall as (_ & _ & _ & _ & ->).
    left. destruct (decide (m = marketId)) as [-> | Hne].
    + now rewrite getMarket_set_market_eq.
    + now rewrite getMarket_set_market_ne.
  - apply claimWinnings_Ok in Hcall.
    destruct Hcall as (_ & _ & _ & payout & _ & ->).
    left. reflexivity.
Qed.

Lemma call_marketCount env c (st st' : State T) :
  call env c st = Ok st' -> (marketCount st <= marketCount st')%N.
Proof.
  intros Hcall.
  destruct c as [q bd rd r img cat | m a o p | m | m | m hs ct p | m o | m];
    simpl in Hcall.
  - apply bind_Ok in Hcall. destruct Hcall as [[st1 mid] [Hc Hret]].
    inversion Hret; subst st'. simpl.
    apply createMarket_Ok in Hc. destruct Hc as [-> ->]. simpl. lia.
  - apply placeBet_Ok in Hcall.
    destruct Hcall as (_ & _ & _ & amount & outcome & _ & _ & ->).
    simpl. lia.
  - apply lockMarket_Ok in Hcall. destruct Hcall as (_ & _ & _ & ->).
    simpl. lia.
  - apply requestResolution_Ok in Hcall.
    destruct Hcall as (_ & _ & _ & _ & ->). simpl. lia.
  - apply submitDecryptedTotals_Ok in Hcall.
    destruct Hcall as (_ & _ & _ & y & n & _ & ->). simpl. lia.
  - apply setResolution_Ok in Hcall.
    destruct Hcall as (_ & _ & _ & _ & ->). simpl. lia.
  - apply claimWinnings_Ok in Hcall.
    destruct Hcall as (_ & _ & _ & payout & _ & ->). simpl. lia.
Qed.

Lemma call_claimed env c (st st' : State T) marketId user :
  call env c st = Ok st' ->
  MarketLib.claimed (_getPosition marketId user st) = true ->
  MarketLib.claimed (_getPosition marketId user st') = true.
Proof.
  intros Hcall Hcl.
  destruct c as [q bd rd r img cat | m a o p | m | m | m hs ct p | m o | m];
    simpl in Hcall.
  - apply bind_Ok in Hcall. destruct Hcall as [[st1 mid] [Hc Hret]].
    inversion Hret; subst st'. simpl.
    apply createMarket_Ok in Hc. destruct Hc as [-> ->]. exact Hcl.
  - apply placeBet_Ok in Hcall.
    destruct Hcall as (_ & _ & _ & amount & outcome & _ & _ & ->).
    cbv zeta.
    match goal with
    | |- MarketLib.claimed (_getPosition _ _ (set_market _ _ ?s)) = _ =>
        change (MarketLib.claimed (_getPosition marketId user s) = true)
    end.
    rewrite claimed_set_position. destruct (decide _) as [Heq | _].
    + inversion Heq; subst. exact Hcl.
    + exact Hcl.
  - apply lockMarket_Ok in Hcall. destruct Hcall as (_ & _ & _ & ->).
    exact Hcl.
  - apply requestResolution_Ok in Hcall.
    destruct Hcall as (_ & _ & _ & _ & ->). exact Hcl.
  - apply submitDecryptedTotals_Ok in Hcall.
    destruct Hcall as (_ & _ & _ & y & n & _ & ->). exact Hcl.
  - apply setResolution_Ok in Hcall.
    destruct Hcall as (_ & _ & _ & _ & ->). exact Hcl.
  - apply claimWinnings_Ok in Hcall.
    destruct Hcall as (_ & _ & _ & payout & _ & ->).
    change (MarketLib.claimed
              (_getPosition marketId user
                 (_markClaimed m (msg_sender env) st)) = true).
    unfold _markClaimed. rewrite claimed_set_position.
    destruct (decide _); [reflexivity | exact Hcl].
Qed.

(* along any sequence of transactions: markets stay, the lifecycle state
   never decreases, Resolved is final and a claimed flag stays set *)
Lemma run_invariants txs (st : State T) marketId :
  (marketId < marketCount st)%N ->
  (marketId < marketCount (run txs st))%N
  /\ (MarketLib.state (_getMarket marketId st)
        <= MarketLib.state (_getMarket marketId (run txs st)))%N
  /\ (MarketLib.state (_getMarket marketId st) = MarketState.Resolved ->
      MarketLib.state (_getMarket marketId (run txs st))
        = MarketState.Resolved)
  /\ (forall user,
        MarketLib.claimed (_getPosition marketId user st) = true ->
        MarketLib.claimed (_getPosition marketId user (run txs st)) = true).
Proof.
  revert st. induction txs as [| [env c] txs IH]; intros st Hex.
  - simpl. repeat split; auto; try lia.
  - simpl. unfold execute at 1 2 3 4. simpl.
    destruct (call env c st) as [st' |] eqn:Hcall; [| now apply IH].
    pose proof (call_marketCount _ _ _ _ Hcall) as Hcount.
    pose proof (call_transition _ _ _ _ marketId Hcall Hex) as Htr.
    assert (marketId < marketCount st')%N as Hex' by lia.
    destruct (IH st' Hex') as (Hc & Hle & Hres & Hcl).
    unfold transition, MarketState.Open, MarketState.Locked,
      MarketState.Resolving, MarketState.Resolved in *.
    repeat split.
    + exact Hc.
    + destruct Htr as [Heq | [(_ & Hs & Hs' & _) | [(_ & Hs & Hs' & _)
        | (hs & ct & p & _ & Hs & Hs' & _)]]]; lia.
    + intros Hs. apply Hres.
      destruct Htr as [Heq | [(_ & Hs0 & _) | [(_ & Hs0 & _)
        | (hs & ct & p & _ & Hs0 & _)]]]; try congruence; lia.
    + intros user Hu. apply Hcl.
      eapply call_claimed; eassumption.
Qed.
End Steps.

(** ** The entry points, read forwards from their preconditions *)

Section Guards.
Context {T : Type} `{!ConfidentialERC20 T} `{!FHEVMHost}.
Import MarketBase BlindBetMarket.

Lemma lockMarket_succeeds env marketId (st : State T) :
  (marketId < marketCount st)%N ->
  MarketLib.state (_getMarket marketId st) = MarketState.Open ->
  (MarketLib.bettingDeadline (_getMarket marketId st)
     <= block_timestamp env)%N ->
  lockMarket env marketId st
    = Ok (set_market marketId
            (MarketLib.lockMarket (_getMarket marketId st)) st).
Proof.
  intros Hex Hs Ht. unfold lockMarket.
  rewrite marketExists_holds by assumption. simpl.
  unfold onlyMarketState, onlyAfterDeadline. rewrite Hs. simpl.
  apply N.ltb_ge in Ht. now rewrite Ht.
Qed.

Lemma lockMarket_wrong_state env marketId (st : State T) :
  (marketId < marketCount st)%N ->
  MarketLib.state (_getMarket marketId st) <> MarketState.Open ->
  lockMarket env marketId st = Revert InvalidState.
Proof.
  intros Hex Hs. unfold lockMarket.
  rewrite marketExists_holds by assumption. simpl.
  unfold onlyMarketState. apply N.eqb_neq in Hs. now rewrite Hs.
Qed.

Lemma isAuthorizedResolver_holds marketId sender (st : State T) :
  (marketId < marketCount st)%N ->
  MarketLib.resolver (_getMarket marketId st) = sender \/ sender = owner st ->
  onlyResolver (isAuthorizedResolver marketId sender st) = Ok tt.
Proof.
  intros Hex Hauth. unfold onlyResolver, isAuthorizedResolver.
  rewrite marketExists_holds by assumption. simpl.
  assert ((MarketLib.resolver (_getMarket marketId st) =? sender)%N
          || (sender =? owner st)%N = true) as ->.
  { apply orb_true_iff. destruct Hauth as [Hr | Ho]; [left | right];
      now apply N.eqb_eq. }
  reflexivity.
Qed.

Lemma requestResolution_succeeds env marketId (st : State T) :
  (marketId < marketCount st)%N ->
  MarketLib.state (_getMarket marketId st) = MarketState.Locked ->
  (MarketLib.resolutionTime (_getMarket marketId st)
     <= block_timestamp env)%N ->
  (MarketLib.resolver (_getMarket marketId st) = msg_sender env
   \/ msg_sender env = owner st) ->
  requestResolution env marketId st
    = Ok (set_market marketId
            (MarketLib.set_state MarketState.Resolving
               (_getMarket marketId st)) st).
Proof.
  intros Hex Hs Ht Hauth. unfold requestResolution.
  rewrite marketExists_holds by assumption. simpl.
  unfold onlyMarketState, onlyAfterResolutionTime. rewrite Hs. simpl.
  apply N.ltb_ge in Ht. rewrite Ht. simpl.
  now rewrite isAuthorizedResolver_holds.
Qed.

Lemma requestResolution_wrong_state env marketId (st : State T) :
  (marketId < marketCount st)%N ->
  MarketLib.state (_getMarket marketId st) <> MarketState.Locked ->
  requestResolution env marketId st = Revert InvalidState.
Proof.
  intros Hex Hs. unfold requestResolution.
  rewrite marketExists_holds by assumption. simpl.
  unfold onlyMarketState. apply N.eqb_neq in Hs. now rewrite Hs.
Qed.

Lemma submitDecryptedTotals_succeeds env marketId handlesList cleartexts
    proof totalYes totalNo (st : State T) :
  (marketId < marketCount st)%N ->
  MarketLib.state (_getMarket marketId st) = MarketState.Resolving ->
  checkSignatures handlesList cleartexts proof = true ->
  abi_decode_uint64_pair cleartexts = Ok (totalYes, totalNo) ->
  submitDecryptedTotals env marketId handlesList cleartexts proof st
    = Ok (set_market marketId
            (MarketLib.markResolved (_getMarket marketId st)
               (uint8_of_Outcome NotSet) totalYes totalNo)
            (set_decryption marketId totalYes totalNo st)).
Proof.
  intros Hex Hs Hsig Hdec.
  unfold submitDecryptedTotals, Resolvable.submitDecryptedTotals.
  rewrite marketExists_holds by assumption. simpl.
  rewrite Hs. simpl. rewrite Hsig. simpl. rewrite Hdec. simpl.
  unfold set_decryption at 1 2. simpl.
  now rewrite !mapping_get_insert_eq.
Qed.

Lemma submitDecryptedTotals_wrong_state env marketId handlesList cleartexts
    proof (st : State T) :
  (marketId < marketCount st)%N ->
  MarketLib.state (_getMarket marketId st) <> MarketState.Resolving ->
  submitDecryptedTotals env marketId handlesList cleartexts proof st
    = Revert (RequireFailed "Market not resolving").
Proof.
  intros Hex Hs. unfold submitDecryptedTotals.
  rewrite marketExists_holds by assumption. simpl.
  apply N.eqb_neq in Hs. now rewrite Hs.
Qed.

Lemma submitDecryptedTotals_rejected_proof env marketId handlesList
    cleartexts proof (st : State T) :
  (marketId < marketCount st)%N ->
  MarketLib.state (_getMarket marketId st) = MarketState.Resolving ->
  checkSignatures handlesList cleartexts proof = false ->
  submitDecryptedTotals env marketId handlesList cleartexts proof st
    = Revert KMSSignaturesRejected.
Proof.
  intros Hex Hs Hsig.
  unfold submitDecryptedTotals, Resolvable.submitDecryptedTotals.
  rewrite marketExists_holds by assumption. simpl.
  rewrite Hs. simpl. now rewrite Hsig.
Qed.

Lemma setResolution_succeeds env marketId outcome (st : State T) :
  (marketId < marketCount st)%N ->
  MarketLib.state (_getMarket marketId st) = MarketState.Resolved ->
  (MarketLib.resolver (_getMarket marketId st) = msg_sender env
   \/ msg_sender env = owner st) ->
  outcome <> NotSet ->
  setResolution env marketId outcome st
    = Ok (set_market marketId
            (MarketLib.set_resolvedOutcome (uint8_of_Outcome outcome)
               (_getMarket marketId st)) st).
Proof.
  intros Hex Hs Hauth Ho. unfold setResolution.
  rewrite marketExists_holds by assumption. simpl.
  unfold onlyResolved. rewrite Hs. simpl.
  rewrite isAuthorizedResolver_holds by assumption. simpl.
  destruct outcome; [congruence | reflexivity ..].
Qed.

Lemma claimWinnings_succeeds env marketId payout (st : State T) :
  (marketId < marketCount st)%N ->
  MarketLib.state (_getMarket marketId st) = MarketState.Resolved ->
  MarketLib.claimed (_getPosition marketId (msg_sender env) st) = false ->
  PayoutCalculator.calculatePayout
    (MarketLib.set_claimed (_getPosition marketId (msg_sender env) st))
    (_getMarket marketId st)
    (MarketLib.resolvedOutcome (_getMarket marketId st)) = Ok payout ->
  payoutIsStoredStake (_getMarket marketId st)
    (MarketLib.resolvedOutcome (_getMarket marketId st))
  && negb (positionWritten marketId (msg_sender env) st) = false ->
  claimWinnings env marketId st
    = Ok (set_token
            (transferEncrypted (self st) (msg_sender env) payout (token st))
            (_markClaimed marketId (msg_sender env) st)).
Proof.
  intros Hex Hs Hcl Hpay Hallowed. unfold claimWinnings.
  rewrite marketExists_holds by assumption. simpl.
  unfold onlyResolved. rewrite Hs. simpl. rewrite Hcl. simpl.
  unfold _markClaimed at 1. rewrite getPosition_set_position_eq.
  change (_getMarket marketId
            (set_position marketId (msg_sender env)
               (MarketLib.set_claimed
                  (_getPosition marketId (msg_sender env) st)) st))
    with (_getMarket marketId st).
  rewrite Hpay. simpl. now rewrite Hallowed.
Qed.

(* the claim of a caller who never bet, on a zero pool and a Yes or No
   outcome: the payout is the null handle and the host refuses it *)
Lemma claimWinnings_null_stake env marketId (st : State T) :
  (marketId < marketCount st)%N ->
  MarketLib.state (_getMarket marketId st) = MarketState.Resolved ->
  MarketLib.totalsDecrypted (_getMarket marketId st) = true ->
  positions st !! (marketId, msg_sender env) = None ->
  MarketLib.resolvedOutcome (_getMarket marketId st) = uint8_of_Outcome Yes
  \/ MarketLib.resolvedOutcome (_getMarket marketId st)
       = uint8_of_Outcome No ->
  MarketLib.decryptedYesAmount (_getMarket marketId st) = 0
  \/ MarketLib.decryptedNoAmount (_getMarket marketId st) = 0 ->
  claimWinnings env marketId st = Revert SenderNotAllowed.
Proof.
  intros Hex Hs Hd Hnone Ho Hz. unfold claimWinnings.
  rewrite marketExists_holds by assumption. simpl.
  unfold onlyResolved. rewrite Hs. simpl.
  unfold _getPosition at 1, mapping_get. rewrite Hnone. simpl.
  unfold _markClaimed at 1. rewrite getPosition_set_position_eq.
  change (_getMarket marketId
            (set_position marketId (msg_sender env)
               (MarketLib.set_claimed
                  (_getPosition marketId (msg_sender env) st)) st))
    with (_getMarket marketId st).
  set (market := _getMarket marketId st) in *.
  assert (payoutIsStoredStake market (MarketLib.resolvedOutcome market)
          && negb (positionWritten marketId (msg_sender env) st) = true)
    as Hrefused.
  { unfold payoutIsStoredStake, positionWritten. rewrite Hnone.
    destruct Ho as [-> | ->]; destruct Hz as [-> | ->]; simpl;
      rewrite ?orb_true_r; reflexivity. }
  rewrite Hrefused.
  unfold PayoutCalculator.calculatePayout,
    PayoutCalculator._calculateWinningPayout.
  rewrite Hd.
  destruct Ho as [-> | ->]; destruct Hz as [-> | ->]; simpl;
    rewrite ?orb_true_r; reflexivity.
Qed.

Lemma claimWinnings_already_claimed env marketId (st : State T) :
  (marketId < marketCount st)%N ->
  MarketLib.state (_getMarket marketId st) = MarketState.Resolved ->
  MarketLib.claimed (_getPosition marketId (msg_sender env) st) = true ->
  claimWinnings env marketId st = Revert AlreadyClaimed.
Proof.
  intros Hex Hs Hcl. unfold claimWinnings.
  rewrite marketExists_holds by assumption. simpl.
  unfold onlyResolved. rewrite Hs. simpl. now rewrite Hcl.
Qed.

(* a claim that went through leaves the market Resolved and the flag set *)
Lemma claimWinnings_marks env marketId (st st1 : State T) :
  claimWinnings env marketId st = Ok st1 ->
  (marketId < marketCount st1)%N
  /\ MarketLib.state (_getMarket marketId st1) = MarketState.Resolved
  /\ MarketLib.claimed (_getPosition marketId (msg_sender env) st1) = true.
Proof.
  intros Hc. apply claimWinnings_Ok in Hc.
  destruct Hc as (Hex & Hs & _ & payout & _ & ->).
  repeat split; try assumption.
  change (MarketLib.claimed
            (_getPosition marketId (msg_sender env)
               (_markClaimed marketId (msg_sender env) st)) = true).
  unfold _markClaimed. now rewrite getPosition_set_position_eq.
Qed.

Lemma claimed_blocks_later_claims env marketId txs (st : State T) :
  (marketId < marketCount st)%N ->
  MarketLib.state (_getMarket marketId st) = MarketState.Resolved ->
  MarketLib.claimed (_getPosition marketId (msg_sender env) st) = true ->
  claimWinnings env marketId (run txs st) = Revert AlreadyClaimed
  /\ successfulClaims marketId (msg_sender env) txs st = O.
Proof.
  intros Hex Hs Hcl. split.
  - destruct (run_invariants txs st marketId Hex) as (Hex' & _ & Hres & Hcl').
    apply claimWinnings_already_claimed; auto.
  - revert st Hex Hs Hcl.
    induction txs as [| [env' c] txs IH]; intros st Hex Hs Hcl;
      [reflexivity |].
    simpl.
    destruct (run_invariants [(env', c)] st marketId Hex)
      as (Hex' & _ & Hres & Hcl').
    simpl in Hex', Hres, Hcl'.
    rewrite (IH _ Hex' (Hres Hs) (Hcl' _ Hcl)).
    destruct (isClaimBy marketId (msg_sender env) (env', c)) eqn:Hclaim;
      [| reflexivity].
    unfold isClaimBy in Hclaim. simpl in Hclaim.
    destruct c; try discriminate.
    apply andb_true_iff in Hclaim. destruct Hclaim as [Hm Hu].
    apply N.eqb_eq in Hm, Hu. subst marketId0.
    unfold succeeds. simpl.
    rewrite claimWinnings_already_claimed; auto. now rewrite Hu.
Qed.
(* claims only ever happen on Resolved markets *)
Lemma call_claimedOnlyWhenResolved env c (st st' : State T) :
  call env c st = Ok st' ->
  claimedOnlyWhenResolved st -> claimedOnlyWhenResolved st'.
Proof.
  intros Hcall Hinv marketId user Hcl.
  pose proof (call_marketCount _ _ _ _ Hcall) as Hcount.
  assert (MarketLib.claimed (_getPosition marketId user st) = true
          \/ (c = ClaimWinnings marketId /\ msg_sender env = user
              /\ (marketId < marketCount st)%N
              /\ MarketLib.state (_getMarket marketId st)
                 = MarketState.Resolved)) as [Hold | Hnew].
  { destruct c as [q bd rd r img cat | m a o p | m | m | m hs ct p | m o | m];
      simpl in Hcall.
    - apply bind_Ok in Hcall. destruct Hcall as [[st1 mid] [Hc Hret]].
      inversion Hret; subst st'. simpl in *.
      apply createMarket_Ok in Hc. destruct Hc as [-> ->]. left. exact Hcl.
    - apply placeBet_Ok in Hcall.
      destruct Hcall as (_ & _ & _ & amount & outcome & _ & _ & Hst).
      cbv zeta in Hst. subst st'. left.
      match type of Hcl with
      | MarketLib.claimed (_getPosition _ _ (set_market _ _ ?s)) = _ =>
          change (MarketLib.claimed (_getPosition marketId user s) = true)
            in Hcl
      end.
      rewrite claimed_set_position in Hcl.
      destruct (decide _) as [Heq | _]; [| exact Hcl].
      inversion Heq; subst. exact Hcl.
    - apply lockMarket_Ok in Hcall. destruct Hcall as (_ & _ & _ & ->).
      left. exact Hcl.
    - apply requestResolution_Ok in Hcall.
      destruct Hcall as (_ & _ & _ & _ & ->). left. exact Hcl.
    - apply submitDecryptedTotals_Ok in Hcall.
      destruct Hcall as (_ & _ & _ & y & n & _ & ->). left. exact Hcl.
    - apply setResolution_Ok in Hcall.
      destruct Hcall as (_ & _ & _ & _ & ->). left. exact Hcl.
    - apply claimWinnings_Ok in Hcall.
      destruct Hcall as (Hex & Hs & _ & payout & _ & ->).
      change (MarketLib.claimed
                (_getPosition marketId user
                   (_markClaimed m (msg_sender env) st)) = true) in Hcl.
      unfold _markClaimed in Hcl. rewrite claimed_set_position in Hcl.
      destruct (decide _) as [Heq | _]; [| left; exact Hcl].
      inversion Heq; subst. right. auto. }
  - destruct (Hinv _ _ Hold) as [Hex Hs]. split; [lia |].
    destruct (call_transition _ _ _ _ marketId Hcall Hex)
      as [Heq | [(_ & Hs0 & _) | [(_ & Hs0 & _)
        | (hs & ct & p & _ & Hs0 & _)]]];
      unfold MarketState.Open, MarketState.Locked, MarketState.Resolving,
        MarketState.Resolved in *; congruence.
  - destruct Hnew as (-> & _ & Hex & Hs). split; [lia |].
    apply claimWinnings_marks in Hcall. tauto.
Qed.

Lemma run_claimedOnlyWhenResolved txs (st : State T) :
  claimedOnlyWhenResolved st -> claimedOnlyWhenResolved (run txs st).
Proof.
  revert st. induction txs as [| [env c] txs IH]; intros st Hinv;
    [exact Hinv |].
  simpl. apply IH. unfold execute. simpl.
  destruct (call env c st) eqn:Hcall; [| exact Hinv].
  eapply call_claimedOnlyWhenResolved; eassumption.
Qed.

Lemma deployed_claimedOnlyWhenResolved self0 owner0 (tok : T) :
  claimedOnlyWhenResolved (deployed self0 owner0 tok).
Proof. intros marketId user Hcl. discriminate Hcl. Qed.

Lemma successfulClaims_le_1 marketId user txs (st : State T) :
  (successfulClaims marketId user txs st <= 1)%nat.
Proof.
  revert st. induction txs as [| [env c] txs IH]; intros st; simpl; [lia |].
  destruct (isClaimBy marketId user (env, c)) eqn:Hclaim; simpl;
    [| apply IH].
  destruct (succeeds (env, c) st) eqn:Hok; simpl; [| apply IH].
  unfold isClaimBy in Hclaim. simpl in Hclaim.
  destruct c; try discriminate.
  apply andb_true_iff in Hclaim. destruct Hclaim as [Hm Hu].
  apply N.eqb_eq in Hm, Hu. subst marketId0 user.
  unfold succeeds in Hok. unfold execute. simpl in *.
  destruct (claimWinnings env marketId st) as [st1 |] eqn:Hc;
    [| discriminate].
  destruct (claimWinnings_marks _ _ _ _ Hc) as (Hex & Hs & Hcl).
  destruct (claimed_blocks_later_claims env marketId txs st1 Hex Hs Hcl)
    as [_ ->].
  lia.
Qed.
End Guards.

(** ** The claims about the market contract *)

Section Claims.
Context {T : Type} `{!ConfidentialERC20 T} `{!FHEVMHost}.
Import MarketBase BlindBetMarket.

(** C1.  A bet that goes through credits the observed balance delta of the
    market contract across the token transfer,
    [balanceAfter - balanceBefore], to the bettor's position and to the
    pool totals, on the side the encrypted flag selects; the requested
    amount only enters as the argument handed to the token, whatever the
    token then moves. *)
Theorem placeBet_credits_balance_delta env marketId encryptedAmount
    encryptedOutcome inputProof (st st' : State T) :
  placeBet env marketId encryptedAmount encryptedOutcome inputProof st
    = Ok st' ->
  let sender := msg_sender env in
  let delta :=
    FHE.sub (balanceOf (token st') (self st))
      (balanceOf (token st) (self st)) in
  let position := _getPosition marketId sender st in
  let position' := _getPosition marketId sender st' in
  let market := _getMarket marketId st in
  let market' := _getMarket marketId st' in
  exists requested outcome,
    fromExternalEuint64 encryptedAmount inputProof = Some requested
    /\ fromExternalEbool encryptedOutcome inputProof = Some outcome
    /\ token st'
         = transferFromEncrypted (self st) sender (self st) requested
             (token st)
    /\ MarketLib.yesAmount position'
         = (if outcome then FHE.add (MarketLib.yesAmount position) delta
            else MarketLib.yesAmount position)
    /\ MarketLib.noAmount position'
         = (if outcome then MarketLib.noAmount position
            else FHE.add (MarketLib.noAmount position) delta)
    /\ MarketLib.totalYesAmount market'
         = (if outcome then FHE.add (MarketLib.totalYesAmount market) delta
            else MarketLib.totalYesAmount market)
    /\ MarketLib.totalNoAmount market'
         = (if outcome then MarketLib.totalNoAmount market
            else FHE.add (MarketLib.totalNoAmount market) delta).
Proof.
  intros Hcall. apply placeBet_Ok in Hcall.
  destruct Hcall as (_ & _ & _ & amount & outcome & Ha & Ho & Hst).
  cbv zeta in Hst. subst st'. cbv zeta.
  exists amount, outcome. split; [exact Ha |]. split; [exact Ho |].
  split; [reflexivity |].
  rewrite getMarket_set_market_eq.
  match goal with
  | |- context [_getPosition marketId (msg_sender env)
                  (set_market marketId ?m ?s)] =>
      change (_getPosition marketId (msg_sender env) (set_market marketId m s))
        with (_getPosition marketId (msg_sender env) s)
  end.
  rewrite getPosition_set_position_eq.
  repeat split.
Qed.

(** C2.  For a market that exists, a successful call either leaves its
    lifecycle state alone or moves it one step along
    Open, Locked, Resolving, Resolved: lockMarket from Open once the
    betting deadline is reached, requestResolution from Locked once the
    resolution time is reached, submitDecryptedTotals from Resolving with
    verified signatures; each of these transitions is taken when its guard
    holds.  Called in any other state, lockMarket and requestResolution
    revert with InvalidState and submitDecryptedTotals with
    "Market not resolving"; a reverted call leaves the state unchanged.
    Along any sequence of transactions the state never moves backwards. *)
Theorem market_lifecycle env c marketId (st : State T) :
  (marketId < marketCount st)%N ->
  let m := _getMarket marketId st in
  let s := MarketLib.state m in
  (forall st', call env c st = Ok st' -> transition env c marketId st st')
  /\ (s = MarketState.Open ->
      (MarketLib.bettingDeadline m <= block_timestamp env)%N ->
      exists st', call env (LockMarket marketId) st = Ok st'
        /\ MarketLib.state (_getMarket marketId st') = MarketState.Locked)
  /\ (s = MarketState.Locked ->
      (MarketLib.resolutionTime m <= block_timestamp env)%N ->
      MarketLib.resolver m = msg_sender env \/ msg_sender env = owner st ->
      exists st', call env (RequestResolution marketId) st = Ok st'
        /\ MarketLib.state (_getMarket marketId st') = MarketState.Resolving)
  /\ (s = MarketState.Resolving ->
      forall handlesList cleartexts proof totals,
      checkSignatures handlesList cleartexts proof = true ->
      abi_decode_uint64_pair cleartexts = Ok totals ->
      exists st',
        call env (SubmitDecryptedTotals marketId handlesList cleartexts proof)
          st = Ok st'
        /\ MarketLib.state (_getMarket marketId st') = MarketState.Resolved)
  /\ (s <> MarketState.Open ->
      call env (LockMarket marketId) st = Revert InvalidState)
  /\ (s <> MarketState.Locked ->
      call env (RequestResolution marketId) st = Revert InvalidState)
  /\ (s <> MarketState.Resolving ->
      forall handlesList cleartexts proof,
      call env (SubmitDecryptedTotals marketId handlesList cleartexts proof)
        st = Revert (RequireFailed "Market not resolving"))
  /\ (forall e, call env c st = Revert e -> execute (env, c) st = st)
  /\ (forall txs,
        (s <= MarketLib.state (_getMarket marketId (run txs st)))%N).
Proof.
  intros Hex m s. repeat split.
  - intros st' Hcall. now apply call_transition.
  - intros Hs Ht. eexists. split.
    + simpl. now apply lockMarket_succeeds.
    + now rewrite getMarket_set_market_eq.
  - intros Hs Ht Hauth. eexists. split.
    + simpl. now apply requestResolution_succeeds.
    + now rewrite getMarket_set_market_eq.
  - intros Hs hs ct p [y n] Hsig Hdec. eexists. split.
    + simpl. now apply (submitDecryptedTotals_succeeds _ _ _ _ _ y n).
    + now rewrite getMarket_set_market_eq.
  - intros Hs. simpl. now apply lockMarket_wrong_state.
  - intros Hs. simpl. now apply requestResolution_wrong_state.
  - intros Hs hs ct p. simpl. now apply submitDecryptedTotals_wrong_state.
  - intros e Hcall. unfold execute. simpl. now rewrite Hcall.
  - intros txs. now apply run_invariants.
Qed.

(** C6.  Along any sequence of transactions, from any storage, at most
    one claim of a given bettor on a given market succeeds.  After a
    successful claim, whatever transactions follow, a further claim of the
    same bettor on the same market reverts with AlreadyClaimed, so the
    storage and the token are as before it. *)
Theorem claimWinnings_at_most_once marketId user :
  (forall txs (st : State T),
     (successfulClaims marketId user txs st <= 1)%nat)
  /\ (forall env (st st1 : State T),
        msg_sender env = user ->
        claimWinnings env marketId st = Ok st1 ->
        forall txs env',
        msg_sender env' = user ->
        claimWinnings env' marketId (run txs st1) = Revert AlreadyClaimed
        /\ execute (env', ClaimWinnings marketId) (run txs st1)
           = run txs st1).
Proof.
  split; [intros txs st; apply successfulClaims_le_1 |].
  intros env st st1 Hu Hclaim txs env' Hu'.
  destruct (claimWinnings_marks _ _ _ _ Hclaim) as (Hex & Hs & Hcl).
  assert (MarketLib.claimed (_getPosition marketId (msg_sender env') st1)
          = true) as Hcl' by now rewrite Hu', <- Hu.
  destruct (claimed_blocks_later_claims env' marketId txs st1 Hex Hs Hcl')
    as [Hrev _].
  split; [exact Hrev |].
  unfold execute. simpl. now rewrite Hrev.
Qed.

(** C7.  On a market resolved Invalid a claim transfers the encrypted sum
    [yesAmount + noAmount] of the bettor's position: the payout does not
    read the pools, the decrypted totals or the fee, whatever they are. *)
Theorem invalid_outcome_refunds_position env marketId (st : State T) :
  (marketId < marketCount st)%N ->
  MarketLib.state (_getMarket marketId st) = MarketState.Resolved ->
  MarketLib.resolvedOutcome (_getMarket marketId st)
    = uint8_of_Outcome Invalid ->
  MarketLib.claimed (_getPosition marketId (msg_sender env) st) = false ->
  let position := _getPosition marketId (msg_sender env) st in
  let refund :=
    FHE.add (MarketLib.yesAmount position) (MarketLib.noAmount position) in
  claimWinnings env marketId st
    = Ok (set_token
            (transferEncrypted (self st) (msg_sender env) refund (token st))
            (_markClaimed marketId (msg_sender env) st))
  /\ (forall anyMarket,
        PayoutCalculator.calculatePayout position anyMarket
          (uint8_of_Outcome Invalid) = Ok refund)
  /\ (is_uint64 (MarketLib.yesAmount position + MarketLib.noAmount position) ->
      refund = MarketLib.yesAmount position + MarketLib.noAmount position).
Proof.
  intros Hex Hs Ho Hcl position refund. repeat split.
  - apply claimWinnings_succeeds; try assumption; now rewrite Ho.
  - intros Hr. now apply wrap64_small.
Qed.

(** C9.  While a market is Resolved and its outcome is still NotSet, a
    claim by any bettor who has not claimed yet succeeds, in whatever
    storage this happens (also after the claims of others or any other
    transaction made since the totals were submitted): it sets the
    claimed flag and transfers an encrypted zero.  Whatever follows, the
    setting of the outcome included, a later claim of the same bettor
    reverts with AlreadyClaimed.  Such a storage is what every verified
    totals submission leaves, in any storage the contract can reach: the
    market is then Resolved with outcome NotSet and nobody has claimed on
    it. *)
Theorem claim_before_outcome_pays_zero env marketId (st : State T) :
  ((marketId < marketCount st)%N ->
   MarketLib.state (_getMarket marketId st) = MarketState.Resolved ->
   MarketLib.resolvedOutcome (_getMarket marketId st)
     = uint8_of_Outcome NotSet ->
   MarketLib.claimed (_getPosition marketId (msg_sender env) st) = false ->
   exists st1,
     claimWinnings env marketId st = Ok st1
     /\ st1 = set_token
                (transferEncrypted (self st) (msg_sender env)
                   (FHE.asEuint64 0) (token st))
                (_markClaimed marketId (msg_sender env) st)
     /\ MarketLib.claimed (_getPosition marketId (msg_sender env) st1)
          = true
     /\ forall txs env',
          msg_sender env' = msg_sender env ->
          claimWinnings env' marketId (run txs st1)
            = Revert AlreadyClaimed)
  /\ (forall self0 owner0 (tok0 : T) past env0 handlesList cleartexts proof,
        submitDecryptedTotals env0 marketId handlesList cleartexts proof
          (run past (deployed self0 owner0 tok0)) = Ok st ->
        (marketId < marketCount st)%N
        /\ MarketLib.state (_getMarket marketId st) = MarketState.Resolved
        /\ MarketLib.resolvedOutcome (_getMarket marketId st)
             = uint8_of_Outcome NotSet
        /\ forall user,
             MarketLib.claimed (_getPosition marketId user st) = false).
Proof.
  split.
  - intros Hex Hs Ho Hcl.
    assert (claimWinnings env marketId st
            = Ok (set_token
                    (transferEncrypted (self st) (msg_sender env)
                       (FHE.asEuint64 0) (token st))
                    (_markClaimed marketId (msg_sender env) st))) as Hclaim.
    { apply claimWinnings_succeeds; try assumption; now rewrite Ho. }
    eexists. split; [exact Hclaim |]. split; [reflexivity |].
    destruct (claimWinnings_marks _ _ _ _ Hclaim) as (Hex1 & Hs1 & Hcl1).
    split; [exact Hcl1 |].
    intros txs env' Hsender.
    apply claimed_blocks_later_claims; try assumption. now rewrite Hsender.
  - intros self0 owner0 tok0 past env0 handlesList cleartexts proof Hsub.
    set (st0 := run past (deployed self0 owner0 tok0)) in *.
    assert (claimedOnlyWhenResolved st0) as Hinv
      by apply run_claimedOnlyWhenResolved, deployed_claimedOnlyWhenResolved.
    apply submitDecryptedTotals_Ok in Hsub.
    destruct Hsub as (Hex & Hs0 & _ & y & n & _ & Hst).
    assert (_getMarket marketId st
            = MarketLib.markResolved (_getMarket marketId st0)
                (uint8_of_Outcome NotSet) y n) as Hm.
    { subst st. now rewrite getMarket_set_market_eq. }
    split; [subst st; exact Hex |].
    split; [now rewrite Hm |]. split; [now rewrite Hm |].
    intros user.
    destruct (MarketLib.claimed (_getPosition marketId user st))
      eqn:Hc; [| reflexivity].
    assert (MarketLib.claimed (_getPosition marketId user st0) = true)
      as Hc0 by (subst st; exact Hc).
    destruct (Hinv _ _ Hc0) as [_ Habs].
    unfold MarketState.Resolving, MarketState.Resolved in *. congruence.
Qed.
End Claims.

(** ** The contract on the sample ledger *)

Section OnTheLedger.
#[local] Existing Instance Ledger.erc20.
#[local] Existing Instance Sample.host.
Import MarketBase BlindBetMarket.

Lemma placeBet_credits_balance_delta_witness :
  let env := Sample.at_time Sample.alice 2000%N in
  let st := Sample.state0 MarketState.Open 0%N in
  (* alice holds 400 and asks to stake 1000: the ledger moves nothing *)
  let st' := execute (env, PlaceBet 0%N 1000%N 1%N [Byte.x01]) st in
  fromExternalEuint64 1000%N [Byte.x01] = Some 1000
  /\ balanceOf (token st') Sample.market_addr
     = balanceOf (token st) Sample.market_addr
  /\ MarketLib.yesAmount (_getPosition 0%N Sample.alice st') = 0
  /\ MarketLib.totalYesAmount (_getMarket 0%N st') = 1500.
Proof.
  intros env st st'.
  assert (placeBet env 0%N 1000%N 1%N [Byte.x01] st = Ok st') as Hcall
    by (vm_compute; reflexivity).
  destruct (placeBet_credits_balance_delta env 0%N 1000%N 1%N [Byte.x01]
              st st' Hcall)
    as (requested & outcome & Hreq & Hout & _ & Hyes & _ & Htot & _).
  assert (outcome = true) as -> by (vm_compute in Hout; congruence).
  split; [reflexivity |]. split; [vm_compute; reflexivity |].
  split.
  - change (MarketLib.yesAmount (_getPosition 0%N (msg_sender env) st') = 0).
    rewrite Hyes. vm_compute. reflexivity.
  - rewrite Htot. vm_compute. reflexivity.
Defined.

Lemma market_lifecycle_witness :
  let env := Sample.at_time Sample.resolver 9000%N in
  let st := Sample.state0 MarketState.Locked 0%N in
  (exists st', call env (RequestResolution 0%N) st = Ok st'
     /\ MarketLib.state (_getMarket 0%N st') = MarketState.Resolving)
  /\ call env (LockMarket 0%N) st = Revert InvalidState
  /\ call env (SubmitDecryptedTotals 0%N [] [] []) st
     = Revert (RequireFailed "Market not resolving").
Proof.
  intros env st.
  destruct (market_lifecycle env (RequestResolution 0%N) 0%N st)
    as (_ & _ & Hrequest & _ & Hlock & _ & Hsubmit & _).
  - vm_compute. reflexivity.
  - split; [| split].
    + apply Hrequest.
      * reflexivity.
      * vm_compute. discriminate.
      * left. reflexivity.
    + apply Hlock. vm_compute. discriminate.
    + apply Hsubmit. vm_compute. discriminate.
Defined.

Lemma claimWinnings_at_most_once_witness :
  let env := Sample.at_time Sample.alice 9000%N in
  let st := Sample.resolved_state 1%N 1500 2000 1000 0 in
  let st1 := execute (env, ClaimWinnings 0%N) st in
  balanceOf (token st1) Sample.alice = 400 + 2333
  /\ claimWinnings env 0%N st1 = Revert AlreadyClaimed
  /\ execute (env, ClaimWinnings 0%N) st1 = st1
  /\ (successfulClaims 0%N Sample.alice
        [(env, ClaimWinnings 0%N); (env, ClaimWinnings 0%N)] st <= 1)%nat.
Proof.
  intros env st st1.
  assert (claimWinnings env 0%N st = Ok st1) as Hclaim
    by (vm_compute; reflexivity).
  destruct (claimWinnings_at_most_once (T := Ledger.t) 0%N Sample.alice)
    as [Hcount Hlater].
  destruct (Hlater env st st1 eq_refl Hclaim [] env eq_refl)
    as (Hrev & Hsame).
  split; [vm_compute; reflexivity |]. split; [exact Hrev |].
  split; [exact Hsame | apply Hcount].
Defined.

Lemma invalid_outcome_refunds_position_witness :
  let env := Sample.at_time Sample.alice 9000%N in
  let st := Sample.resolved_state 3%N 1500 2000 700 300 in
  exists st1,
    claimWinnings env 0%N st = Ok st1
    /\ balanceOf (token st1) Sample.alice = 400 + (700 + 300).
Proof.
  intros env st.
  destruct (invalid_outcome_refunds_position env 0%N st) as (Hclaim & _ & _).
  - vm_compute. reflexivity.
  - reflexivity.
  - reflexivity.
  - reflexivity.
  - eexists. split; [exact Hclaim |]. vm_compute. reflexivity.
Defined.

Lemma claim_before_outcome_pays_zero_witness :
  let submitter := Sample.at_time Sample.bob 9000%N in
  let other := Sample.at_time Sample.bob 9001%N in
  let env := Sample.at_time Sample.alice 9002%N in
  let resolver := Sample.at_time Sample.resolver 9003%N in
  (* the totals are submitted, then bob claims before alice does *)
  let st :=
    run
      (Sample.history
         ++ [ (submitter,
               SubmitDecryptedTotals 0%N [160%N; 161%N]
                 (abi_encode_uint64_pair 1500 2000) [Byte.x01]);
              (other, ClaimWinnings 0%N) ])
      (deployed Sample.market_addr Sample.deployer Sample.ledger1) in
  MarketLib.yesAmount (_getPosition 0%N Sample.alice st) = 1500
  /\ MarketLib.claimed (_getPosition 0%N Sample.bob st) = true
  /\ exists st1,
       claimWinnings env 0%N st = Ok st1
       /\ balanceOf (token st1) Sample.alice
          = balanceOf (token st) Sample.alice
       /\ MarketLib.resolvedOutcome
            (_getMarket 0%N (run [(resolver, SetResolution 0%N Yes)] st1))
          = uint8_of_Outcome Yes
       /\ claimWinnings env 0%N (run [(resolver, SetResolution 0%N Yes)] st1)
          = Revert AlreadyClaimed.
Proof.
  intros submitter other env resolver st.
  destruct (claim_before_outcome_pays_zero env 0%N st) as [Hclaims _].
  destruct Hclaims as (st1 & Hclaim & Hst1 & _ & Hlater).
  - vm_compute. reflexivity.
  - vm_compute. reflexivity.
  - vm_compute. reflexivity.
  - vm_compute. reflexivity.
  - split; [vm_compute; reflexivity |]. split; [vm_compute; reflexivity |].
    exists st1. split; [exact Hclaim |]. split; [| split].
    + rewrite Hst1. vm_compute. reflexivity.
    + rewrite Hst1. vm_compute. reflexivity.
    + apply Hlater. reflexivity.
Defined.

(** C4.  [submitDecryptedTotals] checks the signatures over the handles
    the caller supplies and never compares them with the handles of the
    market's own encrypted totals.  Market 0 is Resolving with encrypted
    totals 1500 and 2000 (handles 0xA0, 0xA1); a submission naming two
    other publicly decryptable ciphertexts (handles 0xB0, 0xB1, openings
    10^12 and 1), with the signatures the service issued for them, is
    accepted and its cleartexts become the market's decrypted totals. *)
Theorem submitDecryptedTotals_accepts_foreign_handles :
  let env := Sample.at_time Sample.bob 9000%N in
  let st := Sample.state0 MarketState.Resolving 0%N in
  let cleartexts := abi_encode_uint64_pair 1000000000000 1 in
  Sample.kms_store !! 160%N
    = Some (MarketLib.totalYesAmount (_getMarket 0%N st))
  /\ Sample.kms_store !! 161%N
     = Some (MarketLib.totalNoAmount (_getMarket 0%N st))
  /\ exists st',
       call env
         (SubmitDecryptedTotals 0%N [176%N; 177%N] cleartexts [Byte.x01]) st
         = Ok st'
       /\ MarketLib.state (_getMarket 0%N st') = MarketState.Resolved
       /\ MarketLib.totalsDecrypted (_getMarket 0%N st') = true
       /\ MarketLib.decryptedYesAmount (_getMarket 0%N st') = 1000000000000
       /\ MarketLib.decryptedNoAmount (_getMarket 0%N st') = 1
       /\ MarketLib.totalYesAmount (_getMarket 0%N st') = 1500
       /\ MarketLib.totalNoAmount (_getMarket 0%N st') = 2000.
Proof.
  intros env st cleartexts.
  split; [vm_compute; reflexivity |]. split; [vm_compute; reflexivity |].
  eexists. split.
  - simpl call.
    apply (submitDecryptedTotals_succeeds env 0%N [176%N; 177%N] cleartexts
             [Byte.x01] 1000000000000 1 st); vm_compute; reflexivity.
  - rewrite getMarket_set_market_eq. vm_compute. repeat split.
Qed.

(** C5.  [setResolution] does not look at the outcome already stored: on
    a Resolved market whose outcome is Yes, a call of the resolver with No
    succeeds and overwrites it. *)
Theorem setResolution_overwrites_outcome :
  let env := Sample.at_time Sample.resolver 9000%N in
  let st := Sample.resolved_state (uint8_of_Outcome Yes) 1500 2000 1000 0 in
  MarketLib.state (_getMarket 0%N st) = MarketState.Resolved
  /\ MarketLib.resolvedOutcome (_getMarket 0%N st) = uint8_of_Outcome Yes
  /\ exists st',
       call env (SetResolution 0%N No) st = Ok st'
       /\ MarketLib.resolvedOutcome (_getMarket 0%N st')
          = uint8_of_Outcome No.
Proof.
  intros env st. split; [reflexivity |]. split; [reflexivity |].
  eexists. split.
  - simpl call. apply setResolution_succeeds.
    + vm_compute. reflexivity.
    + reflexivity.
    + left. reflexivity.
    + discriminate.
  - now rewrite getMarket_set_market_eq.
Qed.
End OnTheLedger.

(** * Further properties of the libraries and the contracts *)

(** ** FHEMath *)

Lemma wrap64_overflow z :
  UINT64_MAX < z -> z <= 2 * UINT64_MAX -> wrap64 z = z - 2 ^ 64.
Proof.
  rewrite UINT64_MAX_eq. intros Hlo Hhi. unfold wrap64.
  change (2 ^ 64) with 18446744073709551616.
  replace z with ((z - 18446744073709551616) + 1 * 18446744073709551616)
    at 1 by ring.
  rewrite Z.mod_add by lia. apply Z.mod_small. lia.
Qed.

Lemma wrap64_underflow z :
  - 2 ^ 64 <= z -> z < 0 -> wrap64 z = z + 2 ^ 64.
Proof.
  intros Hlo Hhi. unfold wrap64.
  change (2 ^ 64) with 18446744073709551616 in *.
  replace z with ((z + 18446744073709551616) + (-1) * 18446744073709551616)
    at 1 by ring.
  rewrite Z.mod_add by lia. apply Z.mod_small. lia.
Qed.

(** X1.  [safeAdd] on 64-bit operands: the flag is raised exactly when the
    sum exceeds the 64-bit maximum; without overflow the result is the sum,
    with overflow it is the first operand. *)
Theorem safeAdd_guards_overflow a b :
  is_uint64 a -> is_uint64 b ->
  (snd (FHEMath.safeAdd a b) = true <-> UINT64_MAX < a + b)
  /\ (a + b <= UINT64_MAX -> FHEMath.safeAdd a b = (a + b, false))
  /\ (UINT64_MAX < a + b -> FHEMath.safeAdd a b = (a, true)).
Proof.
  intros Ha Hb. split; [now apply safeAdd_flags_overflow |].
  unfold is_uint64 in *.
  unfold FHEMath.safeAdd, FHE.lt, FHE.add, FHE.select. split.
  - intros Hfit. rewrite wrap64_small by lia.
    destruct (Z.ltb_spec (a + b) a) as [? | _]; [lia | reflexivity].
  - intros Hov. rewrite wrap64_overflow by lia.
    change (2 ^ 64) with 18446744073709551616.
    rewrite UINT64_MAX_eq in *.
    destruct (Z.ltb_spec (a + b - 18446744073709551616) a) as [_ | ?];
      [reflexivity | lia].
Qed.

Lemma safeAdd_guards_overflow_witness :
  FHEMath.safeAdd 18446744073709551615 1 = (18446744073709551615, true)
  /\ FHEMath.safeAdd 1000 500 = (1500, false).
Proof.
  split.
  - apply (safeAdd_guards_overflow 18446744073709551615 1);
      unfold is_uint64; rewrite UINT64_MAX_eq; lia.
  - apply (safeAdd_guards_overflow 1000 500);
      unfold is_uint64; rewrite UINT64_MAX_eq; lia.
Defined.

(** X2.  [safeSub] on 64-bit operands: the flag is raised exactly when the
    subtrahend exceeds the minuend; the result is then 0, and the
    difference otherwise. *)
Theorem safeSub_guards_underflow a b :
  is_uint64 a -> is_uint64 b ->
  (snd (FHEMath.safeSub a b) = true <-> a < b)
  /\ (b <= a -> FHEMath.safeSub a b = (a - b, false))
  /\ (a < b -> FHEMath.safeSub a b = (0, true)).
Proof.
  unfold is_uint64. intros Ha Hb.
  unfold FHEMath.safeSub, FHE.lt, FHE.sub, FHE.select, FHE.asEuint64.
  simpl. split; [apply Z.ltb_lt |]. split.
  - intros Hle. rewrite wrap64_small by lia.
    destruct (Z.ltb_spec a b) as [? | _]; [lia | reflexivity].
  - intros Hlt.
    destruct (Z.ltb_spec a b) as [_ | ?]; [reflexivity | lia].
Qed.

Lemma safeSub_guards_underflow_witness :
  FHEMath.safeSub 5 7 = (0, true) /\ FHEMath.safeSub 7 5 = (2, false).
Proof.
  split.
  - apply (safeSub_guards_underflow 5 7);
      unfold is_uint64; rewrite ?UINT64_MAX_eq; lia.
  - apply (safeSub_guards_underflow 7 5);
      unfold is_uint64; rewrite ?UINT64_MAX_eq; lia.
Defined.

(** X3.  [clamp] with ordered bounds returns a value between the bounds,
    and returns its argument unchanged exactly when [isInRange] accepts
    it; with crossed bounds ([maxVal < minVal]) it returns [maxVal]. *)
Theorem clamp_within_bounds value minVal maxVal :
  (minVal <= maxVal ->
   minVal <= FHEMath.clamp value minVal maxVal <= maxVal
   /\ (FHEMath.isInRange value minVal maxVal = true
       <-> FHEMath.clamp value minVal maxVal = value))
  /\ (maxVal < minVal -> FHEMath.clamp value minVal maxVal = maxVal).
Proof.
  unfold FHEMath.clamp, FHEMath.max, FHEMath.min, FHEMath.isInRange,
    FHE.select, FHE.gt, FHE.lt, FHE.ge, FHE.le, FHE.and.
  split.
  - intros Hord. rewrite andb_true_iff, !Z.leb_le.
    destruct (Z.ltb_spec minVal value);
      destruct (Z.ltb_spec value maxVal);
      destruct (Z.ltb_spec minVal maxVal); lia.
  - intros Hcross.
    destruct (Z.ltb_spec minVal value);
      destruct (Z.ltb_spec value maxVal);
      destruct (Z.ltb_spec minVal maxVal); lia.
Qed.

Lemma clamp_within_bounds_witness :
  10 <= FHEMath.clamp 3 10 20 <= 20 /\ FHEMath.clamp 15 20 10 = 10.
Proof.
  destruct (clamp_within_bounds 3 10 20) as [Hord _].
  destruct (clamp_within_bounds 15 20 10) as [_ Hcross].
  split.
  - apply Hord. lia.
  - apply Hcross. lia.
Defined.

(** X4.  A conditional subtraction undoes a conditional addition under the
    same encrypted condition, and conversely, for 64-bit operands: the
    wrap-around of one is cancelled by the other. *)
Theorem addIf_subIf_round_trip a b condition :
  is_uint64 a -> is_uint64 b ->
  FHEMath.subIf (FHEMath.addIf a b condition) b condition = a
  /\ FHEMath.addIf (FHEMath.subIf a b condition) b condition = a.
Proof.
  unfold is_uint64. intros Ha Hb.
  unfold FHEMath.subIf, FHEMath.addIf, FHE.select, FHE.add, FHE.sub.
  destruct condition; [| split; reflexivity].
  unfold wrap64. split.
  - rewrite Zminus_mod_idemp_l. replace (a + b - b) with a by ring.
    apply wrap64_small. lia.
  - rewrite Zplus_mod_idemp_l. replace (a - b + b) with a by ring.
    apply wrap64_small. lia.
Qed.

Lemma addIf_subIf_round_trip_witness :
  FHEMath.subIf (FHEMath.addIf 18446744073709551615 2 true) 2 true
  = 18446744073709551615.
Proof.
  apply (addIf_subIf_round_trip 18446744073709551615 2 true);
    unfold is_uint64; rewrite UINT64_MAX_eq; lia.
Defined.

(** X5.  [percentageOf] in basis points: while [value * percentage] fits
    64 bits it is [value * percentage / 10000] (truncated); for a
    percentage of at most 10000 it does not exceed the value, so
    [decreaseByPercentage] does not underflow and stays within
    [0, value]. *)
Theorem percentageOf_in_range value percentage :
  is_uint64 value ->
  0 <= percentage ->
  value * percentage <= UINT64_MAX ->
  FHEMath.percentageOf value percentage = value * percentage / 10000
  /\ (percentage <= 10000 ->
      FHEMath.percentageOf value percentage <= value
      /\ FHEMath.decreaseByPercentage value percentage
         = value - value * percentage / 10000
      /\ 0 <= FHEMath.decreaseByPercentage value percentage <= value).
Proof.
  unfold is_uint64. intros Hv Hp Hfit.
  assert (FHEMath.percentageOf value percentage
          = value * percentage / 10000) as Hpct.
  { unfold FHEMath.percentageOf, FHE.div, FHE.mul, FHE.asEuint64.
    rewrite wrap64_small by nia. reflexivity. }
  split; [exact Hpct |]. intros Hle.
  assert (0 <= value * percentage / 10000) by (apply Z.div_pos; nia).
  assert (value * percentage / 10000 <= value)
    by (apply Z.div_le_upper_bound; nia).
  unfold FHEMath.decreaseByPercentage. rewrite Hpct. unfold FHE.sub.
  rewrite wrap64_small by lia. lia.
Qed.

Lemma percentageOf_in_range_witness :
  FHEMath.percentageOf 3500 200 = 70
  /\ FHEMath.decreaseByPercentage 3500 200 = 3430.
Proof.
  destruct (percentageOf_in_range 3500 200) as [Hpct Hdec].
  - unfold is_uint64. rewrite UINT64_MAX_eq. lia.
  - lia.
  - rewrite UINT64_MAX_eq. lia.
  - split; [exact Hpct |].
    destruct Hdec as (_ & Hd & _); [lia | exact Hd].
Defined.

Lemma fold_left_andb_false l : fold_left FHE.and l false = false.
Proof. induction l as [| c l IH]; [reflexivity | exact IH]. Qed.

Lemma fold_left_orb_true l : fold_left FHE.or l true = true.
Proof. induction l as [| c l IH]; [reflexivity | exact IH]. Qed.

(** X6.  [andAll] is true exactly when every condition is (true on the
    empty array), [orAll] exactly when some condition is (false on the
    empty array), and the two are De Morgan duals. *)
Theorem andAll_orAll_fold conditions :
  FHEMath.andAll conditions = forallb (fun c => c) conditions
  /\ FHEMath.orAll conditions = existsb (fun c => c) conditions
  /\ negb (FHEMath.andAll conditions) = FHEMath.orAll (map negb conditions).
Proof.
  assert (forall l, FHEMath.andAll l = forallb (fun c => c) l) as Hand.
  { intros [| first rest]; [reflexivity |]. simpl.
    revert first. induction rest as [| c rest IH]; intros first; simpl.
    - now rewrite andb_true_r.
    - rewrite IH. unfold FHE.and. now rewrite andb_assoc. }
  assert (forall l, FHEMath.orAll l = existsb (fun c => c) l) as Hor.
  { intros [| first rest]; [reflexivity |]. simpl.
    revert first. induction rest as [| c rest IH]; intros first; simpl.
    - now rewrite orb_false_r.
    - rewrite IH. unfold FHE.or. now rewrite orb_assoc. }
  split; [apply Hand |]. split; [apply Hor |].
  rewrite Hand, Hor.
  induction conditions as [| c rest IH]; [reflexivity |]. simpl.
  rewrite negb_andb, IH. reflexivity.
Qed.

(** ** PayoutCalculator *)

(** X7.  [calculateMarketFee] refuses a market whose totals are not
    decrypted; otherwise, on 64-bit pools, it returns 2% of the combined
    pool rounded down (one unit of fee per 50 units staked) as long as
    [total * 200] fits 64 bits, and reverts with an arithmetic panic
    beyond that, although the fee itself would fit. *)
Theorem calculateMarketFee_two_percent market :
  is_uint64 (MarketLib.decryptedYesAmount market) ->
  is_uint64 (MarketLib.decryptedNoAmount market) ->
  let total :=
    MarketLib.decryptedYesAmount market + MarketLib.decryptedNoAmount market in
  (MarketLib.totalsDecrypted market = false ->
   PayoutCalculator.calculateMarketFee market
     = Revert (RequireFailed "Totals not decrypted"))
  /\ (MarketLib.totalsDecrypted market = true ->
      total * 200 <= UINT64_MAX ->
      exists fee,
        PayoutCalculator.calculateMarketFee market = Ok fee
        /\ fee = total / 50
        /\ 50 * fee <= total < 50 * (fee + 1))
  /\ (MarketLib.totalsDecrypted market = true ->
      UINT64_MAX < total * 200 ->
      PayoutCalculator.calculateMarketFee market = Revert (Panic 17)).
Proof.
  intros HY HN total. unfold is_uint64 in HY, HN.
  unfold PayoutCalculator.calculateMarketFee,
    PayoutCalculator.FEE_BASIS_POINTS,
    PayoutCalculator.BASIS_POINTS_DENOMINATOR.
  fold total. split; [| split].
  - intros ->. reflexivity.
  - intros -> Hfit. simpl. unfold checked_add64. fold total.
    destruct (Z.leb_spec total UINT64_MAX) as [_ | ?]; [| lia]. simpl.
    unfold checked_mul64.
    destruct (Z.leb_spec (total * 200) UINT64_MAX) as [_ | ?]; [| lia].
    simpl. eexists. split; [reflexivity |].
    assert (total * 200 / 10000 = total / 50) as ->.
    { replace 10000 with (200 * 50) by reflexivity.
      rewrite <- Z.div_div by lia. now rewrite Z.div_mul by lia. }
    split; [reflexivity |].
    pose proof (Z.mul_div_le total 50 ltac:(lia)).
    pose proof (Z.mul_succ_div_gt total 50 ltac:(lia)). lia.
  - intros -> Hov. simpl. unfold checked_add64. fold total.
    destruct (Z.leb_spec total UINT64_MAX) as [_ | ?]; [| reflexivity].
    simpl. unfold checked_mul64.
    destruct (Z.leb_spec (total * 200) UINT64_MAX) as [? | _];
      [lia | reflexivity].
Qed.

Lemma calculateMarketFee_two_percent_witness :
  PayoutCalculator.calculateMarketFee (Sample.resolved_market 1 1500 2000)
    = Ok 70
  /\ PayoutCalculator.calculateMarketFee
       (Sample.resolved_market 1 (2 ^ 63) (2 ^ 62)) = Revert (Panic 17).
Proof.
  split.
  - destruct (calculateMarketFee_two_percent
                (Sample.resolved_market 1 1500 2000)) as (_ & Hfee & _).
    + unfold is_uint64. rewrite UINT64_MAX_eq. simpl. lia.
    + unfold is_uint64. rewrite UINT64_MAX_eq. simpl. lia.
    + destruct Hfee as (fee & -> & -> & _).
      * reflexivity.
      * rewrite UINT64_MAX_eq. simpl. lia.
      * reflexivity.
  - destruct (calculateMarketFee_two_percent
                (Sample.resolved_market 1 (2 ^ 63) (2 ^ 62)))
      as (_ & _ & Hpanic).
    + unfold is_uint64. rewrite UINT64_MAX_eq. simpl. lia.
    + unfold is_uint64. rewrite UINT64_MAX_eq. simpl. lia.
    + apply Hpanic; [reflexivity |]. rewrite UINT64_MAX_eq. simpl. lia.
Defined.

(** X8.  When the decrypted totals are the openings of the encrypted
    running totals, the encrypted fee [calculateFee (getTotalPool market)]
    is the encryption of the plaintext fee [calculateMarketFee market],
    whenever the latter is computed without reverting. *)
Theorem calculateFee_matches_market_fee market fee :
  is_uint64 (MarketLib.decryptedYesAmount market) ->
  is_uint64 (MarketLib.decryptedNoAmount market) ->
  MarketLib.totalYesAmount market = MarketLib.decryptedYesAmount market ->
  MarketLib.totalNoAmount market = MarketLib.decryptedNoAmount market ->
  PayoutCalculator.calculateMarketFee market = Ok fee ->
  PayoutCalculator.calculateFee (PayoutCalculator.getTotalPool market) = fee.
Proof.
  unfold is_uint64. intros HY HN HeqY HeqN Hfee.
  unfold PayoutCalculator.calculateMarketFee in Hfee.
  apply bind_Ok in Hfee. destruct Hfee as [u [_ Hfee]].
  apply bind_Ok in Hfee. destruct Hfee as [total [Htotal Hfee]].
  apply bind_Ok in Hfee. destruct Hfee as [scaled [Hscaled Hfee]].
  unfold checked_add64 in Htotal.
  destruct (Z.leb_spec
              (MarketLib.decryptedYesAmount market
               + MarketLib.decryptedNoAmount market) UINT64_MAX)
    as [Hfit | ?]; [| discriminate].
  inversion Htotal; subst total. clear Htotal.
  unfold checked_mul64 in Hscaled.
  destruct (Z.leb_spec
              ((MarketLib.decryptedYesAmount market
                + MarketLib.decryptedNoAmount market)
               * PayoutCalculator.FEE_BASIS_POINTS) UINT64_MAX)
    as [Hfit' | ?]; [| discriminate].
  inversion Hscaled; subst scaled. inversion Hfee; subst fee.
  unfold PayoutCalculator.calculateFee, PayoutCalculator.getTotalPool,
    FHE.div, FHE.mul, FHE.add, FHE.asEuint64.
  rewrite HeqY, HeqN.
  unfold PayoutCalculator.FEE_BASIS_POINTS in *.
  rewrite (wrap64_small (_ + _)) by lia.
  rewrite wrap64_small by lia. reflexivity.
Qed.

Lemma calculateFee_matches_market_fee_witness :
  PayoutCalculator.calculateFee
    (PayoutCalculator.getTotalPool (Sample.resolved_market 1 1500 2000))
  = 70.
Proof.
  apply (calculateFee_matches_market_fee
           (Sample.resolved_market 1 1500 2000) 70).
  - unfold is_uint64. rewrite UINT64_MAX_eq. simpl. lia.
  - unfold is_uint64. rewrite UINT64_MAX_eq. simpl. lia.
  - reflexivity.
  - reflexivity.
  - reflexivity.
Defined.

Lemma winning_payout_of_nothing market isYesWinner payout :
  PayoutCalculator._calculateWinningPayout 0 market isYesWinner = Ok payout ->
  payout = 0.
Proof.
  unfold PayoutCalculator._calculateWinningPayout. intros Hpay.
  apply bind_Ok in Hpay. destruct Hpay as [u [_ Hpay]].
  match type of Hpay with
  | (if ?c then _ else _) = _ => destruct c
  end.
  - now inversion Hpay.
  - apply bind_Ok in Hpay. destruct Hpay as [total [_ Hpay]].
    apply bind_Ok in Hpay. destruct Hpay as [scaled [_ Hpay]].
    apply bind_Ok in Hpay. destruct Hpay as [prize [_ Hpay]].
    inversion Hpay. unfold FHE.add, FHE.div, FHE.mul, FHE.asEuint64.
    rewrite Z.mul_0_l. reflexivity.
Qed.

(** X9.  A position with nothing staked on the winning side is paid
    nothing.  When [hasWinningPosition] is false for the outcome,
    [calculatePayout] never returns anything but zero, and it does return
    zero on a market whose decrypted pools let the fee computation go
    through; on a Yes or No outcome without decrypted totals it reverts
    instead. *)
Theorem no_winning_position_pays_nothing position market outcome :
  is_uint64 (MarketLib.yesAmount position) ->
  is_uint64 (MarketLib.noAmount position) ->
  PayoutCalculator.hasWinningPosition position outcome = false ->
  (forall payout,
     PayoutCalculator.calculatePayout position market outcome = Ok payout ->
     payout = 0)
  /\ (MarketLib.totalsDecrypted market = true ->
      is_uint64 (MarketLib.decryptedYesAmount market) ->
      is_uint64 (MarketLib.decryptedNoAmount market) ->
      (MarketLib.decryptedYesAmount market
       + MarketLib.decryptedNoAmount market) * 200 <= UINT64_MAX ->
      PayoutCalculator.calculatePayout position market outcome = Ok 0)
  /\ (MarketLib.totalsDecrypted market = false ->
      outcome = 1%N \/ outcome = 2%N ->
      PayoutCalculator.calculatePayout position market outcome
        = Revert (RequireFailed "Totals not decrypted")).
Proof.
  intros HY HN Hnone. unfold is_uint64 in HY, HN.
  assert (Hstake :
    (outcome = 3%N -> MarketLib.yesAmount position = 0
                      /\ MarketLib.noAmount position = 0)
    /\ (outcome = 1%N -> MarketLib.yesAmount position = 0)
    /\ (outcome = 2%N -> MarketLib.noAmount position = 0)).
  { unfold PayoutCalculator.hasWinningPosition, FHE.gt, FHE.or,
      FHE.asEuint64 in Hnone.
    split; [| split]; intros ->; simpl in Hnone.
    - apply orb_false_iff in Hnone. destruct Hnone as [H1 H2].
      apply Z.ltb_ge in H1. apply Z.ltb_ge in H2. lia.
    - apply Z.ltb_ge in Hnone. lia.
    - apply Z.ltb_ge in Hnone. lia. }
  destruct Hstake as (H3 & H1 & H2).
  assert (Hpaid : forall isYesWinner,
    MarketLib.totalsDecrypted market = true ->
    is_uint64 (MarketLib.decryptedYesAmount market) ->
    is_uint64 (MarketLib.decryptedNoAmount market) ->
    (MarketLib.decryptedYesAmount market
     + MarketLib.decryptedNoAmount market) * 200 <= UINT64_MAX ->
    PayoutCalculator._calculateWinningPayout 0 market isYesWinner = Ok 0).
  { intros isYesWinner Hd HdY HdN Hfit.
    destruct (Z.eq_dec (winningPool market isYesWinner) 0) as [HW | HW].
    { apply winning_payout_zero_pool; auto. }
    destruct (Z.eq_dec (losingPool market isYesWinner) 0) as [HL | HL].
    { apply winning_payout_zero_pool; auto. }
    assert (is_uint64 (winningPool market isYesWinner)
            /\ is_uint64 (losingPool market isYesWinner)
            /\ winningPool market isYesWinner
                + losingPool market isYesWinner
                = MarketLib.decryptedYesAmount market
                  + MarketLib.decryptedNoAmount market) as (HWr & HLr & Hsum).
    { unfold winningPool, losingPool, is_uint64 in *.
      destruct isYesWinner; repeat split; lia. }
    assert (Hz : 0 * losingPool market isYesWinner
                 / winningPool market isYesWinner = 0).
    { rewrite Z.mul_0_l. now apply Z.div_0_l. }
    pose proof (winning_payout_in_range 0 market isYesWinner) as Hin.
    rewrite Hz in Hin. apply Hin; auto.
    - unfold is_uint64. rewrite UINT64_MAX_eq. lia.
    - rewrite Hsum. exact Hfit.
    - rewrite Z.mul_0_l, UINT64_MAX_eq. lia.
    - rewrite UINT64_MAX_eq. lia. }
  unfold PayoutCalculator.calculatePayout.
  destruct (N.eqb_spec outcome 3) as [E3 | _].
  { destruct (H3 E3) as [-> ->]. repeat split.
    - intros payout Hp. now inversion Hp.
    - subst outcome. intros _ [? | ?]; discriminate. }
  destruct (N.eqb_spec outcome 1) as [E1 | N1].
  { rewrite (H1 E1). repeat split.
    - intros payout. apply winning_payout_of_nothing.
    - apply Hpaid.
    - intros Hd _. unfold PayoutCalculator._calculateWinningPayout.
      now rewrite Hd. }
  destruct (N.eqb_spec outcome 2) as [E2 | N2].
  { rewrite (H2 E2). repeat split.
    - intros payout. apply winning_payout_of_nothing.
    - apply Hpaid.
    - intros Hd _. unfold PayoutCalculator._calculateWinningPayout.
      now rewrite Hd. }
  repeat split.
  - intros payout Hp. now inversion Hp.
  - intros _ [? | ?]; contradiction.
Qed.

Lemma no_winning_position_pays_nothing_witness :
  PayoutCalculator.calculatePayout (MarketLib.mkPosition 0 700 true false)
    (Sample.resolved_market 1 1500 2000) 1%N = Ok 0.
Proof.
  destruct (no_winning_position_pays_nothing
              (MarketLib.mkPosition 0 700 true false)
              (Sample.resolved_market 1 1500 2000) 1%N) as (_ & Hzero & _).
  - unfold is_uint64. rewrite UINT64_MAX_eq. simpl. lia.
  - unfold is_uint64. rewrite UINT64_MAX_eq. simpl. lia.
  - reflexivity.
  - apply Hzero.
    + reflexivity.
    + unfold is_uint64. rewrite UINT64_MAX_eq. simpl. lia.
    + unfold is_uint64. rewrite UINT64_MAX_eq. simpl. lia.
    + rewrite UINT64_MAX_eq. simpl. lia.
Defined.

(** X29.  An overflow of the encrypted product always costs the winner.
    On a market with decrypted, non-zero 64-bit pools whose fee
    computation is in range, whenever [stake * losingPool] exceeds 64 bits
    [_calculateWinningPayout] still returns, and what it returns is
    strictly less than [stake + stake * losingPool / winningPool]. *)
Theorem winning_payout_underpays_on_overflow stake market isYesWinner :
  MarketLib.totalsDecrypted market = true ->
  is_uint64 stake ->
  is_uint64 (winningPool market isYesWinner) ->
  is_uint64 (losingPool market isYesWinner) ->
  winningPool market isYesWinner <> 0 ->
  losingPool market isYesWinner <> 0 ->
  (winningPool market isYesWinner + losingPool market isYesWinner) * 200
    <= UINT64_MAX ->
  UINT64_MAX < stake * losingPool market isYesWinner ->
  exists payout,
    PayoutCalculator._calculateWinningPayout stake market isYesWinner
      = Ok payout
    /\ 0 <= payout
         < stake + stake * losingPool market isYesWinner
                     / winningPool market isYesWinner.
Proof.
  intros Hd Hs HW HL HW0 HL0 Hfee Hover.
  rewrite winning_payout_returns by assumption.
  eexists. split; [reflexivity |].
  set (W := winningPool market isYesWinner) in *.
  set (L := losingPool market isYesWinner) in *.
  unfold is_uint64 in *. rewrite UINT64_MAX_eq in *.
  set (x := stake * L) in *.
  assert (0 <= wrap64 x <= x - 18446744073709551616) as Hwrap.
  { unfold wrap64. change (2 ^ 64) with 18446744073709551616.
    pose proof (Z.mod_pos_bound x 18446744073709551616 ltac:(lia)).
    pose proof (Z.mod_eq x 18446744073709551616 ltac:(lia)) as Heq.
    assert (1 <= x / 18446744073709551616)
      by (apply Z.div_le_lower_bound; lia).
    nia. }
  assert (0 <= wrap64 x / W <= x / W - 1) as Hprofit.
  { split; [apply Z.div_pos; lia |].
    assert (wrap64 x / W <= (x + -1 * W) / W)
      by (apply Z.div_le_mono; lia).
    rewrite Z.div_add in * by lia. lia. }
  pose proof (wrap64_le (stake + wrap64 x / W) ltac:(lia)). lia.
Qed.

Lemma winning_payout_underpays_on_overflow_witness :
  exists payout,
    PayoutCalculator._calculateWinningPayout 10000000000
      (Sample.resolved_market 1 10000000000 20000000000) true = Ok payout
    /\ 0 <= payout < 30000000000.
Proof.
  destruct (winning_payout_underpays_on_overflow 10000000000
              (Sample.resolved_market 1 10000000000 20000000000) true)
    as (payout & Hpay & Hlt).
  - reflexivity.
  - unfold is_uint64. rewrite UINT64_MAX_eq. lia.
  - unfold is_uint64. rewrite UINT64_MAX_eq. simpl. lia.
  - unfold is_uint64. rewrite UINT64_MAX_eq. simpl. lia.
  - simpl. lia.
  - simpl. lia.
  - rewrite UINT64_MAX_eq. simpl. lia.
  - rewrite UINT64_MAX_eq. simpl. lia.
  - exists payout. split; [exact Hpay |]. exact Hlt.
Defined.

(** ** The bookkeeping of BlindBetMarket *)

Lemma be_to_Z_nonneg bs acc : 0 <= acc -> 0 <= be_to_Z acc bs.
Proof.
  revert acc. induction bs as [| b bs IH]; intros acc Hacc; simpl.
  - exact Hacc.
  - apply IH. pose proof (N2Z.is_nonneg (Byte.to_N b)). lia.
Qed.

Lemma abi_decode_uint64_pair_range data y n :
  abi_decode_uint64_pair data = Ok (y, n) -> is_uint64 y /\ is_uint64 n.
Proof.
  unfold abi_decode_uint64_pair, is_uint64.
  destruct (length data <? 64)%nat; [discriminate |].
  destruct (Z.leb_spec (be_to_Z 0 (take 32 data)) UINT64_MAX) as [Hy |];
    [| discriminate].
  destruct (Z.leb_spec (be_to_Z 0 (take 32 (drop 32 data))) UINT64_MAX)
    as [Hn |]; [| discriminate].
  simpl. intros Heq. inversion Heq; subst.
  pose proof (be_to_Z_nonneg (take 32 data) 0 ltac:(lia)).
  pose proof (be_to_Z_nonneg (take 32 (drop 32 data)) 0 ltac:(lia)).
  lia.
Qed.

Ltac split6 := refine (conj _ (conj _ (conj _ (conj _ (conj _ _))))).

Section Bookkeeping.
Context {T : Type} `{!ConfidentialERC20 T} `{!FHEVMHost}.
Import MarketBase BlindBetMarket.

(* what a successful call does to the market stored under an id: nothing,
   or one of the updates of the entry points *)
Lemma call_market env c (st st' : State T) marketId :
  call env c st = Ok st' ->
  let m := _getMarket marketId st in
  let m' := _getMarket marketId st' in
  m' = m
  \/ (exists q bd rd r img cat,
        c = CreateMarket q bd rd r img cat /\ marketId = marketCount st
        /\ m' = MarketLib.initializeMarket marketId q bd rd (msg_sender env)
                  r img cat (block_timestamp env))
  \/ ((marketId < marketCount st)%N
      /\ ((exists a o p amount outcome,
             c = PlaceBet marketId a o p
             /\ MarketLib.state m = MarketState.Open
             /\ m' = MarketLib.updateMarketTotals m amount outcome)
          \/ (c = LockMarket marketId /\ MarketLib.state m = MarketState.Open
              /\ m' = MarketLib.lockMarket m)
          \/ (c = RequestResolution marketId
              /\ MarketLib.state m = MarketState.Locked
              /\ m' = MarketLib.set_state MarketState.Resolving m)
          \/ (exists hs ct p y n,
                c = SubmitDecryptedTotals marketId hs ct p
                /\ MarketLib.state m = MarketState.Resolving
                /\ abi_decode_uint64_pair ct = Ok (y, n)
                /\ m' = MarketLib.markResolved m (uint8_of_Outcome NotSet)
                          y n)
          \/ (exists outcome,
                c = SetResolution marketId outcome /\ outcome <> NotSet
                /\ MarketLib.state m = MarketState.Resolved
                /\ (MarketLib.resolver m = msg_sender env
                    \/ msg_sender env = owner st)
                /\ m' = MarketLib.set_resolvedOutcome
                          (uint8_of_Outcome outcome) m))).
Proof.
  intros Hcall m m'. subst m m'.
  destruct c as [q bd rd r img cat | mid a o p | mid | mid | mid hs ct p
                 | mid o | mid]; simpl in Hcall.
  - apply bind_Ok in Hcall. destruct Hcall as [[st1 mid] [Hc Hret]].
    inversion Hret; subst st'. simpl.
    apply createMarket_Ok in Hc. destruct Hc as [-> ->].
    destruct (decide (marketCount st = marketId)) as [<- | Hne].
    + right; left. exists q, bd, rd, r, img, cat.
      rewrite getMarket_set_market_eq. auto.
    + left. now rewrite getMarket_set_market_ne.
  - apply placeBet_Ok in Hcall.
    destruct Hcall as (Hex & Hs & _ & amount & outcome & _ & _ & ->).
    cbv zeta. destruct (decide (mid = marketId)) as [-> | Hne].
    + right; right. split; [exact Hex |]. left.
      rewrite getMarket_set_market_eq.
      eexists a, o, p, _, outcome. repeat split. exact Hs.
    + left. now rewrite getMarket_set_market_ne.
  - apply lockMarket_Ok in Hcall. destruct Hcall as (Hex & Hs & _ & ->).
    destruct (decide (mid = marketId)) as [-> | Hne].
    + right; right. split; [exact Hex |]. right; left.
      rewrite getMarket_set_market_eq. auto.
    + left. now rewrite getMarket_set_market_ne.
  - apply requestResolution_Ok in Hcall.
    destruct Hcall as (Hex & Hs & _ & _ & ->).
    destruct (decide (mid = marketId)) as [-> | Hne].
    + right; right. split; [exact Hex |]. right; right; left.
      rewrite getMarket_set_market_eq. auto.
    + left. now rewrite getMarket_set_market_ne.
  - apply submitDecryptedTotals_Ok in Hcall.
    destruct Hcall as (Hex & Hs & _ & y & n & Hdec & ->).
    destruct (decide (mid = marketId)) as [-> | Hne].
    + right; right. split; [exact Hex |]. right; right; right; left.
      rewrite getMarket_set_market_eq. exists hs, ct, p, y, n. auto.
    + left. now rewrite getMarket_set_market_ne.
  - apply setResolution_Ok in Hcall.
    destruct Hcall as (Hex & Hs & Hauth & Ho & ->).
    destruct (decide (mid = marketId)) as [-> | Hne].
    + right; right. split; [exact Hex |]. right; right; right; right.
      rewrite getMarket_set_market_eq. exists o. auto.
    + left. now rewrite getMarket_set_market_ne.
  - apply claimWinnings_Ok in Hcall.
    destruct Hcall as (_ & _ & _ & payout & _ & ->). left. reflexivity.
Qed.

(* what a successful call does to the decryption mappings *)
Lemma call_decryption env c (st st' : State T) marketId :
  call env c st = Ok st' ->
  Resolvable.getDecryptedTotals marketId st'
    = Resolvable.getDecryptedTotals marketId st
  \/ (exists hs ct p y n,
        c = SubmitDecryptedTotals marketId hs ct p
        /\ MarketLib.state (_getMarket marketId st) = MarketState.Resolving
        /\ abi_decode_uint64_pair ct = Ok (y, n)
        /\ Resolvable.getDecryptedTotals marketId st' = (y, n, true)).
Proof.
  intros Hcall.
  destruct c as [q bd rd r img cat | mid a o p | mid | mid | mid hs ct p
                 | mid o | mid]; simpl in Hcall.
  - apply bind_Ok in Hcall. destruct Hcall as [[st1 mid] [Hc Hret]].
    inversion Hret; subst st'. simpl.
    apply createMarket_Ok in Hc. destruct Hc as [-> ->]. now left.
  - apply placeBet_Ok in Hcall.
    destruct Hcall as (_ & _ & _ & amount & outcome & _ & _ & ->). now left.
  - apply lockMarket_Ok in Hcall. destruct Hcall as (_ & _ & _ & ->).
    now left.
  - apply requestResolution_Ok in Hcall.
    destruct Hcall as (_ & _ & _ & _ & ->). now left.
  - apply submitDecryptedTotals_Ok in Hcall.
    destruct Hcall as (_ & Hs & _ & y & n & Hdec & ->).
    unfold Resolvable.getDecryptedTotals. simpl.
    destruct (decide (mid = marketId)) as [-> | Hne].
    + right. exists hs, ct, p, y, n.
      rewrite !mapping_get_insert_eq. auto.
    + left. now rewrite !mapping_get_insert_ne.
  - apply setResolution_Ok in Hcall.
    destruct Hcall as (_ & _ & _ & _ & ->). now left.
  - apply claimWinnings_Ok in Hcall.
    destruct Hcall as (_ & _ & _ & payout & _ & ->). now left.
Qed.

Lemma call_decryptionRecorded env c (st st' : State T) :
  call env c st = Ok st' -> decryptionRecorded st -> decryptionRecorded st'.
Proof.
  intros Hcall Hinv marketId. specialize (Hinv marketId). cbv zeta in *.
  destruct Hinv as (Htot & HuY & HuN & Hiff & Hout & Hempty).
  unfold MarketState.Resolved in *.
  destruct c as [q bd rd r img cat | mid a o p | mid | mid | mid hs ct p
                 | mid o | mid]; simpl in Hcall.
  - apply bind_Ok in Hcall. destruct Hcall as [[st1 mid] [Hc Hret]].
    inversion Hret; subst st'. clear Hret. simpl in *.
    apply createMarket_Ok in Hc. destruct Hc as [-> ->].
    change (Resolvable.getDecryptedTotals marketId
              (set_market (marketCount st)
                 (MarketLib.initializeMarket (marketCount st) q bd rd
                    (msg_sender env) r img cat (block_timestamp env))
                 (set_marketCount (marketCount st + 1)%N st)))
      with (Resolvable.getDecryptedTotals marketId st).
    destruct (decide (marketCount st = marketId)) as [<- | Hne].
    + rewrite getMarket_set_market_eq, Htot, Hempty by lia. simpl.
      unfold is_uint64. rewrite UINT64_MAX_eq.
      split6; try reflexivity; try lia. split; discriminate.
    + rewrite getMarket_set_market_ne by assumption.
      change (_getMarket marketId (set_marketCount (marketCount st + 1)%N st))
        with (_getMarket marketId st).
      split6; try assumption. intros Hle. apply Hempty. simpl in Hle. lia.
  - apply placeBet_Ok in Hcall.
    destruct Hcall as (Hex & Hs & _ & amount & outcome & _ & _ & ->).
    cbv zeta.
    match goal with
    | |- context [set_market mid ?m (set_position ?k ?u ?p (set_token ?t st))] =>
        change (Resolvable.getDecryptedTotals marketId
                  (set_market mid m (set_position k u p (set_token t st))))
          with (Resolvable.getDecryptedTotals marketId st);
        change (marketCount
                  (set_market mid m (set_position k u p (set_token t st))))
          with (marketCount st);
        destruct (decide (mid = marketId)) as [-> | Hne];
        [ rewrite getMarket_set_market_eq
        | rewrite getMarket_set_market_ne by assumption;
          change (_getMarket marketId (set_position k u p (set_token t st)))
            with (_getMarket marketId st) ]
    end.
    + simpl. split6; try assumption. intros Hle. lia.
    + split6; assumption.
  - apply lockMarket_Ok in Hcall. destruct Hcall as (Hex & Hs & _ & ->).
    change (Resolvable.getDecryptedTotals marketId
              (set_market mid (MarketLib.lockMarket (_getMarket mid st)) st))
      with (Resolvable.getDecryptedTotals marketId st).
    change (marketCount
              (set_market mid (MarketLib.lockMarket (_getMarket mid st)) st))
      with (marketCount st).
    destruct (decide (mid = marketId)) as [-> | Hne].
    + rewrite getMarket_set_market_eq. simpl.
      unfold MarketState.Open, MarketState.Locked in *.
      split6; try assumption.
      * split; [| discriminate]. intros Htd. apply Hiff in Htd. lia.
      * intros _. apply Hout. lia.
      * intros Hle. lia.
    + rewrite getMarket_set_market_ne by assumption. split6; assumption.
  - apply requestResolution_Ok in Hcall.
    destruct Hcall as (Hex & Hs & _ & _ & ->).
    change (Resolvable.getDecryptedTotals marketId
              (set_market mid
                 (MarketLib.set_state MarketState.Resolving
                    (_getMarket mid st)) st))
      with (Resolvable.getDecryptedTotals marketId st).
    change (marketCount
              (set_market mid
                 (MarketLib.set_state MarketState.Resolving
                    (_getMarket mid st)) st))
      with (marketCount st).
    destruct (decide (mid = marketId)) as [-> | Hne].
    + rewrite getMarket_set_market_eq. simpl.
      unfold MarketState.Locked, MarketState.Resolving in *.
      split6; try assumption.
      * split; [| discriminate]. intros Htd. apply Hiff in Htd. lia.
      * intros _. apply Hout. lia.
      * intros Hle. lia.
    + rewrite getMarket_set_market_ne by assumption. split6; assumption.
  - apply submitDecryptedTotals_Ok in Hcall.
    destruct Hcall as (Hex & Hs & _ & y & n & Hdec & ->).
    apply abi_decode_uint64_pair_range in Hdec. destruct Hdec as [Hy Hn].
    destruct (decide (mid = marketId)) as [-> | Hne].
    + rewrite getMarket_set_market_eq.
      unfold Resolvable.getDecryptedTotals. simpl.
      rewrite !mapping_get_insert_eq.
      split6; try assumption; try reflexivity.
      * split; reflexivity.
      * intros Hle. lia.
    + rewrite getMarket_set_market_ne by assumption.
      unfold Resolvable.getDecryptedTotals in *. simpl.
      rewrite !mapping_get_insert_ne by assumption.
      split6; assumption.
  - apply setResolution_Ok in Hcall.
    destruct Hcall as (Hex & Hs & _ & _ & ->).
    change (Resolvable.getDecryptedTotals marketId
              (set_market mid
                 (MarketLib.set_resolvedOutcome (uint8_of_Outcome o)
                    (_getMarket mid st)) st))
      with (Resolvable.getDecryptedTotals marketId st).
    change (marketCount
              (set_market mid
                 (MarketLib.set_resolvedOutcome (uint8_of_Outcome o)
                    (_getMarket mid st)) st))
      with (marketCount st).
    destruct (decide (mid = marketId)) as [-> | Hne].
    + rewrite getMarket_set_market_eq. simpl.
      split6; try assumption.
      * intros Hres. now contradiction Hres.
      * intros Hle. lia.
    + rewrite getMarket_set_market_ne by assumption. split6; assumption.
  - apply claimWinnings_Ok in Hcall.
    destruct Hcall as (_ & _ & _ & payout & _ & ->).
    split6; assumption.
Qed.

Lemma run_decryptionRecorded txs (st : State T) :
  decryptionRecorded st -> decryptionRecorded (run txs st).
Proof.
  revert st. induction txs as [| [env c] txs IH]; intros st Hinv.
  - exact Hinv.
  - simpl. apply IH. unfold execute. simpl.
    destruct (call env c st) as [st' |] eqn:Hcall; [| exact Hinv].
    eapply call_decryptionRecorded; eassumption.
Qed.

Lemma deployed_decryptionRecorded self0 owner0 (tok : T) :
  decryptionRecorded (deployed self0 owner0 tok).
Proof.
  intros marketId. cbv zeta.
  unfold Resolvable.getDecryptedTotals, _getMarket, deployed, mapping_get.
  simpl. rewrite !lookup_empty. simpl.
  unfold is_uint64. rewrite UINT64_MAX_eq.
  repeat split; try lia; try discriminate.
Qed.
End Bookkeeping.

Lemma winning_payout_decrypted market :
  MarketLib.totalsDecrypted market = true ->
  forall stake isYesWinner,
    (exists payout,
       PayoutCalculator._calculateWinningPayout stake market isYesWinner
         = Ok payout)
    \/ PayoutCalculator._calculateWinningPayout stake market isYesWinner
       = Revert (Panic 17).
Proof.
  intros Hd stake isYesWinner.
  unfold PayoutCalculator._calculateWinningPayout. rewrite Hd. simpl.
  match goal with
  | |- context [if ?c then _ else _] => destruct c
  end; [left; eauto |].
  unfold checked_add64.
  match goal with
  | |- context [if ?c then _ else _] => destruct c
  end; simpl; [| now right].
  unfold checked_mul64.
  match goal with
  | |- context [if ?c then _ else _] => destruct c
  end; simpl; [| now right].
  unfold checked_sub64.
  match goal with
  | |- context [if ?c then _ else _] => destruct c
  end; simpl; [left; eauto | now right].
Qed.

Section Finality.
Context {T : Type} `{!ConfidentialERC20 T} `{!FHEVMHost}.
Import MarketBase BlindBetMarket.

(** X10.  In every state the contract can reach from its deployment, and
    for every market id, [getDecryptedTotals] returns what the market
    itself records, both totals are 64-bit values, and the decryption is
    marked completed exactly when the market is Resolved; so a payout on a
    Resolved market never fails for want of decrypted totals. *)
Theorem decrypted_totals_recorded self0 owner0 (tok : T) txs marketId :
  let st := run txs (deployed self0 owner0 tok) in
  let market := _getMarket marketId st in
  Resolvable.getDecryptedTotals marketId st
    = (MarketLib.decryptedYesAmount market,
       MarketLib.decryptedNoAmount market,
       MarketLib.totalsDecrypted market)
  /\ is_uint64 (MarketLib.decryptedYesAmount market)
  /\ is_uint64 (MarketLib.decryptedNoAmount market)
  /\ (Resolvable.isDecryptionCompleted marketId st = true
      <-> MarketLib.state market = MarketState.Resolved)
  /\ (MarketLib.state market = MarketState.Resolved ->
      forall position outcome,
        PayoutCalculator.calculatePayout position market outcome
          <> Revert (RequireFailed "Totals not decrypted")).
Proof.
  intros st market.
  destruct (run_decryptionRecorded txs _
              (deployed_decryptionRecorded self0 owner0 tok) marketId)
    as (Htot & HuY & HuN & Hiff & _ & _).
  fold st in Htot, HuY, HuN, Hiff. fold market in Htot, HuY, HuN, Hiff.
  assert (Resolvable.isDecryptionCompleted marketId st
          = MarketLib.totalsDecrypted market) as Hcompleted.
  { change (Resolvable.isDecryptionCompleted marketId st)
      with (snd (Resolvable.getDecryptedTotals marketId st)).
    now rewrite Htot. }
  split; [exact Htot |]. split; [exact HuY |]. split; [exact HuN |].
  split; [now rewrite Hcompleted |].
  intros Hres position outcome. apply Hiff in Hres.
  unfold PayoutCalculator.calculatePayout.
  repeat match goal with
         | |- context [if ?c then _ else _] => destruct c
         end; try discriminate.
  - destruct (winning_payout_decrypted market Hres
                (MarketLib.yesAmount position) true) as [[p ->] | ->];
      discriminate.
  - destruct (winning_payout_decrypted market Hres
                (MarketLib.noAmount position) false) as [[p ->] | ->];
      discriminate.
Qed.
(* a Resolved market after one more successful call *)
Lemma call_resolved env c (st st' : State T) marketId :
  call env c st = Ok st' ->
  (marketId < marketCount st)%N ->
  MarketLib.state (_getMarket marketId st) = MarketState.Resolved ->
  let m := _getMarket marketId st in
  let m' := _getMarket marketId st' in
  Resolvable.getDecryptedTotals marketId st'
    = Resolvable.getDecryptedTotals marketId st
  /\ MarketLib.decryptedYesAmount m' = MarketLib.decryptedYesAmount m
  /\ MarketLib.decryptedNoAmount m' = MarketLib.decryptedNoAmount m
  /\ MarketLib.totalsDecrypted m' = MarketLib.totalsDecrypted m
  /\ MarketLib.state m' = MarketState.Resolved
  /\ (marketId < marketCount st')%N.
Proof.
  intros Hcall Hex Hres m m'.
  pose proof (call_marketCount _ _ _ _ Hcall) as Hcount.
  pose proof (call_market env c st st' marketId Hcall) as Hm.
  pose proof (call_decryption env c st st' marketId Hcall) as Hd.
  cbv zeta in Hm. fold m m' in Hm. fold m in Hres.
  unfold MarketState.Open, MarketState.Locked, MarketState.Resolving,
    MarketState.Resolved in *.
  assert (Resolvable.getDecryptedTotals marketId st'
          = Resolvable.getDecryptedTotals marketId st) as Htot.
  { destruct Hd as [Hd | (hs & ct & p & y & n & _ & Hs & _)];
      [exact Hd |]. fold m in Hs. rewrite Hres in Hs. discriminate. }
  assert (m' = m \/ exists o, m' = MarketLib.set_resolvedOutcome o m)
    as [-> | [o ->]].
  { destruct Hm as [Hm | [(q & bd & rd & r & img & cat & _ & Heq & _)
      | (_ & [(a & o & p & amount & outcome & _ & Hs & _)
      | [(_ & Hs & _) | [(_ & Hs & _)
      | [(hs & ct & p & y & n & _ & Hs & _)
      | (o & _ & _ & _ & _ & Hm)]]]])]];
      try (rewrite Hres in Hs; discriminate).
    - now left.
    - lia.
    - right. eauto. }
  - split6; auto; lia.
  - split6; auto; lia.
Qed.

(** X11.  The decrypted totals are final: once a market is Resolved, no
    sequence of later transactions changes the totals stored for it,
    neither in the decryption mappings nor in the market, and every
    further submission for it is refused. *)
Theorem decrypted_totals_final txs (st : State T) marketId :
  (marketId < marketCount st)%N ->
  MarketLib.state (_getMarket marketId st) = MarketState.Resolved ->
  let m := _getMarket marketId st in
  let m' := _getMarket marketId (run txs st) in
  Resolvable.getDecryptedTotals marketId (run txs st)
    = Resolvable.getDecryptedTotals marketId st
  /\ MarketLib.decryptedYesAmount m' = MarketLib.decryptedYesAmount m
  /\ MarketLib.decryptedNoAmount m' = MarketLib.decryptedNoAmount m
  /\ MarketLib.totalsDecrypted m' = MarketLib.totalsDecrypted m
  /\ (forall env handlesList cleartexts proof,
        call env
          (SubmitDecryptedTotals marketId handlesList cleartexts proof)
          (run txs st)
        = Revert (RequireFailed "Market not resolving")).
Proof.
  revert st. induction txs as [| [env c] txs IH]; intros st Hex Hres.
  - simpl. repeat split. intros env hs ct p.
    apply submitDecryptedTotals_wrong_state; [exact Hex |].
    rewrite Hres. discriminate.
  - simpl. unfold execute. simpl.
    destruct (call env c st) as [st' |] eqn:Hcall; [| now apply IH].
    destruct (call_resolved env c st st' marketId Hcall Hex Hres)
      as (Htot & HY & HN & Htd & Hres' & Hex').
    specialize (IH st' Hex' Hres'). cbv zeta in IH.
    destruct IH as (IHtot & IHY & IHN & IHtd & IHsub).
    cbv zeta. rewrite IHtot, IHY, IHN, IHtd. auto.
Qed.

(** X12.  The terms of a market are fixed at its creation: whatever
    transactions follow, its id, question, creation time, betting
    deadline, resolution time, creator, resolver, image and category stay
    what they were, and [getResolver] keeps its answer. *)
Theorem market_terms_immutable txs (st : State T) marketId :
  (marketId < marketCount st)%N ->
  sameTerms (_getMarket marketId st) (_getMarket marketId (run txs st))
  /\ getResolver marketId (run txs st)
     = Ok (MarketLib.resolver (_getMarket marketId st)).
Proof.
  revert st. induction txs as [| [env c] txs IH]; intros st Hex.
  - simpl. split; [unfold sameTerms; repeat split |].
    unfold getResolver. now rewrite marketExists_holds.
  - simpl. unfold execute. simpl.
    destruct (call env c st) as [st' |] eqn:Hcall; [| now apply IH].
    pose proof (call_marketCount _ _ _ _ Hcall) as Hcount.
    assert (sameTerms (_getMarket marketId st) (_getMarket marketId st'))
      as Hstep.
    { destruct (call_market env c st st' marketId Hcall)
        as [-> | [(q & bd & rd & r & img & cat & _ & Heq & _)
        | (_ & [(a & o & p & amount & outcome & _ & _ & ->)
        | [(_ & _ & ->) | [(_ & _ & ->)
        | [(hs & ct & p & y & n & _ & _ & _ & ->)
        | (o & _ & _ & _ & _ & ->)]]]])]];
        try (unfold sameTerms; repeat split; reflexivity).
      lia. }
    destruct (IH st' ltac:(lia)) as (Hterms & Hres).
    unfold sameTerms in *.
    destruct Hstep as (H1 & H2 & H3 & H4 & H5 & H6 & H7 & H8 & H9).
    destruct Hterms as (G1 & G2 & G3 & G4 & G5 & G6 & G7 & G8 & G9).
    split; [| now rewrite Hres, H7].
    repeat split; congruence.
Qed.

(** X13.  Only its resolver or the contract owner changes the outcome of
    a market.  From any state reached from the deployment, a successful
    call after which the stored outcome of some market id differs is a
    [setResolution] for that market with a proper outcome, sent by the
    resolver [getResolver] names or by the owner, on a Resolved market;
    the new outcome is the one sent. *)
Theorem outcome_set_only_by_resolver self0 owner0 (tok : T) txs env c
    marketId st' :
  let st := run txs (deployed self0 owner0 tok) in
  call env c st = Ok st' ->
  MarketLib.resolvedOutcome (_getMarket marketId st')
    <> MarketLib.resolvedOutcome (_getMarket marketId st) ->
  exists outcome,
    c = SetResolution marketId outcome
    /\ outcome <> NotSet
    /\ MarketLib.state (_getMarket marketId st) = MarketState.Resolved
    /\ (getResolver marketId st = Ok (msg_sender env)
        \/ msg_sender env = owner0)
    /\ MarketLib.resolvedOutcome (_getMarket marketId st')
       = uint8_of_Outcome outcome.
Proof.
  intros st Hcall Hchanged.
  destruct (run_decryptionRecorded txs _
              (deployed_decryptionRecorded self0 owner0 tok) marketId)
    as (_ & _ & _ & _ & Hout & Hempty).
  fold st in Hout, Hempty.
  assert (owner st = owner0) as Howner.
  { subst st. clear. induction txs as [| [env c] txs IH] using rev_ind.
    - reflexivity.
    - unfold run in *. rewrite fold_left_app. simpl.
      unfold execute at 1. simpl.
      match goal with
      | |- context [call env c ?s] =>
          destruct (call env c s) as [s' |] eqn:Hcall; [| exact IH]
      end.
      rewrite <- IH.
      destruct c as [q bd rd r img cat | mid a o p | mid | mid
                     | mid hs ct p | mid o | mid]; simpl in Hcall.
      + apply bind_Ok in Hcall. destruct Hcall as [[st1 mid] [Hc Hret]].
        inversion Hret; subst s'.
        apply createMarket_Ok in Hc. now destruct Hc as [-> ->].
      + apply placeBet_Ok in Hcall.
        now destruct Hcall as (_ & _ & _ & amount & outcome & _ & _ & ->).
      + apply lockMarket_Ok in Hcall. now destruct Hcall as (_ & _ & _ & ->).
      + apply requestResolution_Ok in Hcall.
        now destruct Hcall as (_ & _ & _ & _ & ->).
      + apply submitDecryptedTotals_Ok in Hcall.
        now destruct Hcall as (_ & _ & _ & y & n & _ & ->).
      + apply setResolution_Ok in Hcall.
        now destruct Hcall as (_ & _ & _ & _ & ->).
      + apply claimWinnings_Ok in Hcall.
        now destruct Hcall as (_ & _ & _ & payout & _ & ->). }
  unfold MarketState.Open, MarketState.Locked, MarketState.Resolving,
    MarketState.Resolved in *.
  destruct (call_market env c st st' marketId Hcall)
    as [Hm | [(q & bd & rd & r & img & cat & _ & Heq & Hm)
    | (Hex & [(a & o & p & amount & outcome & _ & _ & Hm)
    | [(_ & _ & Hm) | [(_ & _ & Hm)
    | [(hs & ct & p & y & n & _ & Hs & _ & Hm)
    | (o & Hc & Ho & Hs & Hauth & Hm)]]]])]];
    rewrite Hm in Hchanged.
  - now contradiction Hchanged.
  - rewrite Hempty in Hchanged by lia. now contradiction Hchanged.
  - now contradiction Hchanged.
  - now contradiction Hchanged.
  - now contradiction Hchanged.
  - rewrite Hout in Hchanged by (rewrite Hs; discriminate).
    now contradiction Hchanged.
  - exists o. rewrite Hm. repeat split; auto.
    destruct Hauth as [Hr | Hown]; [left | right; congruence].
    unfold getResolver. rewrite marketExists_holds by assumption.
    simpl. f_equal. exact Hr.
Qed.
(* what a successful call does to the position stored under a market id
   and a user *)
Lemma call_position env c (st st' : State T) marketId user :
  call env c st = Ok st' ->
  let pos := _getPosition marketId user st in
  let pos' := _getPosition marketId user st' in
  pos' = pos
  \/ (msg_sender env = user /\ (marketId < marketCount st)%N
      /\ ((exists a o p amount outcome,
             c = PlaceBet marketId a o p
             /\ MarketLib.state (_getMarket marketId st) = MarketState.Open
             /\ (block_timestamp env
                   < MarketLib.bettingDeadline (_getMarket marketId st))%N
             /\ pos' = MarketLib.updatePosition pos amount outcome user)
          \/ (c = ClaimWinnings marketId
              /\ MarketLib.state (_getMarket marketId st)
                 = MarketState.Resolved
              /\ MarketLib.claimed pos = false
              /\ pos' = MarketLib.set_claimed pos))).
Proof.
  intros Hcall pos pos'. subst pos pos'.
  destruct c as [q bd rd r img cat | mid a o p | mid | mid | mid hs ct p
                 | mid o | mid]; simpl in Hcall.
  - apply bind_Ok in Hcall. destruct Hcall as [[st1 mid] [Hc Hret]].
    inversion Hret; subst st'. simpl.
    apply createMarket_Ok in Hc. destruct Hc as [-> ->]. now left.
  - apply placeBet_Ok in Hcall.
    destruct Hcall as (Hex & Hs & Ht & amount & outcome & _ & _ & ->).
    cbv zeta.
    match goal with
    | |- context [set_market mid ?m ?s] =>
        change (_getPosition marketId user (set_market mid m s))
          with (_getPosition marketId user s)
    end.
    destruct (decide ((mid, msg_sender env) = (marketId, user)))
      as [Heq | Hne].
    + inversion Heq; subst mid user. right.
      rewrite getPosition_set_position_eq.
      split; [reflexivity |]. split; [exact Hex |]. left.
      eexists a, o, p, _, outcome. repeat split; auto.
    + left. now rewrite getPosition_set_position_ne.
  - apply lockMarket_Ok in Hcall. destruct Hcall as (_ & _ & _ & ->).
    now left.
  - apply requestResolution_Ok in Hcall.
    destruct Hcall as (_ & _ & _ & _ & ->). now left.
  - apply submitDecryptedTotals_Ok in Hcall.
    destruct Hcall as (_ & _ & _ & y & n & _ & ->). now left.
  - apply setResolution_Ok in Hcall.
    destruct Hcall as (_ & _ & _ & _ & ->). now left.
  - apply claimWinnings_Ok in Hcall.
    destruct Hcall as (Hex & Hs & Hcl & payout & _ & ->).
    match goal with
    | |- context [set_token ?t ?s] =>
        change (_getPosition marketId user (set_token t s))
          with (_getPosition marketId user s)
    end.
    unfold _markClaimed.
    destruct (decide ((mid, msg_sender env) = (marketId, user)))
      as [Heq | Hne].
    + inversion Heq; subst mid user. right.
      rewrite getPosition_set_position_eq. auto 10.
    + left. now rewrite getPosition_set_position_ne.
Qed.

(** X14.  A position is only ever changed by its own holder.  After a
    successful call, a position that differs from what it was belongs to
    the caller, in a market that exists, and the call was either a bet of
    theirs on that market, still Open and before its deadline (the claimed
    flag is untouched), or their claim on that market, Resolved and not
    yet claimed (the stakes are untouched and the flag is set). *)
Theorem position_changes_only_by_its_holder env c (st st' : State T)
    marketId user :
  call env c st = Ok st' ->
  _getPosition marketId user st' <> _getPosition marketId user st ->
  let pos := _getPosition marketId user st in
  let pos' := _getPosition marketId user st' in
  msg_sender env = user
  /\ (marketId < marketCount st)%N
  /\ ((exists a o p,
         c = PlaceBet marketId a o p
         /\ MarketLib.state (_getMarket marketId st) = MarketState.Open
         /\ (block_timestamp env
               < MarketLib.bettingDeadline (_getMarket marketId st))%N
         /\ MarketLib.claimed pos' = MarketLib.claimed pos)
      \/ (c = ClaimWinnings marketId
          /\ MarketLib.state (_getMarket marketId st) = MarketState.Resolved
          /\ MarketLib.claimed pos = false
          /\ MarketLib.claimed pos' = true
          /\ MarketLib.yesAmount pos' = MarketLib.yesAmount pos
          /\ MarketLib.noAmount pos' = MarketLib.noAmount pos
          /\ MarketLib.hasPosition pos' = MarketLib.hasPosition pos)).
Proof.
  intros Hcall Hchanged pos pos'.
  destruct (call_position env c st st' marketId user Hcall)
    as [Hsame | (Hsender & Hex & [(a & o & p & amount & outcome & Hc & Hs
                                    & Ht & Hpos)
                                 | (Hc & Hs & Hcl & Hpos)])].
  - now contradiction Hchanged.
  - split; [exact Hsender |]. split; [exact Hex |]. left.
    exists a, o, p. subst pos pos'. rewrite Hpos. auto.
  - split; [exact Hsender |]. split; [exact Hex |]. right.
    subst pos pos'. rewrite Hpos. auto 10.
Qed.

(* a market that left the Open state, after one more successful call *)
Lemma call_closed env c (st st' : State T) marketId user :
  call env c st = Ok st' ->
  (marketId < marketCount st)%N ->
  MarketLib.state (_getMarket marketId st) <> MarketState.Open ->
  getEncryptedPosition marketId user st'
    = getEncryptedPosition marketId user st
  /\ MarketLib.totalYesAmount (_getMarket marketId st')
     = MarketLib.totalYesAmount (_getMarket marketId st)
  /\ MarketLib.totalNoAmount (_getMarket marketId st')
     = MarketLib.totalNoAmount (_getMarket marketId st)
  /\ MarketLib.state (_getMarket marketId st') <> MarketState.Open
  /\ (marketId < marketCount st')%N.
Proof.
  intros Hcall Hex Hclosed.
  pose proof (call_marketCount _ _ _ _ Hcall) as Hcount.
  assert (marketId < marketCount st')%N as Hex' by lia.
  unfold MarketState.Open, MarketState.Locked, MarketState.Resolving,
    MarketState.Resolved in *.
  split; [| split; [| split; [| split; [| exact Hex']]]].
  - unfold getEncryptedPosition. rewrite !marketExists_holds by assumption.
    simpl.
    change (mapping_get MarketLib.emptyPosition (positions st')
              (marketId, user)) with (_getPosition marketId user st').
    change (mapping_get MarketLib.emptyPosition (positions st)
              (marketId, user)) with (_getPosition marketId user st).
    destruct (call_position env c st st' marketId user Hcall)
      as [-> | (_ & _ & [(a & o & p & amount & outcome & _ & Hs & _)
                        | (_ & _ & _ & ->)])].
    + reflexivity.
    + now contradiction Hclosed.
    + reflexivity.
  - destruct (call_market env c st st' marketId Hcall)
      as [-> | [(q & bd & rd & r & img & cat & _ & Heq & _)
      | (_ & [(a & o & p & amount & outcome & _ & Hs & _)
      | [(_ & Hs & _) | [(_ & _ & ->)
      | [(hs & ct & p & y & n & _ & _ & _ & ->)
      | (o & _ & _ & _ & _ & ->)]]]])]];
      try reflexivity; try (now contradiction Hclosed); lia.
  - destruct (call_market env c st st' marketId Hcall)
      as [-> | [(q & bd & rd & r & img & cat & _ & Heq & _)
      | (_ & [(a & o & p & amount & outcome & _ & Hs & _)
      | [(_ & Hs & _) | [(_ & _ & ->)
      | [(hs & ct & p & y & n & _ & _ & _ & ->)
      | (o & _ & _ & _ & _ & ->)]]]])]];
      try reflexivity; try (now contradiction Hclosed); lia.
  - destruct (call_market env c st st' marketId Hcall)
      as [-> | [(q & bd & rd & r & img & cat & _ & Heq & _)
      | (_ & [(a & o & p & amount & outcome & _ & Hs & _)
      | [(_ & Hs & _) | [(_ & _ & ->)
      | [(hs & ct & p & y & n & _ & _ & _ & ->)
      | (o & _ & _ & _ & _ & ->)]]]])]];
      try assumption; try (now contradiction Hclosed);
      try (simpl; discriminate); lia.
Qed.

(** X15.  Stakes are frozen once betting is closed: when a market has
    left the Open state, no later transaction changes what
    [getEncryptedPosition] returns for any user of it, nor the two
    encrypted pool totals of the market. *)
Theorem stakes_frozen_once_closed txs (st : State T) marketId user :
  (marketId < marketCount st)%N ->
  MarketLib.state (_getMarket marketId st) <> MarketState.Open ->
  getEncryptedPosition marketId user (run txs st)
    = getEncryptedPosition marketId user st
  /\ MarketLib.totalYesAmount (_getMarket marketId (run txs st))
     = MarketLib.totalYesAmount (_getMarket marketId st)
  /\ MarketLib.totalNoAmount (_getMarket marketId (run txs st))
     = MarketLib.totalNoAmount (_getMarket marketId st).
Proof.
  revert st. induction txs as [| [env c] txs IH]; intros st Hex Hclosed.
  - simpl. auto.
  - simpl. unfold execute. simpl.
    destruct (call env c st) as [st' |] eqn:Hcall; [| now apply IH].
    destruct (call_closed env c st st' marketId user Hcall Hex Hclosed)
      as (Hpos & HY & HN & Hclosed' & Hex').
    destruct (IH st' Hex' Hclosed') as (IHpos & IHY & IHN).
    rewrite IHpos, IHY, IHN. auto.
Qed.
End Finality.

Section LedgerRuns.
#[local] Existing Instance Ledger.erc20.
#[local] Existing Instance Sample.host.
Import MarketBase BlindBetMarket.

Lemma decrypted_totals_final_witness :
  let st := Sample.resolved_state 0%N 1500 2000 1000 0 in
  let txs :=
    [ (Sample.at_time Sample.bob 9000%N,
       SubmitDecryptedTotals 0%N [176%N; 177%N]
         (abi_encode_uint64_pair 1000000000000 1) [Byte.x01]);
      (Sample.at_time Sample.resolver 9001%N, SetResolution 0%N Yes) ] in
  MarketLib.decryptedYesAmount (_getMarket 0%N (run txs st)) = 1500
  /\ MarketLib.decryptedNoAmount (_getMarket 0%N (run txs st)) = 2000
  /\ MarketLib.resolvedOutcome (_getMarket 0%N (run txs st))
     = uint8_of_Outcome Yes.
Proof.
  intros st txs.
  destruct (decrypted_totals_final txs st 0%N) as (_ & HY & HN & _).
  - vm_compute. reflexivity.
  - vm_compute. reflexivity.
  - rewrite HY, HN. vm_compute. repeat split.
Defined.

Lemma market_terms_immutable_witness :
  let st := Sample.state0 MarketState.Open 0%N in
  let txs :=
    [ (Sample.at_time Sample.alice 2000%N,
       PlaceBet 0%N 300%N 1%N [Byte.x01]);
      (Sample.at_time Sample.bob 4600%N, LockMarket 0%N) ] in
  MarketLib.state (_getMarket 0%N (run txs st)) = MarketState.Locked
  /\ MarketLib.bettingDeadline (_getMarket 0%N (run txs st)) = 4600%N
  /\ getResolver 0%N (run txs st) = Ok Sample.resolver.
Proof.
  intros st txs.
  destruct (market_terms_immutable txs st 0%N) as (Hterms & Hresolver).
  - vm_compute. reflexivity.
  - destruct Hterms as (_ & _ & _ & Hdeadline & _).
    split; [vm_compute; reflexivity |].
    split; [rewrite Hdeadline; reflexivity | exact Hresolver].
Defined.

Lemma outcome_set_only_by_resolver_witness :
  let txs :=
    Sample.history
      ++ [ (Sample.at_time Sample.bob 9000%N,
            SubmitDecryptedTotals 0%N [160%N; 161%N]
              (abi_encode_uint64_pair 1500 2000) [Byte.x01]) ] in
  let st := run txs (deployed Sample.market_addr Sample.deployer
                       Sample.ledger1) in
  let env := Sample.at_time Sample.resolver 9002%N in
  exists outcome,
    SetResolution 0%N Yes = SetResolution 0%N outcome
    /\ outcome <> NotSet
    /\ MarketLib.state (_getMarket 0%N st) = MarketState.Resolved
    /\ (getResolver 0%N st = Ok (msg_sender env)
        \/ msg_sender env = Sample.deployer)
    /\ MarketLib.resolvedOutcome
         (_getMarket 0%N (execute (env, SetResolution 0%N Yes) st))
       = uint8_of_Outcome outcome.
Proof.
  intros txs st env.
  apply (outcome_set_only_by_resolver Sample.market_addr Sample.deployer
           Sample.ledger1 txs env (SetResolution 0%N Yes) 0%N
           (execute (env, SetResolution 0%N Yes) st)).
  - vm_compute. reflexivity.
  - vm_compute. discriminate.
Defined.

Lemma position_changes_only_by_its_holder_witness :
  let st := Sample.state0 MarketState.Open 0%N in
  let env := Sample.at_time Sample.alice 2000%N in
  let c := PlaceBet 0%N 300%N 1%N [Byte.x01] in
  MarketLib.yesAmount (_getPosition 0%N Sample.alice (execute (env, c) st))
    = 300
  /\ msg_sender env = Sample.alice
  /\ (0 < marketCount st)%N.
Proof.
  intros st env c.
  destruct (position_changes_only_by_its_holder env c st
              (execute (env, c) st) 0%N Sample.alice)
    as (Hsender & Hex & _).
  - vm_compute. reflexivity.
  - vm_compute. discriminate.
  - split; [vm_compute; reflexivity |]. split; assumption.
Defined.

Lemma stakes_frozen_once_closed_witness :
  let st := Sample.resolved_state 1%N 1500 2000 1000 0 in
  let txs :=
    [ (Sample.at_time Sample.alice 9000%N,
       PlaceBet 0%N 300%N 1%N [Byte.x01]);
      (Sample.at_time Sample.alice 9001%N, ClaimWinnings 0%N) ] in
  getEncryptedPosition 0%N Sample.alice (run txs st) = Ok (1000, 0, true)
  /\ MarketLib.claimed (_getPosition 0%N Sample.alice (run txs st)) = true.
Proof.
  intros st txs.
  destruct (stakes_frozen_once_closed txs st 0%N Sample.alice)
    as (Hpos & _).
  - vm_compute. reflexivity.
  - vm_compute. discriminate.
  - rewrite Hpos. split; vm_compute; reflexivity.
Defined.
End LedgerRuns.

(** ** MarketValidator *)

Lemma validateMarketCreation_bounds question bettingDuration
    resolutionDelay resolver :
  MarketValidator.validateMarketCreation question bettingDuration
    resolutionDelay resolver = Returns tt
  <-> (10 <= N.of_nat (String.length question) <= 500)%N
      /\ (3600 <= bettingDuration <= 31536000)%N
      /\ (3600 <= resolutionDelay <= 2592000)%N
      /\ resolver <> 0%N.
Proof.
  unfold MarketValidator.validateMarketCreation,
    MarketValidator.validateQuestion,
    MarketValidator.validateBettingDuration,
    MarketValidator.validateResolutionDelay,
    MarketValidator.MIN_QUESTION_LENGTH, MarketValidator.MAX_QUESTION_LENGTH,
    MarketValidator.MIN_BETTING_DURATION,
    MarketValidator.MAX_BETTING_DURATION,
    MarketValidator.MIN_RESOLUTION_DELAY,
    MarketValidator.MAX_RESOLUTION_DELAY, revert_when.
  destruct (N.eqb_spec (N.of_nat (String.length question)) 0); simpl;
    [intuition (try discriminate; try lia) |].
  destruct (N.ltb_spec (N.of_nat (String.length question)) 10); simpl;
    [intuition (try discriminate; try lia) |].
  destruct (N.ltb_spec 500 (N.of_nat (String.length question))); simpl;
    [intuition (try discriminate; try lia) |].
  destruct (N.ltb_spec bettingDuration 3600); simpl;
    [intuition (try discriminate; try lia) |].
  destruct (N.ltb_spec (365 * 86400) bettingDuration); simpl;
    [intuition (try discriminate; try lia) |].
  destruct (N.ltb_spec resolutionDelay 3600); simpl;
    [intuition (try discriminate; try lia) |].
  destruct (N.ltb_spec (30 * 86400) resolutionDelay); simpl;
    [intuition (try discriminate; try lia) |].
  destruct (N.eqb_spec resolver 0); simpl;
    intuition (try discriminate; try lia).
Qed.

(** X16.  [validateMarketCreation] accepts exactly a question of 10 to 500
    bytes, a betting duration of one hour to 365 days, a resolution delay
    of one hour to 30 days and a resolver other than the zero address.
    The question is checked first: EmptyQuestion is reported for the empty
    string only, and a question of 1 to 9 bytes is reported as
    QuestionTooLong, like one of more than 500. *)
Theorem validateMarketCreation_accepts question bettingDuration
    resolutionDelay resolver :
  let length := N.of_nat (String.length question) in
  (MarketValidator.validateMarketCreation question bettingDuration
     resolutionDelay resolver = Returns tt
   <-> (10 <= length <= 500)%N
       /\ (3600 <= bettingDuration <= 31536000)%N
       /\ (3600 <= resolutionDelay <= 2592000)%N
       /\ resolver <> 0%N)
  /\ (MarketValidator.validateMarketCreation question bettingDuration
        resolutionDelay resolver = Reverts MarketValidator.EmptyQuestion
      <-> length = 0%N)
  /\ (MarketValidator.validateMarketCreation question bettingDuration
        resolutionDelay resolver = Reverts MarketValidator.QuestionTooLong
      <-> (0 < length < 10)%N \/ (500 < length)%N).
Proof.
  intros length.
  unfold MarketValidator.validateMarketCreation,
    MarketValidator.validateQuestion,
    MarketValidator.validateBettingDuration,
    MarketValidator.validateResolutionDelay,
    MarketValidator.MIN_QUESTION_LENGTH, MarketValidator.MAX_QUESTION_LENGTH,
    MarketValidator.MIN_BETTING_DURATION,
    MarketValidator.MAX_BETTING_DURATION,
    MarketValidator.MIN_RESOLUTION_DELAY,
    MarketValidator.MAX_RESOLUTION_DELAY, revert_when.
  fold length.
  destruct (N.eqb_spec length 0) as [H0 | H0]; simpl;
    [intuition (try discriminate; try lia) |].
  destruct (N.ltb_spec length 10) as [H10 | H10]; simpl;
    [intuition (try discriminate; try lia) |].
  destruct (N.ltb_spec 500 length) as [H500 | H500]; simpl;
    [intuition (try discriminate; try lia) |].
  destruct (N.ltb_spec bettingDuration 3600); simpl;
    [intuition (try discriminate; try lia) |].
  destruct (N.ltb_spec (365 * 86400) bettingDuration); simpl;
    [intuition (try discriminate; try lia) |].
  destruct (N.ltb_spec resolutionDelay 3600); simpl;
    [intuition (try discriminate; try lia) |].
  destruct (N.ltb_spec (30 * 86400) resolutionDelay); simpl;
    [intuition (try discriminate; try lia) |].
  destruct (N.eqb_spec resolver 0); simpl;
    intuition (try discriminate; try lia).
Qed.

(** X17.  The encrypted bet-amount check computes the same verdict as the
    plaintext one: [validateEncryptedBetAmount] is true exactly when
    [validateBetAmount] returns, which is for amounts from 1000 to 10^12;
    the plaintext check reports 0 as InvalidAmount, 1 to 999 as
    AmountTooSmall and anything above 10^12 as AmountTooLarge. *)
Theorem validateEncryptedBetAmount_agrees amount :
  (MarketValidator.validateEncryptedBetAmount amount = true
   <-> MarketValidator.validateBetAmount amount = Returns tt)
  /\ (MarketValidator.validateBetAmount amount = Returns tt
      <-> 1000 <= amount <= 1000000000000)
  /\ (MarketValidator.validateBetAmount amount
        = Reverts MarketValidator.InvalidAmount <-> amount = 0)
  /\ (0 < amount < 1000 ->
      MarketValidator.validateBetAmount amount
        = Reverts MarketValidator.AmountTooSmall)
  /\ (1000000000000 < amount ->
      MarketValidator.validateBetAmount amount
        = Reverts MarketValidator.AmountTooLarge).
Proof.
  unfold MarketValidator.validateEncryptedBetAmount,
    MarketValidator.validateBetAmount, MarketValidator.MIN_BET_AMOUNT,
    MarketValidator.MAX_BET_AMOUNT, FHE.and, FHE.gt, FHE.ge, FHE.le,
    FHE.asEuint64.
  destruct (Z.eqb_spec amount 0) as [-> | H0].
  { simpl. repeat split; try discriminate; try lia. }
  destruct (Z.ltb_spec amount 1000) as [Hlt | Hge].
  { destruct (Z.ltb_spec 0 amount), (Z.leb_spec 1000 amount),
      (Z.leb_spec amount 1000000000000); simpl;
      repeat split; try discriminate; try lia. }
  destruct (Z.ltb_spec 1000000000000 amount) as [Hbig | Hfit].
  { destruct (Z.ltb_spec 0 amount), (Z.leb_spec 1000 amount),
      (Z.leb_spec amount 1000000000000); simpl;
      repeat split; try discriminate; try lia. }
  destruct (Z.ltb_spec 0 amount), (Z.leb_spec 1000 amount),
    (Z.leb_spec amount 1000000000000); simpl;
    repeat split; try discriminate; try lia.
Qed.

(** X18.  The predicates of MarketValidator answer what its validators
    enforce: [canLockMarket] holds exactly when [validateMarketLocking]
    returns, [canResolveMarket] exactly when [validateMarketResolution]
    returns, and [isMarketActive] exactly when [validateBetPlacement] lets
    a minimal bet through.  A market is never active and lockable at once,
    an Open market is always one of the two, and [validateMarketLocking]
    answers a lock that comes too early with BettingDeadlinePassed. *)
Theorem market_predicates_agree env market :
  (MarketValidator.canLockMarket env market = true
   <-> MarketValidator.validateMarketLocking env market = Returns tt)
  /\ (MarketValidator.canResolveMarket env market = true
      <-> MarketValidator.validateMarketResolution env market = Returns tt)
  /\ (MarketValidator.isMarketActive env market = true
      <-> MarketValidator.validateBetPlacement env market
            MarketValidator.MIN_BET_AMOUNT = Returns tt)
  /\ MarketValidator.isMarketActive env market
     && MarketValidator.canLockMarket env market = false
  /\ (MarketLib.state market = MarketState.Open ->
      MarketValidator.canLockMarket env market
        = negb (MarketValidator.isMarketActive env market))
  /\ (MarketValidator.isMarketActive env market = true ->
      MarketValidator.validateMarketLocking env market
        = Reverts MarketValidator.BettingDeadlinePassed
      /\ (0 < MarketValidator.getTimeRemaining env
                (MarketLib.bettingDeadline market))%N).
Proof.
  unfold MarketValidator.canLockMarket, MarketValidator.canResolveMarket,
    MarketValidator.isMarketActive, MarketValidator.validateMarketLocking,
    MarketValidator.validateMarketResolution,
    MarketValidator.validateBetPlacement, MarketValidator.validateBetAmount,
    MarketValidator.getTimeRemaining, MarketValidator.MIN_BET_AMOUNT,
    MarketValidator.MAX_BET_AMOUNT.
  unfold MarketState.Open, MarketState.Locked.
  destruct (N.eqb_spec (MarketLib.state market) 0) as [Hopen | Hopen];
    destruct (N.eqb_spec (MarketLib.state market) 1) as [Hlocked | Hlocked];
    destruct (N.ltb_spec (block_timestamp env)
                (MarketLib.bettingDeadline market));
    destruct (N.leb_spec (MarketLib.bettingDeadline market)
                (block_timestamp env));
    destruct (N.ltb_spec (block_timestamp env)
                (MarketLib.resolutionTime market));
    destruct (N.leb_spec (MarketLib.resolutionTime market)
                (block_timestamp env));
    destruct (MarketLib.resolved market); simpl;
    repeat split; try discriminate; try congruence; try lia.
Qed.

Section ValidatorAndContract.
Context {T : Type} `{!ConfidentialERC20 T} `{!FHEVMHost}.
Import MarketBase BlindBetMarket.

(** X19.  The market contract enforces what the predicates of
    MarketValidator describe, and no more: [lockMarket] succeeds exactly
    on an existing market for which [canLockMarket] holds, and [placeBet]
    succeeds exactly on an existing market for which [isMarketActive]
    holds when both encrypted inputs pass their proof; the size of the
    bet plays no part, so amounts [validateBetAmount] rejects are
    accepted.  [requestResolution] by the resolver or the owner succeeds
    whenever [canResolveMarket] holds. *)
Theorem contract_guards_match_validator env marketId (st : State T) :
  let market := _getMarket marketId st in
  ((exists st', lockMarket env marketId st = Ok st')
   <-> (marketId < marketCount st)%N
       /\ MarketValidator.canLockMarket env market = true)
  /\ (forall encryptedAmount encryptedOutcome inputProof,
        (exists st',
           placeBet env marketId encryptedAmount encryptedOutcome inputProof
             st = Ok st')
        <-> (marketId < marketCount st)%N
            /\ MarketValidator.isMarketActive env market = true
            /\ fromExternalEuint64 encryptedAmount inputProof <> None
            /\ fromExternalEbool encryptedOutcome inputProof <> None)
  /\ ((marketId < marketCount st)%N ->
      MarketValidator.canResolveMarket env market = true ->
      MarketLib.resolver market = msg_sender env
      \/ msg_sender env = owner st ->
      exists st', requestResolution env marketId st = Ok st').
Proof.
  intros market.
  unfold MarketValidator.canLockMarket, MarketValidator.isMarketActive,
    MarketValidator.canResolveMarket.
  split; [| split].
  - split.
    + intros [st' Hcall]. apply lockMarket_Ok in Hcall.
      destruct Hcall as (Hex & Hs & Ht & _). fold market in Hs, Ht.
      split; [exact Hex |]. rewrite Hs. simpl. now apply N.leb_le.
    + intros (Hex & Hcan). apply andb_true_iff in Hcan.
      destruct Hcan as [Hs Ht]. apply N.eqb_eq in Hs. apply N.leb_le in Ht.
      eexists. now apply lockMarket_succeeds.
  - intros encryptedAmount encryptedOutcome inputProof. split.
    + intros [st' Hcall]. apply placeBet_Ok in Hcall.
      destruct Hcall as (Hex & Hs & Ht & amount & outcome & Ha & Ho & _).
      fold market in Hs, Ht. rewrite Hs, Ha, Ho. simpl.
      repeat split; try discriminate; try assumption.
      now apply N.ltb_lt.
    + intros (Hex & Hactive & Ha & Ho). apply andb_true_iff in Hactive.
      destruct Hactive as [Hs Ht]. apply N.eqb_eq in Hs.
      apply N.ltb_lt in Ht.
      unfold placeBet. rewrite marketExists_holds by assumption. simpl.
      unfold onlyMarketState, onlyBeforeDeadline. fold market.
      rewrite Hs. simpl.
      assert ((MarketLib.bettingDeadline market <=? block_timestamp env)%N
              = false) as -> by now apply N.leb_gt.
      simpl.
      destruct (fromExternalEuint64 encryptedAmount inputProof);
        [| now contradiction Ha].
      destruct (fromExternalEbool encryptedOutcome inputProof);
        [| now contradiction Ho].
      simpl. eauto.
  - intros Hex Hcan Hauth.
    apply andb_true_iff in Hcan. destruct Hcan as [Hcan _].
    apply andb_true_iff in Hcan. destruct Hcan as [Hs Ht].
    apply N.eqb_eq in Hs. apply N.leb_le in Ht.
    eexists. now apply requestResolution_succeeds.
Qed.
End ValidatorAndContract.

(** ** FeeManager *)

Lemma uint64_of_small n : (n <= 1000)%N -> FeeManager.uint64_of n = Z.of_N n.
Proof.
  intros Hn. unfold FeeManager.uint64_of. apply wrap64_small.
  rewrite UINT64_MAX_eq. lia.
Qed.

(* the two fee computations under a valid fee rate *)
Lemma calculateFee_valid amount feeBasisPoints :
  is_uint64 amount -> (feeBasisPoints <= 1000)%N ->
  FeeManager.calculateFee amount feeBasisPoints
    = Returns (wrap64 (amount * Z.of_N feeBasisPoints) / 10000)
  /\ FeeManager.calculateFeePlaintext amount feeBasisPoints
     = Returns (amount * Z.of_N feeBasisPoints / 10000).
Proof.
  unfold is_uint64. rewrite UINT64_MAX_eq. intros Ha Hb.
  unfold FeeManager.calculateFee, FeeManager.calculateFeePlaintext,
    FeeManager.MAX_FEE_BASIS_POINTS.
  destruct (N.eqb_spec feeBasisPoints 0) as [-> | Hnz].
  { simpl. rewrite Z.mul_0_r. split; reflexivity. }
  destruct (N.ltb_spec 1000 feeBasisPoints) as [? | _]; [lia |].
  unfold FHE.div, FHE.mul, FHE.asEuint64.
  rewrite uint64_of_small by assumption.
  change (FeeManager.uint64_of FeeManager.BASIS_POINTS_DIVISOR) with 10000.
  change (Z.of_N FeeManager.BASIS_POINTS_DIVISOR) with 10000.
  split; [reflexivity |]. f_equal. apply wrap64_small.
  rewrite UINT64_MAX_eq. split.
  - apply Z.div_pos; lia.
  - apply Z.div_le_upper_bound; nia.
Qed.

Lemma fee_within_tenth amount feeBasisPoints :
  is_uint64 amount -> (feeBasisPoints <= 1000)%N ->
  0 <= wrap64 (amount * Z.of_N feeBasisPoints) / 10000
    <= amount * Z.of_N feeBasisPoints / 10000
  /\ amount * Z.of_N feeBasisPoints / 10000 <= amount / 10
  /\ amount / 10 <= amount.
Proof.
  unfold is_uint64. intros Ha Hb.
  pose proof (wrap64_le (amount * Z.of_N feeBasisPoints) ltac:(nia)) as Hw.
  split; [| split].
  - split; [apply Z.div_pos; lia |]. apply Z.div_le_mono; lia.
  - replace (amount / 10) with (amount * 1000 / 10000).
    + apply Z.div_le_mono; nia.
    + replace 10000 with (10 * 1000) by reflexivity.
      apply Z.div_mul_cancel_r; lia.
  - apply Z.div_le_upper_bound; lia.
Qed.

(** X20.  Fee computation.  A rate above 1000 basis points is refused by
    both the encrypted and the plaintext computation.  Otherwise the
    plaintext fee of a 64-bit amount is [amount * rate / 10000], at most a
    tenth of the amount; the encrypted fee is computed from the product
    reduced to 64 bits, so it never exceeds the plaintext fee and equals
    it whenever [amount * rate] fits 64 bits. *)
Theorem calculateFee_bounds amount feeBasisPoints :
  is_uint64 amount ->
  ((1000 < feeBasisPoints)%N ->
   FeeManager.calculateFee amount feeBasisPoints
     = Reverts FeeManager.InvalidFeeBasisPoints
   /\ FeeManager.calculateFeePlaintext amount feeBasisPoints
      = Reverts FeeManager.InvalidFeeBasisPoints)
  /\ ((feeBasisPoints <= 1000)%N ->
      exists fee plain,
        FeeManager.calculateFee amount feeBasisPoints = Returns fee
        /\ FeeManager.calculateFeePlaintext amount feeBasisPoints
           = Returns plain
        /\ plain = amount * Z.of_N feeBasisPoints / 10000
        /\ 0 <= fee <= plain
        /\ plain <= amount / 10
        /\ (amount * Z.of_N feeBasisPoints <= UINT64_MAX -> fee = plain)).
Proof.
  intros Ha. split.
  - intros Hbig.
    unfold FeeManager.calculateFee, FeeManager.calculateFeePlaintext,
      FeeManager.MAX_FEE_BASIS_POINTS.
    destruct (N.eqb_spec feeBasisPoints 0) as [? | _]; [lia |].
    destruct (N.ltb_spec 1000 feeBasisPoints) as [_ | ?]; [| lia].
    split; reflexivity.
  - intros Hb.
    destruct (calculateFee_valid amount feeBasisPoints Ha Hb) as [Hfee Hplain].
    destruct (fee_within_tenth amount feeBasisPoints Ha Hb)
      as (Hle & Htenth & _).
    eexists _, _. split; [exact Hfee |]. split; [exact Hplain |].
    split; [reflexivity |]. split; [exact Hle |]. split; [exact Htenth |].
    intros Hfit. rewrite wrap64_small; [reflexivity |].
    unfold is_uint64 in Ha. split; [nia | exact Hfit].
Qed.

Lemma calculateFee_bounds_witness :
  FeeManager.calculateFee 3500 200 = Returns 70
  /\ FeeManager.calculateFeePlaintext 3500 200 = Returns 70.
Proof.
  destruct (calculateFee_bounds 3500 200%N) as (_ & Hsmall).
  { unfold is_uint64. rewrite UINT64_MAX_eq. lia. }
  destruct (Hsmall ltac:(lia))
    as (fee & plain & Hfee & Hplain & Hp & _ & _ & Heq).
  rewrite Hfee, Hplain, Heq, Hp.
  - split; reflexivity.
  - rewrite UINT64_MAX_eq. simpl. lia.
Defined.

Lemma sumZ_app l1 l2 : sumZ (l1 ++ l2) = sumZ l1 + sumZ l2.
Proof.
  induction l1 as [| x l1 IH]; simpl; [reflexivity | rewrite IH; lia].
Qed.

Lemma wrap64_add_l a b : wrap64 (wrap64 a + b) = wrap64 (a + b).
Proof. unfold wrap64. now rewrite Zplus_mod_idemp_l. Qed.

(* the loop of extractFeesFromPools after its first [k] rounds *)
Lemma extractFeesFromPools_rounds pools feeBasisPoints k :
  Forall is_uint64 pools -> (feeBasisPoints <= 1000)%N ->
  (k <= length pools)%nat ->
  let fee := fun pool => wrap64 (pool * Z.of_N feeBasisPoints) / 10000 in
  fold_left (FeeManager.extractFeesFromPools_body pools feeBasisPoints)
    (seq 0 k) (Returns (replicate (length pools) 0, FHE.asEuint64 0))
  = Returns
      (map (fun pool => pool - fee pool) (take k pools)
         ++ replicate (length pools - k) 0,
       wrap64 (sumZ (map fee (take k pools)))).
Proof.
  intros Hpools Hb Hk fee. induction k as [| k IH].
  - simpl. rewrite Nat.sub_0_r. reflexivity.
  - rewrite seq_S, fold_left_app, IH by lia. cbn [fold_left Nat.add].
    unfold FeeManager.extractFeesFromPools_body. cbn [and_then].
    unfold FHE.euint64 in *.
    destruct (lookup_lt_is_Some_2 pools k ltac:(lia)) as [pool Hpool].
    rewrite Hpool. cbn [default from_option id].
    pose proof (Forall_lookup_1 _ _ _ _ Hpools Hpool) as Hu.
    destruct (calculateFee_valid pool feeBasisPoints Hu Hb) as [-> _].
    simpl. destruct (fee_within_tenth pool feeBasisPoints Hu Hb)
      as ((Hf0 & Hf1) & Hf2 & Hf3).
    unfold FHE.sub, FHE.add.
    rewrite (wrap64_small (pool - _))
      by (unfold is_uint64 in Hu; lia).
    rewrite wrap64_add_l.
    rewrite (take_S_r pools k pool Hpool), !map_app, sumZ_app. simpl.
    rewrite Z.add_0_r. f_equal. f_equal.
    rewrite insert_app_r_alt by (rewrite length_map, length_take; lia).
    rewrite length_map, length_take.
    replace (k `min` length pools)%nat with k by lia.
    rewrite Nat.sub_diag.
    replace (length pools - k)%nat with (S (length pools - S k)) by lia.
    simpl. now rewrite <- app_assoc.
Qed.

Lemma extractFee_valid pool feeBasisPoints :
  is_uint64 pool -> (feeBasisPoints <= 1000)%N ->
  let fee := wrap64 (pool * Z.of_N feeBasisPoints) / 10000 in
  FeeManager.extractFee pool feeBasisPoints = Returns (pool - fee, fee)
  /\ 0 <= fee <= pool / 10 /\ pool / 10 <= pool.
Proof.
  intros Hu Hb fee. unfold FeeManager.extractFee.
  destruct (calculateFee_valid pool feeBasisPoints Hu Hb) as [-> _].
  destruct (fee_within_tenth pool feeBasisPoints Hu Hb)
    as ((Hf0 & Hf1) & Hf2 & Hf3).
  fold fee in Hf0, Hf1 |- *. simpl. unfold FHE.sub.
  rewrite wrap64_small by (unfold is_uint64 in *; lia).
  repeat split; lia.
Qed.

Lemma fees_of_pools pools feeBasisPoints :
  Forall is_uint64 pools -> (feeBasisPoints <= 1000)%N ->
  let fee := fun pool => wrap64 (pool * Z.of_N feeBasisPoints) / 10000 in
  let netPools := map (fun pool => pool - fee pool) pools in
  Forall2
    (fun pool net =>
       exists f,
         FeeManager.extractFee pool feeBasisPoints = Returns (net, f)
         /\ net + f = pool /\ 0 <= f <= pool / 10)
    pools netPools
  /\ sumZ pools - sumZ netPools = sumZ (map fee pools)
  /\ 0 <= sumZ (map fee pools) <= sumZ pools.
Proof.
  intros Hpools Hb fee netPools. subst netPools.
  induction Hpools as [| pool pools Hu Hpools IH]; simpl.
  - repeat split; [constructor | lia | lia].
  - destruct IH as (IH2 & IHsum & IHle).
    destruct (extractFee_valid pool feeBasisPoints Hu Hb)
      as (Hex & Hf & Hp).
    fold (fee pool) in Hex, Hf.
    split; [| split; lia].
    constructor; [| exact IH2].
    exists (fee pool). split; [exact Hex |]. split; lia.
Qed.

Lemma extractFeesFromPools_body_reverted pools feeBasisPoints e indices :
  fold_left (FeeManager.extractFeesFromPools_body pools feeBasisPoints)
    indices (Reverts e) = Reverts e.
Proof. induction indices as [| i indices IH]; simpl; auto. Qed.

(** X21.  Extracting fees from a list of pools conserves value.  Under a
    valid rate and for 64-bit pools, [extractFeesFromPools] returns one
    net pool per pool, each the net amount [extractFee] gives for that
    pool, with net plus fee equal to the pool and the fee at most a tenth
    of it; the total fee is the sum of the pools less the sum of the net
    pools, reduced to 64 bits, and exactly that when the pools sum to a
    64-bit value.  Under a rate above 1000 basis points the call reverts,
    except on an empty list, where the rate is never looked at. *)
Theorem extractFeesFromPools_conserves pools feeBasisPoints :
  (Forall is_uint64 pools -> (feeBasisPoints <= 1000)%N ->
   exists netPools totalFee,
     FeeManager.extractFeesFromPools pools feeBasisPoints
       = Returns (netPools, totalFee)
     /\ Forall2
          (fun pool net =>
             exists fee,
               FeeManager.extractFee pool feeBasisPoints
                 = Returns (net, fee)
               /\ net + fee = pool /\ 0 <= fee <= pool / 10)
          pools netPools
     /\ totalFee = wrap64 (sumZ pools - sumZ netPools)
     /\ (sumZ pools <= UINT64_MAX ->
         sumZ netPools + totalFee = sumZ pools))
  /\ ((1000 < feeBasisPoints)%N ->
      FeeManager.extractFeesFromPools pools feeBasisPoints
      = match pools with
        | [] => Returns ([], 0)
        | _ :: _ => Reverts FeeManager.InvalidFeeBasisPoints
        end).
Proof.
  split.
  - intros Hpools Hb.
    pose proof (extractFeesFromPools_rounds pools feeBasisPoints
                  (length pools) Hpools Hb ltac:(lia)) as Hloop.
    cbv zeta in Hloop.
    rewrite firstn_all, Nat.sub_diag, app_nil_r in Hloop.
    destruct (fees_of_pools pools feeBasisPoints Hpools Hb)
      as (Heach & Hsum & Hle).
    eexists _, _. split; [exact Hloop |]. split; [exact Heach |].
    split; [now rewrite Hsum |].
    intros Hfit. rewrite wrap64_small by lia. lia.
  - intros Hbig. destruct pools as [| pool pools]; [reflexivity |].
    unfold FeeManager.extractFeesFromPools. cbn [length seq fold_left].
    change (FeeManager.extractFeesFromPools_body (pool :: pools)
              feeBasisPoints
              (Returns (replicate (S (length pools)) 0, FHE.asEuint64 0))
              0%nat)
      with (and_then (FeeManager.calculateFee pool feeBasisPoints)
              (fun fee =>
                 Returns
                   (<[0%nat := FHE.sub pool fee]>
                      (replicate (S (length pools)) 0),
                    FHE.add (FHE.asEuint64 0) fee))).
    unfold FeeManager.calculateFee, FeeManager.MAX_FEE_BASIS_POINTS.
    destruct (N.eqb_spec feeBasisPoints 0) as [? | _]; [lia |].
    destruct (N.ltb_spec 1000 feeBasisPoints) as [_ | ?]; [| lia].
    cbn [and_then]. apply extractFeesFromPools_body_reverted.
Qed.

Lemma extractFeesFromPools_conserves_witness :
  FeeManager.extractFeesFromPools [1500; 2000] 200
    = Returns ([1470; 1960], 70).
Proof.
  destruct (extractFeesFromPools_conserves [1500; 2000] 200%N)
    as (Hvalid & _).
  destruct Hvalid as (netPools & totalFee & Hcall & _).
  - constructor; [| constructor; [| constructor]];
      unfold is_uint64; rewrite UINT64_MAX_eq; lia.
  - lia.
  - rewrite Hcall. vm_compute in Hcall. symmetry. exact Hcall.
Defined.

(** X22.  The payout helpers of FeeManager pay the principal only.
    Whatever the pools, [calculateWinningPayout] returns the user's own
    amount and [calculateExpectedReturn] the bet itself; the fee rate only
    decides whether they return at all (they revert above 1000 basis
    points), and a refund is the sum of both stakes reduced to 64 bits. *)
Theorem calculateWinningPayout_pays_principal userAmount totalWinningBets
    totalLosingBets feeBasisPoints :
  FeeManager.calculateWinningPayout userAmount totalWinningBets
    totalLosingBets feeBasisPoints
  = (if (1000 <? feeBasisPoints)%N
     then Reverts FeeManager.InvalidFeeBasisPoints
     else Returns userAmount)
  /\ FeeManager.calculateExpectedReturn userAmount totalWinningBets
       totalLosingBets feeBasisPoints
     = (if (1000 <? feeBasisPoints)%N
        then Reverts FeeManager.InvalidFeeBasisPoints
        else Returns userAmount)
  /\ FeeManager.calculateRefund totalWinningBets totalLosingBets
     = wrap64 (totalWinningBets + totalLosingBets).
Proof.
  unfold FeeManager.calculateWinningPayout,
    FeeManager.calculateExpectedReturn, FeeManager.extractFee,
    FeeManager.calculateFee, FeeManager.calculateProportionalPayout,
    FeeManager.calculateRefund, FeeManager.MAX_FEE_BASIS_POINTS.
  destruct (N.eqb_spec feeBasisPoints 0) as [-> | Hnz].
  - repeat split.
  - destruct (1000 <? feeBasisPoints)%N; repeat split.
Qed.

(** ** ErrorHandler *)

Lemma perform_timestamp errors step user :
  ErrorHandler.timestamp
    (mapping_get ErrorHandler.noLastError
       (ErrorHandler.perform errors step) user)
  = if decide (ErrorHandler.target (snd step) = user)
    then block_timestamp (fst step)
    else ErrorHandler.timestamp
           (mapping_get ErrorHandler.noLastError errors user).
Proof.
  destruct step as [env op]. unfold ErrorHandler.perform. simpl.
  destruct op as [u code | u code | u [] code noErr]; simpl;
    unfold ErrorHandler.clearError, ErrorHandler.setError;
    (destruct (decide (u = user)) as [-> | Hne];
     [now rewrite mapping_get_insert_eq
     | now rewrite mapping_get_insert_ne]).
Qed.

(** X23.  What [hasError] reports.  After any sequence of [setError],
    [clearError] and [setConditionalError] on an empty mapping, at block
    times after zero, [hasError] holds for a user exactly when one of the
    operations was addressed to them, whatever code it stored.  Clearing
    does not undo it: after [clearError], [getError] returns the no-error
    code with the time of the call, and [hasError] still holds. *)
Theorem hasError_once_recorded steps user :
  Forall (fun step : Env * ErrorHandler.Op =>
            (0 < block_timestamp (fst step))%N) steps ->
  (ErrorHandler.hasError (ErrorHandler.run steps ∅) user = true
   <-> Exists (fun step : Env * ErrorHandler.Op =>
                 ErrorHandler.target (snd step) = user) steps)
  /\ (forall env noErrorCode,
        (0 < block_timestamp env)%N ->
        let errors :=
          ErrorHandler.clearError env (ErrorHandler.run steps ∅) user
            noErrorCode in
        ErrorHandler.getError errors user
          = (noErrorCode, block_timestamp env)
        /\ ErrorHandler.hasError errors user = true).
Proof.
  intros Htimes. split.
  - unfold ErrorHandler.run.
    assert (forall errors,
      ErrorHandler.hasError (fold_left ErrorHandler.perform steps errors)
        user = true
      <-> ErrorHandler.hasError errors user = true
          \/ Exists (fun step : Env * ErrorHandler.Op =>
                       ErrorHandler.target (snd step) = user) steps)
      as Hgen.
    { induction Htimes as [| step steps Hstep Htimes IH]; intros errors.
      - simpl. rewrite Exists_nil. tauto.
      - simpl. rewrite IH, Exists_cons.
        unfold ErrorHandler.hasError at 1. rewrite perform_timestamp.
        destruct (decide (ErrorHandler.target (snd step) = user))
          as [Heq | Hne].
        + apply N.ltb_lt in Hstep. rewrite Hstep. tauto.
        + unfold ErrorHandler.hasError. tauto. }
    rewrite Hgen. unfold ErrorHandler.hasError, mapping_get.
    rewrite lookup_empty. simpl. split; [intros [? | ?] | auto].
    + discriminate.
    + assumption.
  - intros env noErrorCode Hnow errors. subst errors.
    unfold ErrorHandler.getError, ErrorHandler.hasError,
      ErrorHandler.clearError, ErrorHandler.setError.
    rewrite mapping_get_insert_eq. simpl. split; [reflexivity |].
    now apply N.ltb_lt.
Qed.

Lemma hasError_once_recorded_witness :
  let steps :=
    [ (mkEnv 3%N 100%N, ErrorHandler.SetError 3%N 1);
      (mkEnv 3%N 200%N, ErrorHandler.ClearError 3%N 0) ] in
  ErrorHandler.hasError (ErrorHandler.run steps ∅) 3%N = true
  /\ ErrorHandler.getError (ErrorHandler.run steps ∅) 3%N = (0, 200%N).
Proof.
  intros steps.
  destruct (hasError_once_recorded steps 3%N) as [Hhas _].
  - constructor; [| constructor; [| constructor]]; simpl; lia.
  - split; [| vm_compute; reflexivity].
    apply Hhas. apply Exists_cons_hd. reflexivity.
Defined.

(** ** BlindBetFactory *)

Lemma and_then_Returns {E A B} (r : reverting E A) (k : A -> reverting E B)
    (b : B) :
  and_then r k = Returns b -> exists a, r = Returns a /\ k a = Returns b.
Proof. destruct r as [a | e]; simpl; [eauto | discriminate]. Qed.

Lemma revert_when_Returns {E} c (e : E) u :
  revert_when c e = Returns u -> c = false.
Proof. unfold revert_when. now destruct c. Qed.

Section FactoryFacts.
Context {T : Type} `{!ConfidentialERC20 T} `{!FHEVMHost}.
Import BlindBetFactory.

Lemma constructor_Returns env self0 token collector fee f0 :
  constructor env self0 token collector fee = Returns f0 ->
  msg_sender env <> 0%N /\ token <> 0%N /\ collector <> 0%N
  /\ (fee <= 1000)%N
  /\ f0 = mkFactory self0 (msg_sender env) 0%N token collector fee
            MIN_BETTING_DURATION MAX_BETTING_DURATION MIN_RESOLUTION_DELAY
            0%N ∅ ∅.
Proof.
  unfold constructor, MAX_FEE_BASIS_POINTS. intros Hc.
  apply and_then_Returns in Hc. destruct Hc as [u0 [H0 Hc]].
  apply and_then_Returns in Hc. destruct Hc as [u1 [H1 Hc]].
  apply and_then_Returns in Hc. destruct Hc as [u2 [H2 Hc]].
  apply and_then_Returns in Hc. destruct Hc as [u3 [H3 Hc]].
  apply revert_when_Returns in H0, H1, H2, H3.
  apply N.eqb_neq in H0, H1, H2. apply N.ltb_ge in H3.
  inversion Hc. auto.
Qed.

Lemma onlyOwner_Returns env (f : Factory) u :
  onlyOwner env f = Returns u -> msg_sender env = owner f.
Proof.
  unfold onlyOwner. intros Hc. apply revert_when_Returns in Hc.
  apply negb_false_iff, N.eqb_eq in Hc. now symmetry.
Qed.

Lemma deployMarket_Returns env params marketAddress (tok : T) f out :
  deployMarket env params marketAddress tok f = Returns out ->
  _validateMarketParams params f = Returns tt
  /\ exists st,
       BlindBetMarket.createMarket (mkEnv (self f) (block_timestamp env))
         (question params) (bettingDuration params)
         (resolutionDelay params) (resolver params) (image params)
         (category params)
         (BlindBetMarket.deployed marketAddress (self f) tok)
       = Ok (st, 0%N)
       /\ out = (register (marketCount f) marketAddress
                   (set_marketCount (marketCount f + 1)%N f),
                 st, marketAddress, marketCount f).
Proof.
  unfold deployMarket. intros Hc.
  apply and_then_Returns in Hc. destruct Hc as [[] [Hv Hc]].
  split; [exact Hv |].
  match type of Hc with
  | match ?r with _ => _ end = _ => destruct r as [[st mid] |] eqn:Hcreate
  end; [| discriminate].
  pose proof Hcreate as Hid. apply createMarket_Ok in Hid.
  destruct Hid as [Hid _]. simpl in Hid. subst mid.
  exists st. split; [reflexivity |]. now inversion Hc.
Qed.

(* what a successful call does to the factory *)
Lemma call_Returns env c (f f' : Factory) :
  call env c f = Returns f' ->
  (exists params marketAddress (tok : T),
     c = DeployMarket params marketAddress tok
     /\ f' = register (marketCount f) marketAddress
               (set_marketCount (marketCount f + 1)%N f))
  \/ (msg_sender env = owner f
      /\ ((exists a, c = UpdateImplementation a /\ a <> 0%N
                     /\ f' = set_implementation a f)
          \/ (exists n, c = UpdateFee n /\ (n <= 1000)%N
                        /\ f' = set_feeBasisPoints n f)
          \/ (exists a, c = UpdateFeeCollector a /\ a <> 0%N
                        /\ f' = set_feeCollector a f)
          \/ (exists a, c = TransferOwnership a /\ a <> 0%N
                        /\ f' = set_owner a f)
          \/ (c = RenounceOwnership /\ f' = set_owner 0%N f))).
Proof.
  intros Hcall.
  destruct c as [params a tok | a | n | a | a |]; simpl in Hcall.
  - left. apply and_then_Returns in Hcall.
    destruct Hcall as [out [Hd Hret]].
    apply deployMarket_Returns in Hd. destruct Hd as (_ & st & _ & ->).
    inversion Hret. eauto.
  - right. unfold updateImplementation in Hcall.
    apply and_then_Returns in Hcall. destruct Hcall as [u [Ho Hcall]].
    apply and_then_Returns in Hcall. destruct Hcall as [u0 [Hz Hcall]].
    apply onlyOwner_Returns in Ho. apply revert_when_Returns in Hz.
    apply N.eqb_neq in Hz. inversion Hcall. split; [exact Ho |]. left. eauto.
  - right. unfold updateFee, MAX_FEE_BASIS_POINTS in Hcall.
    apply and_then_Returns in Hcall. destruct Hcall as [u [Ho Hcall]].
    apply and_then_Returns in Hcall. destruct Hcall as [u0 [Hz Hcall]].
    apply onlyOwner_Returns in Ho. apply revert_when_Returns in Hz.
    apply N.ltb_ge in Hz. inversion Hcall. split; [exact Ho |].
    right; left. eauto.
  - right. unfold updateFeeCollector in Hcall.
    apply and_then_Returns in Hcall. destruct Hcall as [u [Ho Hcall]].
    apply and_then_Returns in Hcall. destruct Hcall as [u0 [Hz Hcall]].
    apply onlyOwner_Returns in Ho. apply revert_when_Returns in Hz.
    apply N.eqb_neq in Hz. inversion Hcall. split; [exact Ho |].
    right; right; left. eauto.
  - right. unfold transferOwnership in Hcall.
    apply and_then_Returns in Hcall. destruct Hcall as [u [Ho Hcall]].
    apply and_then_Returns in Hcall. destruct Hcall as [u0 [Hz Hcall]].
    apply onlyOwner_Returns in Ho. apply revert_when_Returns in Hz.
    apply N.eqb_neq in Hz. inversion Hcall. split; [exact Ho |].
    right; right; right; left. eauto.
  - right. unfold renounceOwnership in Hcall.
    apply and_then_Returns in Hcall. destruct Hcall as [u [Ho Hcall]].
    apply onlyOwner_Returns in Ho. inversion Hcall. split; [exact Ho |].
    right; right; right; right. auto.
Qed.
(* the configuration a successful call leaves *)
Lemma call_config env (c : @Call T) (f f' : Factory) :
  call env c f = Returns f' ->
  self f' = self f
  /\ tokenAddress f' = tokenAddress f
  /\ minBettingDuration f' = minBettingDuration f
  /\ maxBettingDuration f' = maxBettingDuration f
  /\ minResolutionDelay f' = minResolutionDelay f
  /\ (feeCollector f <> 0%N -> feeCollector f' <> 0%N)
  /\ ((feeBasisPoints f <= 1000)%N -> (feeBasisPoints f' <= 1000)%N).
Proof.
  intros Hcall. apply call_Returns in Hcall.
  destruct Hcall as [(params & a & tok & _ & ->)
    | (_ & [(a & _ & Ha & ->) | [(n & _ & Hn & ->) | [(a & _ & Ha & ->)
    | [(a & _ & Ha & ->) | (_ & ->)]]]])]; simpl; auto 10.
Qed.

(* the configuration after any sequence of transactions *)
Lemma run_config env0 self0 token collector fee f0
    (txs : list (Env * @Call T)) :
  constructor env0 self0 token collector fee = Returns f0 ->
  tokenAddress (run txs f0) = token
  /\ minBettingDuration (run txs f0) = 3600%N
  /\ maxBettingDuration (run txs f0) = 31536000%N
  /\ minResolutionDelay (run txs f0) = 3600%N
  /\ feeCollector (run txs f0) <> 0%N
  /\ (feeBasisPoints (run txs f0) <= 1000)%N.
Proof.
  intros Hc. apply constructor_Returns in Hc.
  destruct Hc as (_ & Htoken & Hcollector & Hfee & ->).
  assert (forall g : Factory,
            tokenAddress g = token
            /\ minBettingDuration g = 3600%N
            /\ maxBettingDuration g = 31536000%N
            /\ minResolutionDelay g = 3600%N
            /\ feeCollector g <> 0%N
            /\ (feeBasisPoints g <= 1000)%N ->
            tokenAddress (run txs g) = token
            /\ minBettingDuration (run txs g) = 3600%N
            /\ maxBettingDuration (run txs g) = 31536000%N
            /\ minResolutionDelay (run txs g) = 3600%N
            /\ feeCollector (run txs g) <> 0%N
            /\ (feeBasisPoints (run txs g) <= 1000)%N) as Hrun.
  { induction txs as [| [env c] txs IH]; intros g Hg.
    - exact Hg.
    - simpl. apply IH. unfold execute. simpl.
      destruct (call env c g) as [g' |] eqn:Hcall; [| exact Hg].
      apply call_config in Hcall.
      destruct Hcall as (_ & Ht & Hmin & Hmax & Hdelay & Hcol & Hbps).
      destruct Hg as (Gt & Gmin & Gmax & Gdelay & Gcol & Gbps).
      rewrite Ht, Hmin, Hmax, Hdelay. auto 10. }
  apply Hrun. simpl. auto 10.
Qed.

(** X24.  The configuration of a factory stays valid.  The constructor
    returns only for a non-zero token, a non-zero fee collector and a fee
    of at most 1000 basis points; after any sequence of transactions the
    token is the one the factory was built with, the duration bounds are
    the built-in ones, the collector is not the zero address and the fee
    is at most 1000 basis points, so the pair always passes
    [FeeManager.validateFeeConfig]. *)
Theorem factory_config_stays_valid env0 self0 token collector fee f0
    (txs : list (Env * @Call T)) :
  constructor env0 self0 token collector fee = Returns f0 ->
  let f := run txs f0 in
  token <> 0%N /\ collector <> 0%N /\ (fee <= 1000)%N
  /\ tokenAddress f = token
  /\ minBettingDuration f = 3600%N
  /\ maxBettingDuration f = 31536000%N
  /\ minResolutionDelay f = 3600%N
  /\ feeCollector f <> 0%N
  /\ (feeBasisPoints f <= 1000)%N
  /\ FeeManager.validateFeeConfig (feeBasisPoints f) (feeCollector f)
     = Returns tt.
Proof.
  intros Hc f.
  destruct (run_config env0 self0 token collector fee f0 txs Hc)
    as (Ht & Hmin & Hmax & Hdelay & Hcol & Hbps).
  fold f in Ht, Hmin, Hmax, Hdelay, Hcol, Hbps.
  apply constructor_Returns in Hc.
  destruct Hc as (_ & Htoken & Hcollector & Hfee & _).
  repeat split; auto.
  unfold FeeManager.validateFeeConfig, FeeManager.MAX_FEE_BASIS_POINTS,
    revert_when.
  apply N.ltb_ge in Hbps. rewrite Hbps. simpl.
  apply N.eqb_neq in Hcol. now rewrite Hcol.
Qed.

(** X25.  Only the owner reconfigures the factory.  A successful call
    after which the configuration [getConfig] or the owner differs was
    sent by the owner, and it deployed nothing: the market count and the
    registry are as before.  A successful deployment, by anyone, changes
    neither. *)
Theorem only_owner_reconfigures env (c : @Call T) (f f' : Factory) :
  call env c f = Returns f' ->
  (getConfig f' <> getConfig f \/ owner f' <> owner f ->
   msg_sender env = owner f
   /\ getMarketCount f' = getMarketCount f
   /\ markets f' = markets f /\ marketIds f' = marketIds f)
  /\ (forall params marketAddress (tok : T),
        c = DeployMarket params marketAddress tok ->
        getConfig f' = getConfig f /\ owner f' = owner f
        /\ getMarketCount f' = (getMarketCount f + 1)%N).
Proof.
  intros Hcall. apply call_Returns in Hcall.
  destruct Hcall as [(params & a & tok & -> & ->)
    | (Ho & [(a & -> & Ha & ->) | [(n & -> & Hn & ->) | [(a & -> & Ha & ->)
    | [(a & -> & Ha & ->) | (-> & ->)]]]])].
  - split.
    + intros [Hcfg | Hown]; [now contradiction Hcfg | now contradiction Hown].
    + intros params0 a0 tok0 _. repeat split.
  - split; [intros _; repeat split; exact Ho | discriminate].
  - split; [intros _; repeat split; exact Ho | discriminate].
  - split; [intros _; repeat split; exact Ho | discriminate].
  - split; [intros _; repeat split; exact Ho | discriminate].
  - split; [intros _; repeat split; exact Ho | discriminate].
Qed.
Lemma register_consistent (f : Factory) marketAddress :
  registryConsistent f ->
  marketAddress <> 0%N ->
  marketIds f !! marketAddress = None ->
  registryConsistent
    (register (marketCount f) marketAddress
       (set_marketCount (marketCount f + 1)%N f)).
Proof.
  intros (Hbelow & Hbeyond & Hback) Hnz Hfresh.
  unfold registryConsistent. simpl. split; [| split].
  - intros marketId Hlt.
    destruct (decide (marketCount f = marketId)) as [<- | Hne].
    + exists marketAddress. now rewrite !lookup_insert_eq.
    + destruct (Hbelow marketId ltac:(lia)) as (a & Ha & Hanz & Hid).
      exists a. rewrite !lookup_insert_ne; auto.
      intros ->. congruence.
  - intros marketId Hle. rewrite lookup_insert_ne by lia.
    apply Hbeyond. lia.
  - intros a marketId Hid.
    destruct (decide (marketAddress = a)) as [<- | Hne].
    + rewrite lookup_insert_eq in Hid. inversion Hid; subst marketId.
      now rewrite lookup_insert_eq.
    + rewrite lookup_insert_ne in Hid by assumption.
      pose proof (Hback a marketId Hid) as Hm.
      rewrite lookup_insert_ne; [exact Hm |].
      intros <-. rewrite Hbeyond in Hm by lia. discriminate.
Qed.

Lemma run_registry (txs : list (Env * @Call T)) (f : Factory) :
  registryConsistent f ->
  NoDup (created txs) ->
  (forall a, a ∈ created txs -> a <> 0%N /\ marketIds f !! a = None) ->
  registryConsistent (run txs f)
  /\ (forall a marketId,
        marketIds (run txs f) !! a = Some marketId ->
        marketIds f !! a <> None \/ a ∈ created txs).
Proof.
  revert f. induction txs as [| [env c] txs IH]; intros f Hf Hdup Hfresh.
  - simpl. split; [exact Hf |]. intros a marketId Hid. left. congruence.
  - simpl. unfold execute. simpl.
    destruct (call env c f) as [f' |] eqn:Hcall.
    + apply call_Returns in Hcall.
      destruct Hcall as [(params & a & tok & -> & ->)
        | (_ & [(a & -> & _ & ->) | [(n & -> & _ & ->) | [(a & -> & _ & ->)
        | [(a & -> & _ & ->) | (-> & ->)]]]])];
        try (match goal with
             | |- registryConsistent (run txs ?g) /\ _ =>
                 exact (IH g Hf Hdup Hfresh)
             end).
      change (created ((env, DeployMarket params a tok) :: txs))
        with (a :: created txs) in *.
      apply NoDup_cons in Hdup. destruct Hdup as [Hnotin Hdup].
      destruct (Hfresh a ltac:(left)) as [Hnz Hnone].
      destruct (IH (register (marketCount f) a
                      (set_marketCount (marketCount f + 1)%N f)))
        as [Hc Hids].
      * now apply register_consistent.
      * exact Hdup.
      * intros a' Hin. destruct (Hfresh a' ltac:(now right)) as [Hnz' Hn'].
        split; [exact Hnz' |]. simpl. rewrite lookup_insert_ne; [exact Hn' |].
        intros ->. contradiction.
      * split; [exact Hc |]. intros a' marketId Hid.
        destruct (Hids a' marketId Hid) as [Hold | Hin]; [| now right; right].
        simpl in Hold. destruct (decide (a = a')) as [<- | Hne].
        -- right. left.
        -- rewrite lookup_insert_ne in Hold by assumption. now left.
    + assert (NoDup (created txs)
              /\ (forall a, a ∈ created txs ->
                            a <> 0%N /\ marketIds f !! a = None)) as [Hd Hfr].
      { destruct c as [params a tok | a | n | a | a |];
          try (split; assumption).
        change (created ((env, DeployMarket params a tok) :: txs))
          with (a :: created txs) in *.
        apply NoDup_cons in Hdup. destruct Hdup as [_ Hdup].
        split; [exact Hdup |]. intros a' Hin. apply Hfresh. now right. }
      destruct (IH f Hf Hd Hfr) as [Hc Hids]. split; [exact Hc |].
      intros a marketId Hid. destruct (Hids a marketId Hid) as [? | Hin];
        [now left | right].
      destruct c as [params a0 tok | a0 | n | a0 | a0 |]; try exact Hin.
      change (created ((env, DeployMarket params a0 tok) :: txs))
        with (a0 :: created txs). now right.
Qed.

(** X26.  The registry of the factory is a bijection between ids and
    market addresses.  When the addresses of the created contracts are
    distinct and not zero, then after any sequence of transactions:
    [getMarketAddress] returns exactly for the ids below the market
    count, and the address it returns for an id was created by one of the
    transactions and is mapped back to that id by [getMarketId]; an id
    [getMarketId] returns for a non-zero address is mapped to that address
    by [getMarketAddress]; and [getMarketId] of the zero address returns
    id 0 on a factory without markets and reverts otherwise. *)
Theorem factory_registry_round_trip env0 self0 token collector fee f0
    (txs : list (Env * @Call T)) :
  constructor env0 self0 token collector fee = Returns f0 ->
  NoDup (created txs) ->
  0%N ∉ created txs ->
  let f := run txs f0 in
  (forall marketId marketAddress,
     getMarketAddress marketId f = Returns marketAddress ->
     (marketId < getMarketCount f)%N
     /\ marketAddress ∈ created txs
     /\ getMarketId marketAddress f = Returns marketId)
  /\ (forall marketId marketAddress,
        marketAddress <> 0%N ->
        getMarketId marketAddress f = Returns marketId ->
        getMarketAddress marketId f = Returns marketAddress)
  /\ (forall marketId,
        (exists marketAddress,
           getMarketAddress marketId f = Returns marketAddress)
        <-> (marketId < getMarketCount f)%N)
  /\ (forall marketId,
        (getMarketCount f <= marketId)%N ->
        getMarketAddress marketId f = Reverts MarketNotFound)
  /\ getMarketId 0%N f
     = (if (getMarketCount f =? 0)%N then Returns 0%N
        else Reverts MarketNotFound).
Proof.
  intros Hc Hdup Hzero f. apply constructor_Returns in Hc.
  destruct Hc as (_ & _ & _ & _ & ->).
  destruct (run_registry txs
              (mkFactory self0 (msg_sender env0) 0%N token collector fee
                 MIN_BETTING_DURATION MAX_BETTING_DURATION
                 MIN_RESOLUTION_DELAY 0%N ∅ ∅)) as [Hcons Hids].
  { unfold registryConsistent. simpl. repeat split.
    - intros marketId Hlt. lia.
    - intros a marketId Hid. now rewrite lookup_empty in Hid. }
  { exact Hdup. }
  { intros a Hin. split; [| apply lookup_empty].
    intros Heq. subst a. contradiction. }
  fold f in Hcons, Hids. clearbody f.
  destruct Hcons as (Hbelow & Hbeyond & Hback).
  unfold getMarketCount.
  assert (forall marketId marketAddress,
            getMarketAddress marketId f = Returns marketAddress
            <-> markets f !! marketId = Some marketAddress
                /\ marketAddress <> 0%N) as Haddr.
  { intros marketId a. unfold getMarketAddress, revert_when, mapping_get.
    unfold address in *.
    match goal with
    | |- context [@lookup ?K ?V ?M ?I marketId ?m] =>
        destruct (@lookup K V M I marketId m) as [a' |] eqn:Hm; simpl
    end.
    - destruct (N.eqb_spec a' 0) as [-> | Hnz]; simpl.
      + split; [discriminate |]. intros [Heq Hnz]. congruence.
      + split; [intros Heq; inversion Heq; subst; auto |].
        intros [Heq _]. congruence.
    - split; [discriminate | intros [? _]; discriminate]. }
  assert (forall marketId,
            (marketId < marketCount f)%N
            <-> exists a, markets f !! marketId = Some a /\ a <> 0%N)
    as Hcount.
  { intros marketId. split.
    - intros Hlt. destruct (Hbelow marketId Hlt) as (a & Ha & Hnz & _).
      eauto.
    - intros (a & Ha & _).
      destruct (N.lt_ge_cases marketId (marketCount f)) as [? | Hge];
        [assumption |].
      rewrite Hbeyond in Ha by assumption. discriminate. }
  unfold address in *.
  split; [| split; [| split; [| split]]].
  - intros marketId a Hget. apply Haddr in Hget. destruct Hget as [Hm Hnz].
    assert (marketId < marketCount f)%N as Hlt by (apply Hcount; eauto).
    destruct (Hbelow marketId Hlt) as (a' & Ha' & _ & Hid).
    assert (a' = a) as -> by congruence.
    split; [exact Hlt |]. split.
    + destruct (Hids a marketId Hid) as [Hold | Hin]; [| exact Hin].
      simpl in Hold. now rewrite lookup_empty in Hold.
    + unfold getMarketId, revert_when, mapping_get. unfold address in *.
      rewrite Hid. simpl.
      rewrite Hm. simpl. now rewrite N.eqb_refl.
  - intros marketId a Hnz Hget. apply Haddr.
    unfold getMarketId, revert_when in Hget.
    apply and_then_Returns in Hget. destruct Hget as [u [Hguard Hret]].
    inversion Hret; subst marketId. clear Hret.
    match type of Hguard with
    | (if ?c then _ else _) = _ => destruct c eqn:Heq; [discriminate |]
    end.
    apply negb_false_iff, N.eqb_eq in Heq.
    split; [| exact Hnz]. unfold mapping_get at 1 in Heq.
    unfold address in *.
    match goal with
    | |- @lookup ?K ?V ?M ?I ?k ?m = _ =>
        destruct (@lookup K V M I k m) as [a' |] eqn:Hl
    end; simpl in Heq; congruence.
  - intros marketId. rewrite Hcount. split.
    + intros [a Ha]. exists a. now apply Haddr.
    + intros (a & Ha). exists a. now apply Haddr.
  - intros marketId Hge. unfold getMarketAddress, mapping_get.
    unfold address in *. now rewrite Hbeyond.
  - assert (marketIds f !! 0%N = None) as Hnone.
    { destruct (marketIds f !! 0%N) as [marketId |] eqn:Hid;
        [| reflexivity].
      apply Hback in Hid. exfalso.
      destruct (N.lt_ge_cases marketId (marketCount f)) as [Hlt | Hge].
      - destruct (Hbelow marketId Hlt) as (a & Ha & Hnz & _). congruence.
      - rewrite Hbeyond in Hid by assumption. discriminate. }
    unfold getMarketId, revert_when, mapping_get. unfold address in *.
    rewrite Hnone. simpl.
    destruct (N.eqb_spec (marketCount f) 0) as [H0 | H0].
    + rewrite Hbeyond by lia. reflexivity.
    + destruct (Hbelow 0%N ltac:(lia)) as (a & Ha & Hnz & _).
      rewrite Ha. simpl. apply N.eqb_neq in Hnz. now rewrite Hnz.
Qed.
Lemma market_validation_bounds question bettingDuration resolutionDelay
    resolver :
  MarketBase._validateMarketParams question bettingDuration resolutionDelay
    resolver = Ok tt
  <-> (10 <= String.length question <= 500)%nat
      /\ (3600 <= bettingDuration <= 31536000)%N
      /\ (3600 <= resolutionDelay <= 2592000)%N
      /\ resolver <> 0%N.
Proof.
  unfold MarketBase._validateMarketParams, revert_if.
  destruct (Nat.ltb_spec (String.length question) 10); simpl;
    [intuition (try discriminate; try lia) |].
  destruct (Nat.ltb_spec 500 (String.length question)); simpl;
    [intuition (try discriminate; try lia) |].
  destruct (N.ltb_spec bettingDuration 3600); simpl;
    [intuition (try discriminate; try lia) |].
  destruct (N.ltb_spec (365 * 86400) bettingDuration); simpl;
    [intuition (try discriminate; try lia) |].
  destruct (N.ltb_spec resolutionDelay 3600); simpl;
    [intuition (try discriminate; try lia) |].
  destruct (N.ltb_spec (30 * 86400) resolutionDelay); simpl;
    [intuition (try discriminate; try lia) |].
  destruct (N.eqb_spec resolver 0); simpl;
    intuition (try discriminate; try lia).
Qed.

Lemma factory_validation_bounds params (f : Factory) :
  minBettingDuration f = 3600%N ->
  maxBettingDuration f = 31536000%N ->
  minResolutionDelay f = 3600%N ->
  _validateMarketParams params f = Returns tt
  <-> String.length (question params) <> 0%nat
      /\ (3600 <= bettingDuration params <= 31536000)%N
      /\ (3600 <= resolutionDelay params)%N
      /\ resolver params <> 0%N.
Proof.
  intros Hmin Hmax Hdelay.
  unfold _validateMarketParams, revert_when. rewrite Hmin, Hmax, Hdelay.
  destruct (Nat.eqb_spec (String.length (question params)) 0); simpl;
    [intuition (try discriminate; try lia) |].
  destruct (N.ltb_spec (bettingDuration params) 3600); simpl;
    [intuition (try discriminate; try lia) |].
  destruct (N.ltb_spec 31536000 (bettingDuration params)); simpl;
    [intuition (try discriminate; try lia) |].
  destruct (N.ltb_spec (resolutionDelay params) 3600); simpl;
    [intuition (try discriminate; try lia) |].
  destruct (N.eqb_spec (resolver params) 0); simpl;
    intuition (try discriminate; try lia).
Qed.

(** X27.  What the factory checks and what a deployment needs.  On a
    factory after any sequence of transactions, [_validateMarketParams]
    accepts exactly a non-empty question, a betting duration of one hour
    to 365 days, a resolution delay of at least one hour and a non-zero
    resolver; this is weaker than [MarketValidator.validateMarketCreation],
    which implies it.  [deployMarket] itself returns exactly when the
    validation of the market it creates passes as well; otherwise the
    revert of the new market comes back through the factory. *)
Theorem factory_validation_is_weaker env0 self0 token collector fee f0
    (txs : list (Env * @Call T)) params :
  constructor env0 self0 token collector fee = Returns f0 ->
  let f := run txs f0 in
  (_validateMarketParams params f = Returns tt
   <-> String.length (question params) <> 0%nat
       /\ (3600 <= bettingDuration params <= 31536000)%N
       /\ (3600 <= resolutionDelay params)%N
       /\ resolver params <> 0%N)
  /\ (MarketValidator.validateMarketCreation (question params)
        (bettingDuration params) (resolutionDelay params) (resolver params)
        = Returns tt ->
      _validateMarketParams params f = Returns tt)
  /\ (forall env marketAddress (tok : T),
        (exists out,
           deployMarket env params marketAddress tok f = Returns out)
        <-> MarketBase._validateMarketParams (question params)
              (bettingDuration params) (resolutionDelay params)
              (resolver params) = Ok tt)
  /\ (forall env marketAddress (tok : T) e,
        _validateMarketParams params f = Returns tt ->
        MarketBase._validateMarketParams (question params)
          (bettingDuration params) (resolutionDelay params)
          (resolver params) = Revert e ->
        deployMarket env params marketAddress tok f
          = Reverts (MarketReverted e)).
Proof.
  intros Hc f.
  destruct (run_config env0 self0 token collector fee f0 txs Hc)
    as (_ & Hmin & Hmax & Hdelay & _ & _).
  fold f in Hmin, Hmax, Hdelay. clearbody f.
  pose proof (factory_validation_bounds params f Hmin Hmax Hdelay) as Hf.
  split; [exact Hf |]. split; [| split].
  - intros Hv.
    pose proof (validateMarketCreation_bounds (question params)
                  (bettingDuration params) (resolutionDelay params)
                  (resolver params)) as Hb.
    apply Hb in Hv. apply Hf. intuition lia.
  - intros env marketAddress tok. split.
    + intros [out Hd]. apply deployMarket_Returns in Hd.
      destruct Hd as (_ & st & Hcreate & _).
      unfold BlindBetMarket.createMarket in Hcreate.
      apply bind_Ok in Hcreate. destruct Hcreate as [[] [Hv _]]. exact Hv.
    + intros Hv. unfold deployMarket.
      assert (_validateMarketParams params f = Returns tt) as ->.
      { apply Hf. apply market_validation_bounds in Hv. intuition lia. }
      simpl. unfold BlindBetMarket.createMarket. rewrite Hv. simpl. eauto.
  - intros env marketAddress tok e Hfv Hmv. unfold deployMarket.
    rewrite Hfv. simpl. unfold BlindBetMarket.createMarket. rewrite Hmv.
    reflexivity.
Qed.
End FactoryFacts.

Section FactoryMarkets.
Context {T : Type} `{!ConfidentialERC20 T} `{!FHEVMHost}.

(** X28.  What a deployment leaves behind.  When [deployMarket] returns,
    the id it returns is the former market count, the count has grown by
    one and the registry maps the id and the new address to each other.
    The new contract holds a single market, which has id 0 there whatever
    its id in the factory, is Open with the requested resolver and the
    deadline counted from the block time, and whose creator is the
    factory itself, not the account that asked for the deployment. *)
Theorem deployMarket_creates_market_zero env params marketAddress (tok : T)
    f f' st a marketId :
  BlindBetFactory.deployMarket env params marketAddress tok f
    = Returns (f', st, a, marketId) ->
  let market := MarketBase._getMarket 0%N st in
  marketId = BlindBetFactory.getMarketCount f
  /\ a = marketAddress
  /\ BlindBetFactory.getMarketCount f' = (marketId + 1)%N
  /\ BlindBetFactory.getMarketId marketAddress f' = Returns marketId
  /\ (marketAddress <> 0%N ->
      BlindBetFactory.getMarketAddress marketId f' = Returns marketAddress)
  /\ marketCount st = 1%N
  /\ self st = marketAddress
  /\ token st = tok
  /\ MarketLib.id market = 0%N
  /\ MarketLib.creator market = BlindBetFactory.self f
  /\ BlindBetMarket.getResolver 0%N st
     = Ok (BlindBetFactory.resolver params)
  /\ MarketLib.state market = MarketState.Open
  /\ MarketLib.bettingDeadline market
     = (block_timestamp env + BlindBetFactory.bettingDuration params)%N.
Proof.
  intros Hd market. apply deployMarket_Returns in Hd.
  destruct Hd as (_ & st0 & Hcreate & Hout).
  inversion Hout; subst f' st0 a marketId. clear Hout.
  apply createMarket_Ok in Hcreate. destruct Hcreate as [_ Hst].
  subst market. rewrite Hst. clear Hst.
  unfold BlindBetFactory.getMarketCount, BlindBetFactory.getMarketId,
    BlindBetFactory.getMarketAddress, revert_when. simpl.
  rewrite !mapping_get_insert_eq.
  rewrite getMarket_set_market_eq. simpl.
  rewrite N.eqb_refl. simpl.
  repeat split.
  intros Hnz. apply N.eqb_neq in Hnz. now rewrite Hnz.
Qed.
End FactoryMarkets.

Section FactoryRuns.
#[local] Existing Instance Ledger.erc20.
#[local] Existing Instance Sample.host.

Lemma factory_config_stays_valid_witness :
  let env := Sample.at_time Sample.deployer 500%N in
  let f0 :=
    BlindBetFactory.mkFactory 50%N Sample.deployer 0%N 7%N 8%N 200%N
      3600%N 31536000%N 3600%N 0%N ∅ ∅ in
  let txs : list (Env * BlindBetFactory.Call (T := Ledger.t)) :=
    [ (env, BlindBetFactory.UpdateFee 2000%N);
      (env, BlindBetFactory.UpdateFee 300%N);
      (Sample.at_time Sample.alice 600%N,
       BlindBetFactory.UpdateFeeCollector 0%N) ] in
  BlindBetFactory.feeBasisPoints (BlindBetFactory.run txs f0) = 300%N
  /\ BlindBetFactory.feeCollector (BlindBetFactory.run txs f0) <> 0%N
  /\ (BlindBetFactory.feeBasisPoints (BlindBetFactory.run txs f0)
        <= 1000)%N.
Proof.
  intros env f0 txs.
  destruct (factory_config_stays_valid env 50%N 7%N 8%N 200%N f0 txs)
    as (_ & _ & _ & _ & _ & _ & _ & Hcollector & Hfee & _).
  - reflexivity.
  - split; [vm_compute; reflexivity |]. split; assumption.
Defined.

Lemma only_owner_reconfigures_witness :
  let env := Sample.at_time Sample.deployer 500%N in
  let f :=
    BlindBetFactory.mkFactory 50%N Sample.deployer 0%N 7%N 8%N 200%N
      3600%N 31536000%N 3600%N 0%N ∅ ∅ in
  let c : BlindBetFactory.Call (T := Ledger.t) :=
    BlindBetFactory.UpdateFee 300%N in
  msg_sender env = BlindBetFactory.owner f
  /\ BlindBetFactory.call (Sample.at_time Sample.alice 500%N) c f
     = Reverts (BlindBetFactory.OwnableUnauthorizedAccount Sample.alice).
Proof.
  intros env f c.
  destruct (only_owner_reconfigures env c f
              (BlindBetFactory.set_feeBasisPoints 300%N f))
    as [Howner _].
  - reflexivity.
  - destruct Howner as (Hsender & _).
    + left. vm_compute. discriminate.
    + split; [exact Hsender | reflexivity].
Defined.

Lemma factory_registry_round_trip_witness :
  let env := Sample.at_time Sample.alice 1000%N in
  let params :=
    BlindBetFactory.mkMarketParams "Will it rain tomorrow?" 3600%N 3600%N
      Sample.resolver "" "" in
  let f0 :=
    BlindBetFactory.mkFactory 50%N Sample.deployer 0%N 7%N 8%N 200%N
      3600%N 31536000%N 3600%N 0%N ∅ ∅ in
  let txs :=
    [ (env, BlindBetFactory.DeployMarket params 100%N Sample.ledger1);
      (env, BlindBetFactory.DeployMarket params 101%N Sample.ledger1) ] in
  BlindBetFactory.getMarketAddress 1%N (BlindBetFactory.run txs f0)
    = Returns 101%N
  /\ BlindBetFactory.getMarketId 101%N (BlindBetFactory.run txs f0)
     = Returns 1%N
  /\ BlindBetFactory.getMarketAddress 2%N (BlindBetFactory.run txs f0)
     = Reverts BlindBetFactory.MarketNotFound.
Proof.
  intros env params f0 txs.
  destruct (factory_registry_round_trip
              (Sample.at_time Sample.deployer 500%N) 50%N 7%N 8%N 200%N f0
              txs) as (Hround & _ & _ & Hbeyond & _).
  - reflexivity.
  - apply (bool_decide_unpack _). vm_compute. exact I.
  - apply (bool_decide_unpack _). vm_compute. exact I.
  - assert (BlindBetFactory.getMarketAddress 1%N (BlindBetFactory.run txs f0)
            = Returns 101%N) as Haddr by (vm_compute; reflexivity).
    destruct (Hround 1%N 101%N Haddr) as (_ & _ & Hid).
    split; [exact Haddr |]. split; [exact Hid |].
    apply Hbeyond. vm_compute. discriminate.
Defined.

Lemma factory_validation_is_weaker_witness :
  let f0 :=
    BlindBetFactory.mkFactory 50%N Sample.deployer 0%N 7%N 8%N 200%N
      3600%N 31536000%N 3600%N 0%N ∅ ∅ in
  let params :=
    BlindBetFactory.mkMarketParams "Rain?" 3600%N 3600%N Sample.resolver
      "" "" in
  BlindBetFactory._validateMarketParams params f0 = Returns tt
  /\ BlindBetFactory.deployMarket (Sample.at_time Sample.alice 1000%N)
       params 100%N Sample.ledger1 f0
     = Reverts (BlindBetFactory.MarketReverted InvalidQuestion).
Proof.
  intros f0 params.
  destruct (factory_validation_is_weaker
              (Sample.at_time Sample.deployer 500%N) 50%N 7%N 8%N 200%N f0
              (@nil (Env * BlindBetFactory.Call (T := Ledger.t))) params)
    as (Hbounds & _ & _ & Hrevert).
  - reflexivity.
  - assert (BlindBetFactory._validateMarketParams params f0 = Returns tt)
      as Hpass.
    { apply Hbounds. vm_compute. repeat split; discriminate. }
    split; [exact Hpass |]. apply (Hrevert _ _ _ _ Hpass). reflexivity.
Defined.

Lemma deployMarket_creates_market_zero_witness :
  let env := Sample.at_time Sample.alice 1000%N in
  let params :=
    BlindBetFactory.mkMarketParams "Will it rain tomorrow?" 3600%N 3600%N
      Sample.resolver "" "" in
  let f :=
    BlindBetFactory.mkFactory 50%N Sample.deployer 0%N 7%N 8%N 200%N
      3600%N 31536000%N 3600%N 5%N ∅ ∅ in
  exists f' st,
    BlindBetFactory.deployMarket env params 100%N Sample.ledger1 f
      = Returns (f', st, 100%N, 5%N)
    /\ MarketLib.id (MarketBase._getMarket 0%N st) = 0%N
    /\ MarketLib.creator (MarketBase._getMarket 0%N st) = 50%N.
Proof.
  intros env params f.
  destruct (BlindBetFactory.deployMarket env params 100%N Sample.ledger1 f)
    as [[[[f' st] a] marketId] | e] eqn:Hd;
    [| vm_compute in Hd; discriminate].
  destruct (deployMarket_creates_market_zero env params 100%N
              Sample.ledger1 f f' st a marketId Hd)
    as (-> & -> & _ & _ & _ & _ & _ & _ & Hid & Hcreator & _).
  exists f', st. repeat split; assumption.
Defined.
End FactoryRuns.
